(** * Dependency bot: version normalisation, update classification,
      security gating and manifest rewriting

    A shallow embedding of [dependency-bot.js] (class [DependencyBot]) and
    [security-checker.js] (class [SecurityChecker]).

    JavaScript strings are modelled as [string] (sequences of bytes, UTF-8
    for anything outside ASCII).  The character classes of the patterns
    of the bot are ASCII, so the encoding does not matter for them.  Two
    things depend on it: white space outside ASCII, which [trim] and [\s]
    accept and [JS.isSpace] does not, and lengths and positions (the
    fifty characters searched after an advisory identifier), counted here
    in bytes and by JavaScript in UTF-16 units.  On ASCII text the model
    is exact.  [null] and [undefined] are modelled by [None]. *)

From Stdlib Require Import Bool List String Ascii NArith Lia.
From Stdlib Require Import DecimalString DecimalFacts DecimalN.
Import ListNotations.

Local Open Scope string_scope.
Local Open Scope bool_scope.

(* ================================================================== *)
(** ** The JavaScript runtime functions the bot relies on *)
(* ================================================================== *)

Module JS.

(** *** Characters and strings *)

Definition isDigit (c : ascii) : bool :=
  let n := N_of_ascii c in ((48 <=? n) && (n <=? 57))%N.

Definition isDot (c : ascii) : bool := Ascii.eqb c ".".

Definition isLetter (c : ascii) : bool :=
  let n := N_of_ascii c in
  (((65 <=? n) && (n <=? 90)) || ((97 <=? n) && (n <=? 122)))%N.

(** [s.replace(/[^...]/g, '')]: keep the characters the class accepts. *)
Fixpoint keep (p : ascii -> bool) (s : string) : string :=
  match s with
  | EmptyString => EmptyString
  | String c s' => if p c then String c (keep p s') else keep p s'
  end.

(** [s.split(sep)] for a one-character separator; never the empty list. *)
Fixpoint split (sep : ascii) (s : string) : list string :=
  match s with
  | EmptyString => [EmptyString]
  | String c s' =>
      if Ascii.eqb c sep then EmptyString :: split sep s'
      else match split sep s' with
           | [] => [String c EmptyString]
           | p :: ps => String c p :: ps
           end
  end.

(** [parts.join(sep)]. *)
Fixpoint join (sep : string) (parts : list string) : string :=
  match parts with
  | [] => EmptyString
  | [p] => p
  | p :: ps => p ++ sep ++ join sep ps
  end.

(** [s.startsWith(p)]. *)
Definition startsWith (s p : string) : bool := String.prefix p s.

(** [s.includes(needle)]. *)
Fixpoint includes (s needle : string) : bool :=
  String.prefix needle s ||
  match s with
  | EmptyString => false
  | String _ s' => includes s' needle
  end.

Definition lowerChar (c : ascii) : ascii :=
  let n := N_of_ascii c in
  if ((65 <=? n) && (n <=? 90))%N then ascii_of_N (n + 32) else c.

(** [s.toLowerCase()], on the ASCII letters. *)
Fixpoint toLowerCase (s : string) : string :=
  match s with
  | EmptyString => EmptyString
  | String c s' => String (lowerChar c) (toLowerCase s')
  end.

(** White space as [trim] and [\s] see it among the ASCII characters:
    TAB, LF, VT, FF, CR and SPACE.  They also take U+00A0, U+FEFF, the
    line separators and the Unicode space separators, which are not
    modelled. *)
Definition isSpace (c : ascii) : bool :=
  let n := N_of_ascii c in (((9 <=? n) && (n <=? 13)) || (n =? 32))%N.

Fixpoint allChars (p : ascii -> bool) (s : string) : bool :=
  match s with
  | EmptyString => true
  | String c s' => p c && allChars p s'
  end.

(** [s.trim() === '']. *)
Definition isBlank (s : string) : bool := allChars isSpace s.

(** The longest prefix whose characters satisfy [p], and the rest. *)
Fixpoint span (p : ascii -> bool) (s : string) : string * string :=
  match s with
  | EmptyString => (EmptyString, EmptyString)
  | String c s' =>
      if p c then let (a, b) := span p s' in (String c a, b)
      else (EmptyString, s)
  end.

(** Truthiness of a possibly missing string: [null], [undefined] and the
    empty string are falsy. *)
Definition truthy (v : option string) : bool :=
  match v with
  | None | Some EmptyString => false
  | Some _ => true
  end.

(** *** Numbers

    A JavaScript number that arises from reading a string of decimal
    digits: a non-negative integral double, [Infinity] or [NaN]. *)

Inductive number :=
| Fin (n : N)
| Infinity
| NaN.

(** Round a natural number to the nearest double (ties to even): 53 bits
    of mantissa, overflow to [Infinity] from [2^1024]. *)
Definition roundToDouble (n : N) : number :=
  let bits := N.size n in
  if (bits <=? 53)%N then Fin n
  else
    let k := (bits - 53)%N in
    let q := N.shiftr n k in
    let r := N.land n (N.ones k) in
    let half := N.shiftl 1 (k - 1) in
    let q' := if (half <? r)%N || ((r =? half)%N && N.odd q)
              then (q + 1)%N else q in
    let m := N.shiftl q' k in
    if (N.shiftl 1 1024 <=? m)%N then Infinity else Fin m.

(** The value of a string of decimal digits ([None] when the string is
    empty or has another character). *)
Definition digitsValue (s : string) : option N :=
  match s with
  | EmptyString => None
  | _ => option_map N.of_uint (NilEmpty.uint_of_string s)
  end.

(** The decimal numeral of a natural number. *)
Definition decimal (n : N) : string := NilEmpty.string_of_uint (N.to_uint n).

(** [m > n] on numbers: false as soon as one side is [NaN]. *)
Definition gt (a b : number) : bool :=
  match a, b with
  | Fin x, Fin y => (y <? x)%N
  | Infinity, Fin _ => true
  | _, _ => false
  end.

(** [Number::toString] needs the shortest decimal numeral that reads back
    as the same double.  [m] is an integral double with [n] decimal
    digits; numerals with [k], [k+1], ... significant digits are tried in
    turn, and of two that read back as [m] the nearer one is taken (the
    even one on a tie). *)
Definition readsBackAs (m c : N) : bool :=
  match roundToDouble c with
  | Fin m' => (m' =? m)%N
  | _ => false
  end.

Fixpoint shortestFrom (fuel : nat) (m n k : N) : N :=
  match fuel with
  | O => m
  | S fuel' =>
      let p := (10 ^ (n - k))%N in
      let s := (m / p)%N in
      let lo := (s * p)%N in
      let hi := (lo + p)%N in
      match readsBackAs m lo, readsBackAs m hi with
      | true, true =>
          if (m - lo <? hi - m)%N then lo
          else if (hi - m <? m - lo)%N then hi
          else if N.even s then lo else hi
      | true, false => lo
      | false, true => hi
      | false, false => shortestFrom fuel' m n (k + 1)%N
      end
  end.

Definition shortest (m : N) : N :=
  shortestFrom 17 m (N.of_nat (String.length (decimal m))) 1.

Fixpoint dropTrailingZeros (s : string) : string :=
  match s with
  | EmptyString => EmptyString
  | String c s' =>
      match dropTrailingZeros s' with
      | EmptyString => if Ascii.eqb c "0" then EmptyString else String c EmptyString
      | t => String c t
      end
  end.

(** [x.toString()] for the numbers above: plain digits below [10^21]
    (at most 21 of them), exponent notation from there on. *)
Definition toString (x : number) : string :=
  match x with
  | NaN => "NaN"
  | Infinity => "Infinity"
  | Fin m =>
      let c := shortest m in
      let str := decimal c in
      let n := String.length str in
      if (c <? 10 ^ 21)%N then str
      else match str with
           | EmptyString => str
           | String d rest =>
               let frac := dropTrailingZeros rest in
               String d (match frac with
                         | EmptyString => EmptyString
                         | _ => "." ++ frac
                         end)
               ++ "e+" ++ decimal (N.of_nat (n - 1))
           end
  end.

(** [parseInt(s, 10)] on a string without sign or leading white space:
    the value of its leading run of digits, [NaN] when there is none. *)
Definition parseInt (s : string) : number :=
  match digitsValue (fst (span isDigit s)) with
  | Some v => roundToDouble v
  | None => NaN
  end.

(** [Number(s)] on the strings the bot converts: the pieces between dots
    of a string built from digits and from [toString] results.  These are
    the empty string (which is [0]), digit strings, digit strings with a
    positive decimal exponent, and [Infinity]; any other string is taken
    as [NaN]. *)
Definition Number (s : string) : number :=
  match s with
  | EmptyString => Fin 0
  | _ =>
      let (d, rest) := span isDigit s in
      match digitsValue d, rest with
      | Some v, EmptyString => roundToDouble v
      | Some v, String "e" (String "+" x) =>
          match digitsValue x with
          | Some e => roundToDouble (v * 10 ^ e)
          | None => NaN
          end
      | _, _ => if String.eqb s "Infinity" then Infinity else NaN
      end
  end.

End JS.

(* ================================================================== *)
(** ** Exceptions *)
(* ================================================================== *)

(** What a [throw] carries, as far as the bot can tell the cases apart. *)
Inductive exn :=
| TypeError (message : string)
| SyntaxError (message : string)
| ReferenceError (message : string)
| ApiError (message : string).

(** The outcome of a call that may throw. *)
Inductive result (A : Type) :=
| Returned (a : A)
| Throws (e : exn).
Arguments Returned {A} a.
Arguments Throws {A} e.

(* ================================================================== *)
(** ** The [semver] package *)
(* ================================================================== *)

Module semver.

(** Modelled from the spec: the [semver] package is a dependency of the
    bot and not part of its sources.  The spec asks for the "standard
    ordered version comparison (major first, then minor, then patch, each
    compared numerically not lexically)"; the package reads a version as
    [MAJOR.MINOR.PATCH] where each part is [0] or a digit string without
    leading zero, no larger than [Number.MAX_SAFE_INTEGER].  The grammar
    is restricted to what the bot hands over, strings of digits, dots and
    [toString] results: pre-release and build tags, which need a [-] or a
    digit before a [+], cannot occur in them. *)

Definition MAX_SAFE_INTEGER : N := 2 ^ 53 - 1.

Definition numericIdentifier (s : string) : option N :=
  match s with
  | EmptyString => None
  | String c rest =>
      if JS.allChars JS.isDigit s
         && (negb (Ascii.eqb c "0") || String.eqb rest EmptyString)
      then match JS.digitsValue s with
           | Some v => if (v <=? MAX_SAFE_INTEGER)%N then Some v else None
           | None => None
           end
      else None
  end.

(** [new SemVer(version)], as the triple it holds; [None] where the
    constructor throws. *)
Definition parse (version : option string) : option (N * N * N) :=
  match version with
  | None => None
  | Some s =>
      match JS.split "." s with
      | [a; b; c] =>
          match numericIdentifier a, numericIdentifier b, numericIdentifier c with
          | Some x, Some y, Some z => Some (x, y, z)
          | _, _, _ => None
          end
      | _ => None
      end
  end.

(** [semver.valid(version)], as a truth value. *)
Definition valid (version : option string) : bool :=
  match parse version with Some _ => true | None => false end.

(** Major first, then minor, then patch. *)
Definition triple_ltb (a b : N * N * N) : bool :=
  let '(a1, a2, a3) := a in
  let '(b1, b2, b3) := b in
  ((a1 <? b1) || ((a1 =? b1) && ((a2 <? b2) || ((a2 =? b2) && (a3 <? b3)))))%N.

(** The error of [new SemVer(version)]. *)
Definition invalid (version : option string) : exn :=
  match version with
  | Some s => TypeError ("Invalid Version: " ++ s)
  | None => TypeError "Invalid version. Must be a string."
  end.

(** [semver.gt(a, b)]: throws on a version it cannot read, [a] first. *)
Definition gt (a b : option string) : result bool :=
  match parse a with
  | None => Throws (invalid a)
  | Some x =>
      match parse b with
      | None => Throws (invalid b)
      | Some y => Returned (triple_ltb y x)
      end
  end.

(** [semver.major(v)] and [semver.minor(v)]. *)
Definition major (v : option string) : result N :=
  match parse v with
  | Some (x, _, _) => Returned x
  | None => Throws (invalid v)
  end.

Definition minor (v : option string) : result N :=
  match parse v with
  | Some (_, y, _) => Returned y
  | None => Throws (invalid v)
  end.

End semver.

(* ================================================================== *)
(** ** Version normalisation and update classification *)
(* ================================================================== *)

Definition bind {A B} (r : result A) (k : A -> result B) : result B :=
  match r with
  | Returned a => k a
  | Throws e => Throws e
  end.

Notation "x <- r ;; k" := (bind r (fun x => k))
  (at level 61, r at next level, right associativity).

(** The character class [[0-9.]]. *)
Definition isVersionChar (c : ascii) : bool := JS.isDigit c || JS.isDot c.

(** [DependencyBot.sanitizeVersion]. *)
Definition sanitizeVersion (version : option string) : option string :=
  if negb (JS.truthy version) then version
  else
    match version with
    | None => None
    | Some v =>
        let cleanVersion := JS.keep isVersionChar v in
        let parts := JS.split "." cleanVersion in
        let sanitized :=
          JS.join "."
            (map (fun part =>
                    if Nat.ltb 1 (String.length part) && JS.startsWith part "0"
                    then JS.toString (JS.parseInt part)
                    else part)
                 parts) in
        Some sanitized
    end.

(** [while (parts.length < 3) parts.push(x)]. *)
Definition padTo3 {A} (x : A) (parts : list A) : list A :=
  (parts ++ repeat x (3 - List.length parts))%list.

(** [DependencyBot.makeVersionSemverCompatible]. *)
Definition makeVersionSemverCompatible (version : option string) : string :=
  if negb (JS.truthy version) then "0.0.0"
  else
    match version with
    | None => "0.0.0"
    | Some v =>
        let cleanVersion := JS.keep isVersionChar v in
        let parts := JS.split "." cleanVersion in
        let processedParts :=
          map (fun part => JS.toString (JS.parseInt part)) parts in
        JS.join "." (padTo3 "0" processedParts)
    end.

(** The update tier, ['major'], ['minor'], ['patch'] or ['unknown']. *)
Inductive tier := major | minor | patch | unknown.

(** [a.split('.')] on a value that may be [null]. *)
Definition splitDots (s : option string) : result (list string) :=
  match s with
  | Some v => Returned (JS.split "." v)
  | None => Throws (TypeError "Cannot read properties of null (reading 'split')")
  end.

(** The body of the [try] block of [getUpdateType]. *)
Definition getUpdateType_try (current latest : option string) : result tier :=
  let sanitizedCurrent := sanitizeVersion current in
  let sanitizedLatest := sanitizeVersion latest in
  if semver.valid sanitizedCurrent && semver.valid sanitizedLatest then
    latestMajor <- semver.major sanitizedLatest ;;
    currentMajor <- semver.major sanitizedCurrent ;;
    if (currentMajor <? latestMajor)%N then Returned major
    else
      latestMinor <- semver.minor sanitizedLatest ;;
      currentMinor <- semver.minor sanitizedCurrent ;;
      if (currentMinor <? latestMinor)%N then Returned minor
      else Returned patch
  else
    currentStrings <- splitDots sanitizedCurrent ;;
    latestStrings <- splitDots sanitizedLatest ;;
    let currentParts := padTo3 (JS.Fin 0) (map JS.Number currentStrings) in
    let latestParts := padTo3 (JS.Fin 0) (map JS.Number latestStrings) in
    if JS.gt (nth 0 latestParts JS.NaN) (nth 0 currentParts JS.NaN) then Returned major
    else if JS.gt (nth 1 latestParts JS.NaN) (nth 1 currentParts JS.NaN) then Returned minor
    else Returned patch.

(** [DependencyBot.getUpdateType]: any exception becomes ['unknown']. *)
Definition getUpdateType (current latest : option string) : tier :=
  match getUpdateType_try current latest with
  | Returned t => t
  | Throws _ => unknown
  end.

(* ================================================================== *)
(** ** Data model *)
(* ================================================================== *)

(** A security verdict ([SecurityChecker.parseSecurityResponse] and the
    [catch] of [checkVulnerability]).  The CVE lists and section excerpts
    that the parser also returns only feed the rendered text of the pull
    request and of the report; [details] is the raw answer. *)
Record SecurityVerdict := {
  safe : bool;
  details : string
}.

Inductive depType := dependency | devDependency.

(** One entry of [outdatedDeps] ([depInfo] in [checkDependencies]). *)
Record depInfo := {
  name : string;
  currentVersion : string;
  latestVersion : string;
  type : depType;
  updateType : tier;
  securityCheck : option SecurityVerdict
}.

(** A JSON object as a list of members in property order.  In a parsed
    [package.json] the bot looks at two members only, [dependencies] and
    [devDependencies], each an object from package names to version
    expressions; every other value is kept as it is.  The list holds the
    own members.  Two things are left out: a name that is an array index
    comes first in JavaScript's property order, the list is in insertion
    order; and a look-up in JavaScript also sees the members of
    [Object.prototype] ([constructor], [toString], ...), a look-up in the
    list does not.  The model is exact for manifests whose package names
    are neither. *)
Inductive jsonValue :=
| JsonMap (members : list (string * string))
| JsonOther (text : string).

Definition packageJson := list (string * jsonValue).

(** A manifest: [file.type] with the matching [file.content].  The
    content of a [package.json] stands for the document [JSON.parse] reads
    from it and that [JSON.stringify(_, null, 2)] writes back, [None] for
    a text that [JSON.parse] rejects. *)
Inductive manifest :=
| npm (parsed : option packageJson)
| python (text : string).

Record file := {
  path : string;
  content : manifest
}.

(** *** Objects as association lists *)

Fixpoint lookup {V} (key : string) (members : list (string * V)) : option V :=
  match members with
  | [] => None
  | (k, v) :: rest => if String.eqb k key then Some v else lookup key rest
  end.

(** [obj[key] = value]: in place when the key exists, appended otherwise. *)
Fixpoint put {V} (key : string) (value : V) (members : list (string * V))
  : list (string * V) :=
  match members with
  | [] => [(key, value)]
  | (k, v) :: rest =>
      if String.eqb k key then (k, value) :: rest
      else (k, v) :: put key value rest
  end.

(** [{...target, ...source}]. *)
Definition spread {V} (target source : list (string * V)) : list (string * V) :=
  fold_left (fun acc kv => put (fst kv) (snd kv) acc) source target.

(** [packageJson[section]] as a dependency map; nothing when the member
    is missing or not an object. *)
Definition section (key : string) (pkg : packageJson) : option (list (string * string)) :=
  match lookup key pkg with
  | Some (JsonMap members) => Some members
  | _ => None
  end.

(** [packageJson[section]?.[depName]], for a name that is not a member
    of [Object.prototype]: the own member. *)
Definition sectionEntry (key depName : string) (pkg : packageJson) : option string :=
  match section key pkg with
  | Some members => lookup depName members
  | None => None
  end.

(* ================================================================== *)
(** ** The security checker *)
(* ================================================================== *)

(** [SecurityChecker.parseSecurityResponse], the [safe] flag. *)
Definition isSafe (responseText : string) : bool :=
  let lowerText := JS.toLowerCase responseText in
  (JS.includes lowerText "safe" && negb (JS.includes lowerText "unsafe"))
  || (negb (JS.includes lowerText "vulnerabilit")
      && negb (JS.includes lowerText "cve-")
      && negb (JS.includes lowerText "security issue")
      && negb (JS.includes lowerText "advisory")).

Definition parseSecurityResponse (responseText : string) : SecurityVerdict :=
  {| safe := isSafe responseText; details := responseText |}.

(** The message of an exception ([error.message]). *)
Definition message (e : exn) : string :=
  match e with
  | TypeError m | SyntaxError m | ReferenceError m | ApiError m => m
  end.

(** [response.content[0].text] handed to the parser: a [TypeError] when
    the answer carries no text. *)
Definition responseText (response : option string) : result string :=
  match response with
  | Some text => Returned text
  | None => Throws (TypeError "Cannot read properties of undefined")
  end.

(* ================================================================== *)
(** ** The outside world and the effects of a run *)
(* ================================================================== *)

(** A repository as the bot reads it: its name and the two manifests it
    looks for ([None] when [getContent] fails). *)
Record repository := {
  full_name : string;
  package_json : option (option packageJson);
  requirements_txt : option string
}.

(** The grouped content of a pull-request description
    ([generateContextProtocolPR]). *)
Inductive riskLevel := High | Medium | Low.

Record prBody := {
  totalUpdates : nat;
  majorUpdates : list depInfo;
  minorUpdates : list depInfo;
  patchUpdates : list depInfo;
  overallRisk : riskLevel
}.

(** The sections of a security report ([generateReport]). *)
Record report := {
  totalChecked : nat;
  safeUpdates : list depInfo;
  unsafeUpdates : list depInfo;
  skippedUpdates : list depInfo
}.

(** The requests a run issues, in the order it issues them. *)
Inductive event :=
| SecurityQuery (packageName currentVersion newVersion ecosystem : string)
| CreateRef (repo : string) (branchName sha : string)
| CreateOrUpdateFileContents (repo path : string) (updatedContent : manifest)
                             (branch commitMessage : string)
| CreatePull (repo : string) (deps : list depInfo) (body : prBody)
             (head base : string)
| WriteReport (repoName : string) (reportContent : report).

(** Whether an event changes the hosted repository. *)
Definition isWrite (e : event) : bool :=
  match e with
  | CreateRef _ _ _ | CreateOrUpdateFileContents _ _ _ _ _ | CreatePull _ _ _ _ _ => true
  | SecurityQuery _ _ _ _ | WriteReport _ _ => false
  end.

Definition isSecurityQuery (e : event) : bool :=
  match e with
  | SecurityQuery _ _ _ _ => true
  | _ => false
  end.

(** Everything a run depends on besides its input: the two registries
    ([None] for a failed or empty answer), the security oracle (which
    throws, or answers with or without a text), the hosting API, and the
    clock: [today w log] is the date it shows when the requests issued so
    far are [log]. *)
Record World := {
  getLatestNpmVersion : string -> option string;
  getLatestPypiVersion : string -> option string;
  messages_create : string -> string -> string -> string -> result (option string);
  getDefaultBranch : repository -> result string;
  getRef : repository -> string -> result string;
  accepts : list event -> event -> bool;
  today : list event -> string
}.

(** Computations that log their requests and may throw. *)
Definition Eff (A : Type) : Type := list event -> list event * result A.

Definition ret {A} (a : A) : Eff A := fun log => (log, Returned a).

Definition throw {A} (e : exn) : Eff A := fun log => (log, Throws e).

Definition lift {A} (r : result A) : Eff A := fun log => (log, r).

Definition ebind {A B} (m : Eff A) (k : A -> Eff B) : Eff B :=
  fun log =>
    match m log with
    | (log', Returned a) => k a log'
    | (log', Throws e) => (log', Throws e)
    end.

Notation "x <~ m ;; k" := (ebind m (fun x => k))
  (at level 61, m at next level, right associativity).

(** [try { m } catch (error) { handler }]. *)
Definition tryCatch {A} (m : Eff A) (handler : exn -> Eff A) : Eff A :=
  fun log =>
    match m log with
    | (log', Returned a) => (log', Returned a)
    | (log', Throws e) => handler e log'
    end.

(** Issue a request that does not need the world's consent. *)
Definition emit (e : event) : Eff unit := fun log => ((log ++ [e])%list, Returned tt).

(** Issue a write request: it is logged, and throws when refused. *)
Definition request (w : World) (e : event) : Eff unit :=
  fun log =>
    ((log ++ [e])%list,
     if accepts w log e then Returned tt else Throws (ApiError "request failed")).

(** [for (const x of xs) { ... outdatedDeps.push(d) ... }]: the body
    yields the entry it pushes, if any. *)
Fixpoint forEach {A B} (body : A -> Eff (option B)) (xs : list A) (acc : list B)
  : Eff (list B) :=
  match xs with
  | [] => ret acc
  | x :: rest =>
      pushed <~ body x ;;
      forEach body rest (match pushed with Some b => (acc ++ [b])%list | None => acc end)
  end.

(** [SecurityChecker.checkVulnerability]. *)
Definition checkVulnerability (w : World)
    (packageName currentVersion newVersion ecosystem : string) : Eff SecurityVerdict :=
  tryCatch
    (_ <~ emit (SecurityQuery packageName currentVersion newVersion ecosystem) ;;
     response <~ lift (messages_create w packageName currentVersion newVersion ecosystem) ;;
     text <~ lift (responseText response) ;;
     ret (parseSecurityResponse text))
    (fun error =>
       ret {| safe := false;
              details := "Error checking security: " ++ message error
                         ++ ". Skipping update as a precaution." |}).

(* ================================================================== *)
(** ** Finding outdated dependencies *)
(* ================================================================== *)

(** The classes [[a-zA-Z0-9_.-]] and [[<>=!~]]. *)
Definition isNameChar (c : ascii) : bool :=
  JS.isLetter c || JS.isDigit c
  || Ascii.eqb c "_" || Ascii.eqb c "." || Ascii.eqb c "-".

Definition isOperatorChar (c : ascii) : bool :=
  Ascii.eqb c "<" || Ascii.eqb c ">" || Ascii.eqb c "="
  || Ascii.eqb c "!" || Ascii.eqb c "~".

(** [line.match(/^([a-zA-Z0-9_.-]+)([<>=!~]+)([a-zA-Z0-9_.-]+)/)]: the
    three groups.  The two classes are disjoint, so each group is the
    longest run of its class. *)
Definition matchRequirement (line : string) : option (string * string * string) :=
  let (depName, afterName) := JS.span isNameChar line in
  let (operator, afterOperator) := JS.span isOperatorChar afterName in
  let (version, _) := JS.span isNameChar afterOperator in
  match depName, operator, version with
  | String _ _, String _ _, String _ _ => Some (depName, operator, version)
  | _, _, _ => None
  end.

(** A line the two Python loops pass over: blank or a comment.  The
    test for a blank line does not change what the loops do, whatever
    counts as white space: such a line does not match the requirement
    pattern either. *)
Definition skippedLine (line : string) : bool :=
  JS.isBlank line || JS.startsWith line "#".

(** A declared expression the npm loop passes over: a git dependency or
    a local path. *)
Definition skippedExpression (version : string) : bool :=
  JS.includes version "git" || JS.startsWith version "file:".

(** [latestVersion && semver.gt(latest, current)]. *)
Definition isOutdated (latestVersion : option string) (latest current : option string)
  : result bool :=
  if JS.truthy latestVersion then semver.gt latest current else Returned false.

(** [depInfo.securityCheck = verdict]. *)
Definition withSecurityCheck (d : depInfo) (verdict : SecurityVerdict) : depInfo :=
  {| name := name d;
     currentVersion := currentVersion d;
     latestVersion := latestVersion d;
     type := type d;
     updateType := updateType d;
     securityCheck := Some verdict |}.

(** The [if] block both loops share: build [depInfo], ask for the
    security verdict unless in dry-run mode, and push. *)
Definition pushDepInfo (w : World) (dryRun : bool)
    (depName declared bare latest : string) (kind : depType) (ecosystem : string)
  : Eff (option depInfo) :=
  let depInfo := {| name := depName;
                    currentVersion := declared;
                    latestVersion := latest;
                    type := kind;
                    updateType := getUpdateType (Some bare) (Some latest);
                    securityCheck := None |} in
  if negb dryRun then
    verdict <~ checkVulnerability w depName bare latest ecosystem ;;
    ret (Some (withSecurityCheck depInfo verdict))
  else ret (Some depInfo).

(** One turn of the npm loop of [checkDependencies]. *)
Definition checkNpmEntry (w : World) (dryRun : bool) (pkg : packageJson)
    (entry : string * string) : Eff (option depInfo) :=
  let (depName, version) := entry in
  if skippedExpression version then ret None
  else
    let latestVersion := getLatestNpmVersion w depName in
    let cleanVersion := JS.keep isVersionChar version in
    let sanitizedCurrentVersion := sanitizeVersion (Some cleanVersion) in
    let sanitizedLatestVersion := sanitizeVersion latestVersion in
    outdated <~ lift (isOutdated latestVersion sanitizedLatestVersion
                                 sanitizedCurrentVersion) ;;
    match outdated, latestVersion with
    | true, Some latest =>
        pushDepInfo w dryRun depName version cleanVersion latest
          (if JS.truthy (sectionEntry "dependencies" depName pkg)
           then dependency else devDependency)
          "npm"
    | _, _ => ret None
    end.

(** One turn of the Python loop of [checkDependencies].  The [catch]
    block logs the error and then reads [cleanVersion], a variable of the
    npm loop that is not in scope here: the handler itself throws. *)
Definition checkPythonLine (w : World) (dryRun : bool) (line : string)
  : Eff (option depInfo) :=
  if skippedLine line then ret None
  else
    match matchRequirement line with
    | None => ret None
    | Some (depName, operator, version) =>
        let latestVersion := getLatestPypiVersion w depName in
        let semverCompatibleCurrent := makeVersionSemverCompatible (Some version) in
        let semverCompatibleLatest := makeVersionSemverCompatible latestVersion in
        tryCatch
          (outdated <~ lift (isOutdated latestVersion (Some semverCompatibleLatest)
                                        (Some semverCompatibleCurrent)) ;;
           match outdated, latestVersion with
           | true, Some latest =>
               pushDepInfo w dryRun depName (operator ++ version) version latest
                 dependency "pypi"
           | _, _ => ret None
           end)
          (fun error => throw (ReferenceError "cleanVersion is not defined"))
    end.

(** [Object.entries({...packageJson.dependencies, ...packageJson.devDependencies})],
    for names that are not array indices: the entries of [dependencies]
    in their order, each with the value [devDependencies] gives it if it
    is declared there too, then the other entries of [devDependencies]. *)
Definition mergedDependencies (pkg : packageJson) : list (string * string) :=
  let members key := match section key pkg with Some m => m | None => [] end in
  spread (spread [] (members "dependencies")) (members "devDependencies").

Definition newline : ascii := "010".

(** [DependencyBot.checkDependencies]. *)
Definition checkDependencies (w : World) (dryRun : bool) (f : file)
  : Eff (list depInfo) :=
  match content f with
  | npm None => throw (SyntaxError "Unexpected token in JSON")
  | npm (Some pkg) => forEach (checkNpmEntry w dryRun pkg) (mergedDependencies pkg) []
  | python text => forEach (checkPythonLine w dryRun) (JS.split newline text) []
  end.

(* ================================================================== *)
(** ** Rewriting a manifest *)
(* ================================================================== *)

(** [dep.currentVersion.match(/^[^0-9]*/)?.[0] || '']. *)
Definition versionPrefix (declared : string) : string :=
  fst (JS.span (fun c => negb (JS.isDigit c)) declared).

(** [packageJson[key][depName] = value]. *)
Definition setEntry (key depName value : string) (pkg : packageJson) : packageJson :=
  match section key pkg with
  | Some members => put key (JsonMap (put depName value members)) pkg
  | None => pkg
  end.

(** One turn of the npm loop of [updateDependenciesInFile]. *)
Definition updateNpmDep (pkg : packageJson) (dep : depInfo) : packageJson :=
  let newValue := versionPrefix (currentVersion dep) ++ latestVersion dep in
  match type dep with
  | dependency =>
      if JS.truthy (sectionEntry "dependencies" (name dep) pkg)
      then setEntry "dependencies" (name dep) newValue pkg
      else pkg
  | devDependency =>
      if JS.truthy (sectionEntry "devDependencies" (name dep) pkg)
      then setEntry "devDependencies" (name dep) newValue pkg
      else pkg
  end.

(** One turn of the Python loop of [updateDependenciesInFile]. *)
Definition rewriteLine (outdatedDeps : list depInfo) (line : string) : string :=
  if skippedLine line then line
  else
    match matchRequirement line with
    | None => line
    | Some (depName, operator, _) =>
        match find (fun d => String.eqb (name d) depName) outdatedDeps with
        | Some dep => depName ++ operator ++ latestVersion dep
        | None => line
        end
    end.

Definition updatePython (text : string) (outdatedDeps : list depInfo) : string :=
  JS.join (String newline EmptyString)
          (map (rewriteLine outdatedDeps) (JS.split newline text)).

Definition updateNpm (pkg : packageJson) (outdatedDeps : list depInfo) : packageJson :=
  fold_left updateNpmDep outdatedDeps pkg.

(** [DependencyBot.updateDependenciesInFile]. *)
Definition updateDependenciesInFile (f : file) (outdatedDeps : list depInfo)
  : result manifest :=
  match content f with
  | npm None => Throws (SyntaxError "Unexpected token in JSON")
  | npm (Some pkg) => Returned (npm (Some (updateNpm pkg outdatedDeps)))
  | python text => Returned (python (updatePython text outdatedDeps))
  end.

(* ================================================================== *)
(** ** Pull requests, reports and the run over a repository *)
(* ================================================================== *)

Definition tier_eqb (a b : tier) : bool :=
  match a, b with
  | major, major | minor, minor | patch, patch | unknown, unknown => true
  | _, _ => false
  end.

Definition nonEmpty {A} (l : list A) : bool :=
  match l with [] => false | _ :: _ => true end.

(** [DependencyBot.generateContextProtocolPR]: the grouping by update
    type and the risk level. *)
Definition generateContextProtocolPR (f : file) (outdatedDeps : list depInfo) : prBody :=
  let byMajor := filter (fun d => tier_eqb (updateType d) major) outdatedDeps in
  let byMinor := filter (fun d => tier_eqb (updateType d) minor) outdatedDeps in
  let byPatch := filter (fun d => tier_eqb (updateType d) patch) outdatedDeps in
  {| totalUpdates := List.length outdatedDeps;
     majorUpdates := byMajor;
     minorUpdates := byMinor;
     patchUpdates := byPatch;
     overallRisk := if nonEmpty byMajor then High
                    else if nonEmpty byMinor then Medium else Low |}.

(** [DependencyBot.createBranch]. *)
Definition createBranch (w : World) (repo : repository) (branchName baseBranch : string)
  : Eff unit :=
  sha <~ lift (getRef w repo ("heads/" ++ baseBranch)) ;;
  request w (CreateRef (full_name repo) ("refs/heads/" ++ branchName) sha).

(** [DependencyBot.commitFile]; the look-up of the file's current SHA
    cannot fail the commit, its error is swallowed. *)
Definition commitFile (w : World) (repo : repository) (filePath : string)
    (updatedContent : manifest) (branch commitMessage : string) : Eff unit :=
  request w (CreateOrUpdateFileContents (full_name repo) filePath updatedContent
                                        branch commitMessage).

(** [new Date().toISOString().slice(0, 10)]: the clock is read anew by
    every call. *)
Definition currentDate (w : World) : Eff string :=
  fun log => (log, Returned (today w log)).

(** [DependencyBot.createUpdatePR]; the branch is named after the date
    at the time of the call. *)
Definition createUpdatePR (w : World) (repo : repository) (f : file)
    (outdatedDeps : list depInfo) : Eff unit :=
  date <~ currentDate w ;;
  let branchName := "dependency-updates-" ++ date in
  baseBranch <~ lift (getDefaultBranch w repo) ;;
  _ <~ createBranch w repo branchName baseBranch ;;
  updatedContent <~ lift (updateDependenciesInFile f outdatedDeps) ;;
  _ <~ commitFile w repo (path f) updatedContent branchName
         ("Update dependencies in " ++ path f) ;;
  let body := generateContextProtocolPR f outdatedDeps in
  request w (CreatePull (full_name repo) outdatedDeps body branchName baseBranch).

(** [dep.securityCheck?.safe]. *)
Definition isSafeDep (dep : depInfo) : bool :=
  match securityCheck dep with
  | Some verdict => safe verdict
  | None => false
  end.

Definition isUnsafeDep (dep : depInfo) : bool :=
  match securityCheck dep with
  | Some verdict => negb (safe verdict)
  | None => false
  end.

Definition isSkippedDep (dep : depInfo) : bool :=
  match securityCheck dep with
  | Some _ => false
  | None => true
  end.

(** [SecurityChecker.generateReport]: the three groups of the report.
    A failure to write the file is caught and logged there. *)
Definition buildReport (dependencies : list depInfo) : report :=
  {| totalChecked := List.length dependencies;
     safeUpdates := filter isSafeDep dependencies;
     unsafeUpdates := filter isUnsafeDep dependencies;
     skippedUpdates := filter isSkippedDep dependencies |}.

Definition generateReport (repoName : string) (dependencies : list depInfo) : Eff unit :=
  emit (WriteReport repoName (buildReport dependencies)).

(** [DependencyBot.getPackageFiles]. *)
Definition getPackageFiles (repo : repository) : list file :=
  (match package_json repo with
   | Some parsed => [{| path := "package.json"; content := npm parsed |}]
   | None => []
   end ++
   match requirements_txt repo with
   | Some text => [{| path := "requirements.txt"; content := python text |}]
   | None => []
   end)%list.

(** [this.dryRun ? outdatedDeps : outdatedDeps.filter(dep => dep.securityCheck?.safe)]. *)
Definition safeDeps (dryRun : bool) (outdatedDeps : list depInfo) : list depInfo :=
  if dryRun then outdatedDeps else filter isSafeDep outdatedDeps.

(** One turn of the loop over the package files in [processRepository];
    [allDependencies] is threaded through. *)
Definition processFile (w : World) (dryRun : bool) (repo : repository)
    (allDependencies : list depInfo) (f : file) : Eff (list depInfo) :=
  outdatedDeps <~ checkDependencies w dryRun f ;;
  if nonEmpty outdatedDeps then
    let allDependencies' := (allDependencies ++ outdatedDeps)%list in
    if nonEmpty (safeDeps dryRun outdatedDeps) then
      _ <~ createUpdatePR w repo f (safeDeps dryRun outdatedDeps) ;;
      ret allDependencies'
    else ret allDependencies'
  else ret allDependencies.

Fixpoint processFiles (w : World) (dryRun : bool) (repo : repository)
    (allDependencies : list depInfo) (files : list file) : Eff (list depInfo) :=
  match files with
  | [] => ret allDependencies
  | f :: rest =>
      allDependencies' <~ processFile w dryRun repo allDependencies f ;;
      processFiles w dryRun repo allDependencies' rest
  end.

(** [DependencyBot.processRepository]: whatever is thrown inside is
    caught and logged. *)
Definition processRepository (w : World) (dryRun : bool) (repo : repository) : Eff unit :=
  tryCatch
    (allDependencies <~ processFiles w dryRun repo [] (getPackageFiles repo) ;;
     if nonEmpty allDependencies && negb dryRun
     then generateReport (full_name repo) allDependencies
     else ret tt)
    (fun error => ret tt).

(** [DependencyBot.run] over the repositories it was given. *)
Fixpoint run (w : World) (dryRun : bool) (repos : list repository) : Eff unit :=
  match repos with
  | [] => ret tt
  | repo :: rest =>
      _ <~ processRepository w dryRun repo ;;
      run w dryRun rest
  end.

(* ================================================================== *)
(** ** The repositories a run visits *)
(* ================================================================== *)

(** A repository as the hosting API lists it: [repo.archived],
    [repo.owner.login], [repo.name], and what the bot reads from it. *)
Record listing := {
  archived : bool;
  owner_login : string;
  repo_name : string;
  data : repository
}.

(** What the bot is configured with, as far as a run depends on it:
    [targetRepo] holds the owner and the name of the one repository to
    look at, if one is given. *)
Module Config.
Record t := {
  targetRepo : option (string * string);
  excludedRepos : list string;
  dryRun : bool
}.
End Config.

(** The two requests of [getRepositories]. *)
Record Octokit := {
  repos_get : string -> string -> result listing;
  listReposAccessibleToInstallation : result (list listing)
}.

(** [this.excludedRepos.includes(`${repo.owner.login}/${repo.name}`)]. *)
Definition excluded (cfg : Config.t) (r : listing) : bool :=
  existsb (String.eqb (owner_login r ++ "/" ++ repo_name r)) (Config.excludedRepos cfg).

(** [DependencyBot.getRepositories]. *)
Definition getRepositories (cfg : Config.t) (octokit : Octokit) : result (list listing) :=
  match Config.targetRepo cfg with
  | Some (owner, repo) =>
      match repos_get octokit owner repo with
      | Returned r => if archived r then Returned [] else Returned [r]
      | Throws _ => Returned []
      end
  | None =>
      repos <- listReposAccessibleToInstallation octokit ;;
      Returned (filter (fun r => negb (archived r) && negb (excluded cfg r)) repos)
  end.

(** [DependencyBot.run], from the look-up of the repositories on. *)
Definition runBot (cfg : Config.t) (octokit : Octokit) (w : World) : Eff unit :=
  repos <~ lift (getRepositories cfg octokit) ;;
  run w (Config.dryRun cfg) (map data repos).

(* ================================================================== *)
(** ** The name of the report file *)
(* ================================================================== *)

(** [s.replace(/c/g, r)] for a character [c]. *)
Fixpoint replaceChar (c r : ascii) (s : string) : string :=
  match s with
  | EmptyString => EmptyString
  | String b s' => String (if Ascii.eqb b c then r else b) (replaceChar c r s')
  end.

(** [SecurityChecker.generateReport]: the repository name made fit for
    a file name, [repoName.replace(/\//g, '-').replace(/[^a-zA-Z0-9-_.]/g, '')].
    The class is the one of the names in a requirements file. *)
Definition safeRepoName (repoName : string) : string :=
  JS.keep isNameChar (replaceChar "/" "-" repoName).

(** The name of the report file, which [path.join] puts under
    [reportDir]; [now] is [new Date().toISOString()]. *)
Definition reportFileName (repoName now : string) : string :=
  safeRepoName repoName ++ "-security-report-" ++ replaceChar ":" "-" now ++ ".txt".

(* ================================================================== *)
(** ** The sections and advisories of an answer *)
(* ================================================================== *)

(** *** Trimming, searching and global matches

    White space is the ASCII one of [JS.isSpace], for [trim] and for the
    class [\s] alike. *)

(** [s.substring(n)]. *)
Fixpoint drop (n : nat) (s : string) : string :=
  match n, s with
  | S n', String _ s' => drop n' s'
  | _, _ => s
  end.

(** [s.substring(start, stop)]: the two indices are swapped when they
    come in the wrong order, and cut off at the length. *)
Definition substring (s : string) (start stop : nat) : string :=
  String.substring (Nat.min start stop) (Nat.max start stop - Nat.min start stop) s.

Fixpoint trimStart (s : string) : string :=
  match s with
  | EmptyString => EmptyString
  | String c s' => if JS.isSpace c then trimStart s' else s
  end.

Fixpoint trimEnd (s : string) : string :=
  match s with
  | EmptyString => EmptyString
  | String c s' =>
      match trimEnd s' with
      | EmptyString => if JS.isSpace c then EmptyString else String c EmptyString
      | t => String c t
      end
  end.

(** [s.trim()]. *)
Definition trim (s : string) : string := trimEnd (trimStart s).

(** A pattern of ASCII characters matched at the start of [s] under
    the flag [i]. *)
Fixpoint prefixIgnoreCase (pattern s : string) : bool :=
  match pattern, s with
  | EmptyString, _ => true
  | String a pattern', String b s' =>
      Ascii.eqb (JS.lowerChar a) (JS.lowerChar b) && prefixIgnoreCase pattern' s'
  | String _ _, EmptyString => false
  end.

(** [new RegExp(`(${term})`, 'i')] found somewhere in [s]. *)
Fixpoint includesIgnoreCase (s needle : string) : bool :=
  prefixIgnoreCase needle s ||
  match s with
  | EmptyString => false
  | String _ s' => includesIgnoreCase s' needle
  end.

(** [s.lastIndexOf(c, from)] for a character [c]: the last position up
    to [from] that holds it, [None] for [-1]. *)
Fixpoint lastIndexOf (c : ascii) (s : string) (from : nat) : option nat :=
  match s with
  | EmptyString => None
  | String b s' =>
      let here := if Ascii.eqb b c then Some 0 else None in
      match from with
      | O => here
      | S from' =>
          match lastIndexOf c s' from' with
          | Some k => Some (S k)
          | None => here
          end
      end
  end.

(** [s.match(pattern)] under the flag [g], for a pattern that matches no
    empty string: [lengthAt s] is the length of the match at the start
    of [s], if there is one; [skip] characters of the last match are
    still to be passed over. *)
Fixpoint matchAll (lengthAt : string -> option nat) (skip : nat) (s : string)
  : list string :=
  match s with
  | EmptyString => []
  | String _ s' =>
      match skip with
      | S k => matchAll lengthAt k s'
      | O =>
          match lengthAt s with
          | Some n => String.substring 0 n s :: matchAll lengthAt (n - 1) s'
          | None => matchAll lengthAt 0 s'
          end
      end
  end.

(** *** [extractSectionContent] *)

(** The class [[:\s]]. *)
Definition isColonOrSpace (c : ascii) : bool := Ascii.eqb c ":" || JS.isSpace c.

(** [\n\s*\d+\.] matched at the start of [s]: the start of a numbered
    item.  A digit is no white space and a dot is no digit, so the two
    runs are the longest ones. *)
Definition numberedItemAt (s : string) : bool :=
  match s with
  | String c rest =>
      Ascii.eqb c newline
      && (let (_, afterSpace) := JS.span JS.isSpace rest in
          let (digits, afterDigits) := JS.span JS.isDigit afterSpace in
          match digits with
          | EmptyString => false
          | _ => JS.startsWith afterDigits "."
          end)
  | EmptyString => false
  end.

(** [(.*?)] before a pattern that [stop] recognises, or before the end
    of the text: what stands before the first position where [stop]
    holds. *)
Fixpoint lazyUntil (stop : string -> bool) (s : string) : string :=
  match s with
  | EmptyString => EmptyString
  | String c s' => if stop s then EmptyString else String c (lazyUntil stop s')
  end.

(** What follows the first occurrence of the title, in any letter
    case.  The titles the checker asks for are made of letters and
    blanks, so they stand for themselves in the pattern. *)
Fixpoint afterTitle (sectionTitle text : string) : option string :=
  if prefixIgnoreCase sectionTitle text
  then Some (drop (String.length sectionTitle) text)
  else match text with
       | EmptyString => None
       | String _ text' => afterTitle sectionTitle text'
       end.

(** [SecurityChecker.extractSectionContent].  The pattern
    [title[:\s]*(.*?)(?:\n\s*\d+\.|$)], under the flags [i] and [s],
    matches at the first occurrence of the title, with the longest run of
    colons and white space after it: from there on the end of the text
    always ends a match. *)
Definition extractSectionContent (text sectionTitle : string) : string :=
  match afterTitle sectionTitle text with
  | Some rest => trim (lazyUntil numberedItemAt (snd (JS.span isColonOrSpace rest)))
  | None => EmptyString
  end.

(** *** [extractCVEsFromText] *)

(** One advisory, as [extractCVEsFromText] pushes it. *)
Module Cve.
Record t := {
  id : string;
  url : string;
  description : string;
  severity : string
}.
End Cve.

(** [/CVE-\d{4}-\d{4,}/i] matched at the start of [s]: the length of the
    match. *)
Definition cveLengthAt (s : string) : option nat :=
  if prefixIgnoreCase "CVE-" s then
    let (year, afterYear) := JS.span JS.isDigit (drop 4 s) in
    match afterYear with
    | String "-" afterDash =>
        let number := fst (JS.span JS.isDigit afterDash) in
        if Nat.eqb (String.length year) 4 && Nat.leb 4 (String.length number)
        then Some (9 + String.length number)
        else None
    | _ => None
    end
  else None.

(** [/(https?:\/\/[^\s]+)/] matched at the start of [s]: the scheme,
    then the longest run of characters that are no white space, which
    must not be empty. *)
Definition urlWithScheme (scheme s : string) : option nat :=
  match fst (JS.span (fun c => negb (JS.isSpace c)) (drop (String.length scheme) s)) with
  | EmptyString => None
  | address => Some (String.length scheme + String.length address)
  end.

Definition urlLengthAt (s : string) : option nat :=
  if String.prefix "https://" s then urlWithScheme "https://" s
  else if String.prefix "http://" s then urlWithScheme "http://" s
  else None.

Definition severityTerms : list string :=
  ["critical"; "high"; "medium"; "low"; "severity"].

(** [a > b] on indices that may be [-1] ([None]). *)
Definition indexGt (a b : option nat) : bool :=
  match a, b with
  | Some x, Some y => Nat.ltb y x
  | Some _, None => true
  | None, _ => false
  end.

(** One turn of the loop of [extractCVEsFromText]: the entry pushed for
    the [i]-th match [cveId].  The severity is the matched term in lower
    case, which is the term itself. *)
Definition cveEntry (sectionContent : string) (urlMatches : list string)
    (i : nat) (cveId : string) : Cve.t :=
  let cveIndex := String.index 0 cveId sectionContent in
  let description :=
    match cveIndex with
    | Some position =>
        let startIndex :=
          match lastIndexOf "." sectionContent position with
          | Some k => S k
          | None => 0
          end in
        match String.index position "." sectionContent with
        | Some endIndex => trim (substring sectionContent startIndex endIndex)
        | None => EmptyString
        end
    | None => EmptyString
    end in
  let after :=
    match find (fun m => indexGt (String.index 0 m sectionContent) cveIndex) urlMatches with
    | Some m => m
    | None => EmptyString
    end in
  let url :=
    match after with
    | EmptyString =>
        match nth_error urlMatches i with
        | Some m => m
        | None => EmptyString
        end
    | _ => after
    end in
  let window :=
    match cveIndex with
    | Some position => substring sectionContent (position - 50) (position + 50)
    | None => substring sectionContent 0 49
    end in
  let severity :=
    match find (fun term => includesIgnoreCase window term) severityTerms with
    | Some term => term
    | None => "unknown"
    end in
  {| Cve.id := cveId;
     Cve.url := match url with
                | EmptyString => "https://nvd.nist.gov/vuln/detail/" ++ cveId
                | _ => url
                end;
     Cve.description := match description with
                        | EmptyString => "No description available"
                        | _ => description
                        end;
     Cve.severity := severity |}.

Fixpoint cveEntries (sectionContent : string) (urlMatches : list string)
    (i : nat) (cveMatches : list string) : list Cve.t :=
  match cveMatches with
  | [] => []
  | cveId :: rest =>
      cveEntry sectionContent urlMatches i cveId
      :: cveEntries sectionContent urlMatches (S i) rest
  end.

(** [SecurityChecker.extractCVEsFromText].  Where no advisory is found,
    the last test of the function returns the empty list on either
    side. *)
Definition extractCVEsFromText (text sectionTitle : string) : list Cve.t :=
  let sectionContent := extractSectionContent text sectionTitle in
  match sectionContent with
  | EmptyString => []
  | _ =>
      let cveMatches := matchAll cveLengthAt 0 sectionContent in
      let urlMatches := matchAll urlLengthAt 0 sectionContent in
      cveEntries sectionContent urlMatches 0 cveMatches
  end.

(** The four excerpts [parseSecurityResponse] returns beside [safe] and
    [details]. *)
Definition currentVersionCVEs (responseText : string) : list Cve.t :=
  extractCVEsFromText responseText "CURRENT VERSION VULNERABILITIES".

Definition newVersionCVEs (responseText : string) : list Cve.t :=
  extractCVEsFromText responseText "NEW VERSION VULNERABILITIES".

Definition securityImprovements (responseText : string) : string :=
  extractSectionContent responseText "SECURITY IMPROVEMENT".

Definition overallAssessment (responseText : string) : string :=
  extractSectionContent responseText "OVERALL ASSESSMENT".

(* ================================================================== *)
(** ** The entry points *)
(* ================================================================== *)

(** How a step of the command line ends: it goes on with a value, or
    the process exits. *)
Inductive cli (A : Type) :=
| Continue (a : A)
| Exit (code : nat).
Arguments Continue {A} a.
Arguments Exit {A} code.

(** [parseRepoUrl] of [cli.js].  [pathname input] stands for
    [new URL(input).pathname], which throws on an input that is no
    URL.  Whatever is thrown is caught, and the process exits. *)
Definition parseRepoUrl (pathname : string -> result string) (url : string)
  : cli (string * string) :=
  let repoPath :=
    if JS.includes url "github.com" then
      p <- pathname (if JS.startsWith url "http" then url else "https://" ++ url) ;;
      Returned (if JS.startsWith p "/" then drop 1 p else p)
    else Returned url in
  match repoPath with
  | Returned repoPath =>
      match filter (fun part => negb (JS.isBlank part)) (JS.split "/" repoPath) with
      | owner :: repo :: _ => Continue (owner, repo)
      | _ => Exit 1
      end
  | Throws _ => Exit 1
  end.

(** The variables the two entry points ask for; [cli.js] and [index.js]
    hold the same list. *)
Definition requiredEnvVars : list string :=
  ["GITHUB_APP_ID"; "GITHUB_PRIVATE_KEY"; "GITHUB_INSTALLATION_ID"; "ANTHROPIC_API_KEY"].

(** [requiredEnvVars.filter(envVar => !process.env[envVar])]. *)
Definition missingVars (env : string -> option string) : list string :=
  filter (fun envVar => negb (JS.truthy (env envVar))) requiredEnvVars.

(** [cli.js] from the check of the environment on, for the options
    [--repo] and [--dry-run] as given.  The bot is built with the
    repository named on the command line as its target and with no
    excluded repositories. *)
Definition main (env : string -> option string) (pathname : string -> result string)
    (octokit : Octokit) (w : World) (repoOption : string) (dryRunOption : bool)
  : Eff (cli unit) :=
  if nonEmpty (missingVars env) then ret (Exit 1)
  else
    match parseRepoUrl pathname repoOption with
    | Exit code => ret (Exit code)
    | Continue (owner, repo) =>
        tryCatch
          (_ <~ runBot {| Config.targetRepo := Some (owner, repo);
                          Config.excludedRepos := [];
                          Config.dryRun := dryRunOption |} octokit w ;;
           ret (Continue tt))
          (fun error => ret (Exit 1))
    end.

(** [index.js], the entry point of a scheduled run, from the check of
    the environment on: the bot is built from the environment, with no
    target repository. *)
Definition index_js (env : string -> option string) (octokit : Octokit) (w : World)
  : Eff (cli unit) :=
  if nonEmpty (missingVars env) then ret (Exit 1)
  else
    tryCatch
      (_ <~ runBot {| Config.targetRepo := None;
                      Config.excludedRepos :=
                        match env "EXCLUDED_REPOS" with
                        | Some names =>
                            if JS.truthy (Some names) then JS.split "," names else []
                        | None => []
                        end;
                      Config.dryRun :=
                        match env "DRY_RUN" with
                        | Some flag => String.eqb flag "true"
                        | None => false
                        end |} octokit w ;;
       ret (Continue tt))
      (fun error => ret (Exit 1)).

(* ================================================================== *)
(** ** Notions the specification uses *)
(* ================================================================== *)

(** *** Normal forms and the order on versions *)

(** Drop the leading zeros of a component, keeping a lone [0]. *)
Fixpoint dropLeadingZeros (part : string) : string :=
  match part with
  | EmptyString => EmptyString
  | String c rest =>
      if Ascii.eqb c "0"
      then match rest with
           | EmptyString => part
           | _ => dropLeadingZeros rest
           end
      else part
  end.

(** The components of a version string once every character other than
    a digit or a dot is gone. *)
Definition components (v : string) : list string :=
  JS.split "." (JS.keep isVersionChar v).

(** Normalisation in the words of the specification: strip, split on
    dots, drop leading zeros, pad with ["0"] to three components, and
    ["0.0.0"] when nothing is left after stripping. *)
Definition normalizeSpec (v : string) : string :=
  match JS.keep isVersionChar v with
  | EmptyString => "0.0.0"
  | _ => JS.join "." (padTo3 "0" (map dropLeadingZeros (components v)))
  end.

(** A component that a double holds exactly: its value is below [2^53]. *)
Definition exactPart (part : string) : bool :=
  match JS.digitsValue part with
  | Some n => (n <? 2 ^ 53)%N
  | None => true
  end.

Definition nonEmptyPart (part : string) : bool :=
  match part with EmptyString => false | _ => true end.

(** [s] holds no occurrence of the character [sep]. *)
Definition lacks (sep : ascii) (s : string) : bool :=
  JS.allChars (fun c => negb (Ascii.eqb c sep)) s.

(** [getUpdateType] as the bot computes it, seen as one comparison: the
    numbers are the components of what [sanitizeVersion] returns, read by
    [Number], a missing minor or patch being [0]. *)
Definition numericParts (v : string) : list JS.number :=
  match sanitizeVersion (Some v) with
  | Some s => padTo3 (JS.Fin 0) (map JS.Number (JS.split "." s))
  | None => []
  end.

Definition majorOf (v : string) : JS.number := nth 0 (numericParts v) JS.NaN.
Definition minorOf (v : string) : JS.number := nth 1 (numericParts v) JS.NaN.

Definition classify (current latest : string) : tier :=
  if JS.gt (majorOf latest) (majorOf current) then major
  else if JS.gt (minorOf latest) (minorOf current) then minor
  else patch.

(** Major first, then minor, then patch, each compared as a number. *)
Definition triple_lt (a b : N * N * N) : Prop :=
  let '(a1, a2, a3) := a in
  let '(b1, b2, b3) := b in
  (a1 < b1 \/ (a1 = b1 /\ (a2 < b2 \/ (a2 = b2 /\ a3 < b3))))%N.

(** [semver] reads both strings as versions, and [latest] is the greater
    one. *)
Definition strictlyNewer (current latest : option string) : Prop :=
  exists c l, semver.parse current = Some c /\ semver.parse latest = Some l
              /\ triple_lt c l.

(** A computation yields a record. *)
Definition yieldsRecord {A} (m : Eff (option A)) (log : list event) : Prop :=
  exists a, snd (m log) = Returned (Some a).

(** *** Verdicts *)

(** The verdict [checkVulnerability] comes back with, as a function of
    what the oracle does. *)
Definition verdictOf (w : World)
    (packageName currentVersion newVersion ecosystem : string) : SecurityVerdict :=
  let failed error :=
    {| safe := false;
       details := "Error checking security: " ++ message error
                  ++ ". Skipping update as a precaution." |} in
  match messages_create w packageName currentVersion newVersion ecosystem with
  | Returned (Some text) => parseSecurityResponse text
  | Returned None => failed (TypeError "Cannot read properties of undefined")
  | Throws error => failed error
  end.

(** What the parser takes for a safety affirmation: the answer holds
    "safe" and nowhere "unsafe" (in any letter case). *)
Definition affirmsSafety (responseText : string) : bool :=
  let lowerText := JS.toLowerCase responseText in
  JS.includes lowerText "safe" && negb (JS.includes lowerText "unsafe").

(** The advisory identifier pattern of [extractCVEsFromText],
    [/CVE-\d{4}-\d{4,}/i], matched at the start of [s]. *)
Definition matchesCveAt (s : string) : bool :=
  match s with
  | String c1 (String c2 (String c3 (String c4
      (String y1 (String y2 (String y3 (String y4 (String h
        (String n1 (String n2 (String n3 (String n4 _)))))))))))) =>
      String.eqb (JS.toLowerCase (String c1 (String c2 (String c3 (String c4 ""))))) "cve-"
      && JS.isDigit y1 && JS.isDigit y2 && JS.isDigit y3 && JS.isDigit y4
      && Ascii.eqb h "-"
      && JS.isDigit n1 && JS.isDigit n2 && JS.isDigit n3 && JS.isDigit n4
  | _ => false
  end.

(** The answer holds an advisory identifier somewhere. *)
Fixpoint containsAdvisoryId (s : string) : bool :=
  matchesCveAt s ||
  match s with
  | EmptyString => false
  | String _ s' => containsAdvisoryId s'
  end.

(** *** Runs *)

(** A computation whose outcome does not depend on the log it starts
    from, and which only appends to it. *)
Definition parametric {A} (m : Eff A) : Prop :=
  forall log, m log = ((log ++ fst (m []))%list, snd (m [])).

(** The outdated dependencies [checkDependencies] finds in a manifest. *)
Definition outdatedOf (w : World) (dryRun : bool) (f : file) : result (list depInfo) :=
  snd (checkDependencies w dryRun f []).

(** What each request of a run over the manifests [files] carries. *)
Definition runEvent (w : World) (dryRun : bool) (files : list file) (e : event) : Prop :=
  match e with
  | SecurityQuery _ _ _ _ => dryRun = false
  | CreateRef _ _ _ => True
  | CreateOrUpdateFileContents _ filePath updatedContent _ _ =>
      exists f outdated,
        In f files /\ path f = filePath
        /\ outdatedOf w dryRun f = Returned outdated
        /\ updateDependenciesInFile f (safeDeps dryRun outdated) = Returned updatedContent
  | CreatePull _ deps body _ _ =>
      exists f outdated,
        In f files
        /\ outdatedOf w dryRun f = Returned outdated
        /\ deps = safeDeps dryRun outdated
        /\ body = generateContextProtocolPR f deps
  | WriteReport _ reportContent =>
      dryRun = false
      /\ exists perFile,
           Forall2 (fun f outdated => outdatedOf w dryRun f = Returned outdated)
                   files perFile
           /\ reportContent = buildReport (List.concat perFile)
  end.

(** The same for a run that is not a dry run: a committed manifest is
    the rewrite by the safe subset of the outdated dependencies of that
    manifest, a pull request proposes exactly that subset, and the report
    covers all outdated dependencies of all manifests. *)
Definition onlySafeWritten (w : World) (files : list file) (e : event) : Prop :=
  match e with
  | SecurityQuery _ _ _ _ | CreateRef _ _ _ => True
  | CreateOrUpdateFileContents _ filePath updatedContent _ _ =>
      exists f outdated,
        In f files /\ path f = filePath
        /\ outdatedOf w false f = Returned outdated
        /\ updateDependenciesInFile f (filter isSafeDep outdated) = Returned updatedContent
  | CreatePull _ deps body _ _ =>
      exists f outdated,
        In f files
        /\ outdatedOf w false f = Returned outdated
        /\ deps = filter isSafeDep outdated
        /\ body = generateContextProtocolPR f deps
  | WriteReport _ reportContent =>
      exists perFile,
        Forall2 (fun f outdated => outdatedOf w false f = Returned outdated)
                files perFile
        /\ reportContent = buildReport (List.concat perFile)
  end.

(** A dependency has a verdict that says safe. *)
Definition verifiedSafe (d : depInfo) : Prop :=
  exists verdict, securityCheck d = Some verdict /\ safe verdict = true.

(** *** Rewrites *)

(** A latest version that can stand after an operator on a line of its
    own: it holds no line feed and does not begin with one of the
    operator characters. *)
Definition plainLatest (d : depInfo) : bool :=
  lacks newline (latestVersion d)
  && match latestVersion d with
     | EmptyString => true
     | String c _ => negb (isOperatorChar c)
     end.

(** The manifest a file holds after a rewrite. *)
Definition withContent (f : file) (c : manifest) : file :=
  {| path := path f; content := c |}.

(** The approved set is fit for the manifest: nothing is asked of a
    [package.json]; for a requirements file every latest version is
    plain. *)
Definition fitFor (f : file) (outdatedDeps : list depInfo) : bool :=
  match content f with
  | npm _ => true
  | python _ => forallb plainLatest outdatedDeps
  end.

(** The member of [package.json] an approved update is written to, and
    the value written. *)
Definition depSection (d : depInfo) : string :=
  match type d with
  | dependency => "dependencies"
  | devDependency => "devDependencies"
  end.

Definition newValue (d : depInfo) : string :=
  versionPrefix (currentVersion d) ++ latestVersion d.

(** What one turn of the npm loop does to the entry [depName] of the
    member [key], seen as a function on its value, and what the whole
    loop does to it. *)
Definition stepValue (key depName : string) (d : depInfo) (value : string) : string :=
  if String.eqb (depSection d) key && String.eqb (name d) depName
     && JS.truthy (Some value)
  then newValue d else value.

Definition valueAfter (key depName : string) (outdatedDeps : list depInfo)
    (value : string) : string :=
  fold_left (fun v d => stepValue key depName d v) outdatedDeps value.

(* ================================================================== *)
(** ** Notions for the properties of the code *)
(* ================================================================== *)

(** *** Loops and requests *)

(** What one turn of a scanning loop pushes for the element [x]. *)
Definition pushedBy {A B} (body : A -> Eff (option B)) (x : A) : list B :=
  match snd (body x []) with
  | Returned (Some b) => [b]
  | _ => []
  end.

(** The package and the version a question to the oracle is about. *)
Definition queried (e : event) : option (string * string) :=
  match e with
  | SecurityQuery packageName _ newVersion _ => Some (packageName, newVersion)
  | _ => None
  end.

(** The repository a request is about. *)
Definition eventRepo (e : event) : option string :=
  match e with
  | SecurityQuery _ _ _ _ => None
  | CreateRef r _ _ | CreateOrUpdateFileContents r _ _ _ _
  | CreatePull r _ _ _ _ | WriteReport r _ => Some r
  end.

(** The requests [evs] are about the repositories [repos] only. *)
Definition about (repos : list repository) (evs : list event) : Prop :=
  Forall (fun e => match eventRepo e with
                   | Some r => In r (map full_name repos)
                   | None => True
                   end) evs.

(** *** Branches and pull requests *)

Definition isCreatePull (e : event) : bool :=
  match e with
  | CreatePull _ _ _ _ _ => true
  | _ => false
  end.

(** The number of pull requests among the requests [evs]. *)
Definition pulls (evs : list event) : nat := List.length (filter isCreatePull evs).

(** The branch [ref] of [repo] exists: an earlier request to create it
    was accepted. *)
Definition created (w : World) (log : list event) (repo ref : string) : Prop :=
  exists before sha after,
    log = (before ++ CreateRef repo ref sha :: after)%list
    /\ accepts w before (CreateRef repo ref sha) = true.

(** The host refuses to create a branch that exists. *)
Definition refusesExistingRef (w : World) : Prop :=
  forall log repo ref sha,
    created w log repo ref -> accepts w log (CreateRef repo ref sha) = false.

(** The reference [createBranch] asks for on the day [day]: the branch
    named in [createUpdatePR], the same for every manifest of that day. *)
Definition updateRef (day : string) : string :=
  "refs/heads/" ++ "dependency-updates-" ++ day.

(** From the requests [log] on, the clock shows the day [day]. *)
Definition staysOn (w : World) (log : list event) (day : string) : Prop :=
  forall evs, today w (log ++ evs) = day.

(** What the requests [evs], issued after [log] on the day [day], keep to
    when the host refuses an existing branch: at most one pull request,
    none when the update branch of the day exists already, and that
    branch exists once a pull request is opened. *)
Definition singlePull (w : World) (repo : repository) (day : string)
    (log evs : list event) : Prop :=
  pulls evs <= 1
  /\ (created w log (full_name repo) (updateRef day) -> pulls evs = 0)
  /\ (pulls evs = 1 -> created w (log ++ evs) (full_name repo) (updateRef day)).

(** The branch an event names: the reference of [createRef], the branch
    of [createOrUpdateFileContents], the head of [pulls.create]. *)
Definition eventBranch (e : event) : option string :=
  match e with
  | CreateRef _ branchName _ => Some branchName
  | CreateOrUpdateFileContents _ _ _ branch _ => Some branch
  | CreatePull _ _ _ head _ => Some head
  | SecurityQuery _ _ _ _ | WriteReport _ _ => None
  end.

(** *** Objects *)

(** The entries of a member of [package.json], none when the member is
    missing: [packageJson[key] || {}]. *)
Definition sectionMembers (key : string) (pkg : packageJson) : list (string * string) :=
  match section key pkg with
  | Some members => members
  | None => []
  end.

(** The members of [Object.prototype].  An object read from JSON has
    them without declaring them, and [obj[name]] reads them. *)
Definition inheritedNames : list string :=
  ["constructor"; "__defineGetter__"; "__defineSetter__"; "hasOwnProperty";
   "__lookupGetter__"; "__lookupSetter__"; "isPrototypeOf"; "propertyIsEnumerable";
   "toString"; "valueOf"; "__proto__"; "toLocaleString"].

Definition inherited (depName : string) : bool :=
  existsb (String.eqb depName) inheritedNames.

(** No package that the manifest declares bears such a name. *)
Definition plainNames (pkg : packageJson) : bool :=
  forallb (fun entry => negb (inherited (fst entry)))
          (sectionMembers "dependencies" pkg ++ sectionMembers "devDependencies" pkg).

(** *** Versions and strings *)

(** A component [semver] accepts once its leading zeros are gone: a
    digit string with a value up to [MAX_SAFE_INTEGER]. *)
Definition safePart (part : string) : bool :=
  match JS.digitsValue part with
  | Some n => (n <=? semver.MAX_SAFE_INTEGER)%N
  | None => false
  end.

(** A section title that stands for itself in a pattern: letters and
    blanks only. *)
Definition plainTitle (sectionTitle : string) : bool :=
  JS.allChars (fun c => JS.isLetter c || Ascii.eqb c " ") sectionTitle.

(** [part] occurs in [s]. *)
Definition occursIn (part s : string) : Prop :=
  exists before after, s = before ++ part ++ after.

(** [s] does not start with white space. *)
Definition startsClean (s : string) : Prop :=
  match s with
  | EmptyString => True
  | String c _ => JS.isSpace c = false
  end.

(** An identifier the advisory pattern matches from end to end. *)
Definition cveShape (cveId : string) : Prop :=
  exists head year number,
    cveId = head ++ year ++ "-" ++ number
    /\ JS.toLowerCase head = "cve-"
    /\ String.length year = 4 /\ JS.allChars JS.isDigit year = true
    /\ 4 <= String.length number /\ JS.allChars JS.isDigit number = true.

(* ================================================================== *)
(** ** The classifier and the verdicts in the words of the specification *)
(* ================================================================== *)

(** *** Versions in the words of the specification

    The classifier of the specification works on numbers: a version
    string is stripped, split on dots, and each component is read as a
    number; missing components count as [0].  These notions are built
    from the components of the stripped string and their values, not from
    the normal forms the bot computes. *)

(** The numbers of a list of components; none when a component is empty. *)
Fixpoint numbersOf (parts : list string) : option (list N) :=
  match parts with
  | [] => Some []
  | part :: rest =>
      match JS.digitsValue part, numbersOf rest with
      | Some n, Some ns => Some (n :: ns)
      | _, _ => None
      end
  end.

(** The normal form of a version as a triple of numbers: major, minor
    and patch, a missing minor or patch being [0], and [0.0.0] when
    nothing is left after stripping.  A version with an empty component
    or with more than three components has none. *)
Definition versionTriple (v : string) : option (N * N * N) :=
  match JS.keep isVersionChar v with
  | EmptyString => Some (0, 0, 0)%N
  | _ =>
      match numbersOf (components v) with
      | Some [a] => Some (a, 0, 0)%N
      | Some [a; b] => Some (a, b, 0)%N
      | Some [a; b; c] => Some (a, b, c)
      | _ => None
      end
  end.


(** The tier of an update from [current] to [latest]: major if the major
    number grew, whatever the rest; else minor if the minor number grew;
    else patch. *)
Definition tierOf (current latest : N * N * N) : tier :=
  let '(c1, c2, _) := current in
  let '(l1, l2, _) := latest in
  if (c1 <? l1)%N then major else if (c2 <? l2)%N then minor else patch.

(** The numbers of a triple are below [2^53], the integers a double holds
    exactly and [semver] accepts. *)
Definition exactTriple (t : N * N * N) : bool :=
  let '(a, b, c) := t in ((a <? 2 ^ 53) && (b <? 2 ^ 53) && (c <? 2 ^ 53))%N.

(** A version of one to three components, each a number below [2^53]. *)
Definition shortVersion (v : string) : bool :=
  forallb safePart (components v) && Nat.leb (List.length (components v)) 3.


(** *** Affirmations of safety

    An explicit safety affirmation in the words of the specification: the
    answer says "safe", in any letter case, somewhere it is neither the
    end of "unsafe" nor denied by a "not" right before it. *)

(** The text read so far, last character first, ends in "un" or in
    "not ". *)
Definition deniedBy (readSoFar : string) : bool :=
  String.prefix "nu" readSoFar || String.prefix " ton" readSoFar.

Fixpoint affirmedFrom (readSoFar rest : string) : bool :=
  (String.prefix "safe" rest && negb (deniedBy readSoFar))
  || match rest with
     | EmptyString => false
     | String c rest' => affirmedFrom (String c readSoFar) rest'
     end.

Definition explicitAffirmation (responseText : string) : bool :=
  affirmedFrom EmptyString (JS.toLowerCase responseText).

(** *** What a run commits, proposes and reports *)

(** The event is the writing of a report. *)
Definition isWriteReport (e : event) : bool :=
  match e with
  | WriteReport _ _ => true
  | _ => false
  end.

(** The manifests committed and the sets of updates proposed by the
    requests [evs]. *)
Definition committed (evs : list event) : list manifest :=
  flat_map (fun e => match e with
                     | CreateOrUpdateFileContents _ _ updatedContent _ _ => [updatedContent]
                     | _ => []
                     end) evs.

Definition proposed (evs : list event) : list (list depInfo) :=
  flat_map (fun e => match e with
                     | CreatePull _ deps _ _ _ => [deps]
                     | _ => []
                     end) evs.

(** The verdicts of the records of a scan, by name. *)
Definition verdicts (r : result (list depInfo)) : option (list (string * bool)) :=
  match r with
  | Returned deps => Some (map (fun d => (name d, isSafeDep d)) deps)
  | Throws _ => None
  end.

(* ================================================================== *)
(** ** Examples *)
(* ================================================================== *)

(** A deterministic stand-in for the outside world, for examples: the
    registries know [flask], [requests], [a] and [b]; the oracle finds
    [flask] and [a] safe, reports an advisory for [requests], and fails
    on anything else; the hosting API accepts every request. *)
Definition exampleWorld : World := {|
  getLatestNpmVersion := fun depName =>
    if String.eqb depName "a" then Some "1.3.0"
    else if String.eqb depName "b" then Some "2.0.0" else None;
  getLatestPypiVersion := fun depName =>
    if String.eqb depName "flask" then Some "1.2.0"
    else if String.eqb depName "requests" then Some "3.0.0" else None;
  messages_create := fun packageName _ _ _ =>
    if String.eqb packageName "flask" || String.eqb packageName "a"
    then Returned (Some "No known vulnerabilities. Recommendation: SAFE")
    else if String.eqb packageName "requests"
    then Returned (Some "CVE-2023-32681 (medium) affects this release.")
    else Throws (ApiError "overloaded");
  getDefaultBranch := fun _ => Returned "main";
  getRef := fun _ _ => Returned "3f2a9c1";
  accepts := fun _ _ => true;
  today := fun _ => "2025-01-15"
|}.

(** Lines joined into a text. *)
Definition lines (ls : list string) : string := JS.join (String newline EmptyString) ls.

Definition exampleRequirements : file :=
  {| path := "requirements.txt";
     content := python (lines ["flask==1.0.0"; "# comment"; "requests>=2.0.0"; ""]) |}.

Definition examplePackage : file :=
  {| path := "package.json";
     content := npm (Some [("name", JsonOther "demo");
                           ("dependencies",
                            JsonMap [("a", "^1.2.0");
                                     ("c", "git+https://github.com/acme/c.git");
                                     ("d", "file:../local")]);
                           ("devDependencies", JsonMap [("b", "~1.0.0")])]) |}.

Definition exampleRepository : repository :=
  {| full_name := "acme/demo";
     package_json := None;
     requirements_txt := Some (lines ["flask==1.0.0"; "# comment"; "requests>=2.0.0"; ""]) |}.

(** A manifest in which the first dependency has a declared version that
    does not normalise to a triple, followed by a well-formed sibling. *)
Definition shortVersionPackage : file :=
  {| path := "package.json";
     content := npm (Some [("dependencies",
                            JsonMap [("a", "^1.2"); ("b", "^1.0.0")])]) |}.

Definition postReleaseRequirements : file :=
  {| path := "requirements.txt";
     content := python (lines ["requests==2.0.0.post1"; "flask==1.0.0"]) |}.

Definition siblingPackage : file :=
  {| path := "package.json";
     content := npm (Some [("dependencies", JsonMap [("b", "^1.0.0")])]) |}.

Definition siblingRequirements : file :=
  {| path := "requirements.txt"; content := python "flask==1.0.0" |}.

(** The names [checkDependencies] reports. *)
Definition reportedNames (r : result (list depInfo)) : option (list string) :=
  match r with
  | Returned deps => Some (map name deps)
  | Throws _ => None
  end.

(** Example updates. *)
Definition flaskUpdate : depInfo :=
  {| name := "flask"; currentVersion := "==1.0.0"; latestVersion := "1.2.0";
     type := dependency; updateType := minor;
     securityCheck := Some {| safe := true; details := "SAFE" |} |}.

Definition requestsUpdate : depInfo :=
  {| name := "requests"; currentVersion := ">=2.0.0"; latestVersion := "3.0.0";
     type := dependency; updateType := major;
     securityCheck := Some {| safe := true; details := "SAFE" |} |}.

(** An update whose latest version begins with an operator character. *)
Definition oddUpdate : depInfo :=
  {| name := "flask"; currentVersion := "==1.0.0"; latestVersion := "=2.0";
     type := dependency; updateType := major;
     securityCheck := Some {| safe := true; details := "SAFE" |} |}.

(** A requirement with a second bound and a comment after the version. *)
Definition boundedRequirements : file :=
  {| path := "requirements.txt";
     content := python (lines ["requests>=2.0.0,<4.0.0  # keep below 4";
                               "flask==1.0.0"]) |}.

(** A host that refuses to create a branch that exists, and is
    [exampleWorld] otherwise. *)
Definition sameRef (repo ref : string) (e : event) : bool :=
  match e with
  | CreateRef r b _ => String.eqb r repo && String.eqb b ref
  | _ => false
  end.

Definition strictWorld : World := {|
  getLatestNpmVersion := getLatestNpmVersion exampleWorld;
  getLatestPypiVersion := getLatestPypiVersion exampleWorld;
  messages_create := messages_create exampleWorld;
  getDefaultBranch := getDefaultBranch exampleWorld;
  getRef := getRef exampleWorld;
  accepts := fun log e =>
    match e with
    | CreateRef repo ref _ => negb (existsb (sameRef repo ref) log)
    | _ => true
    end;
  today := today exampleWorld
|}.

(** The same host on a night when the day changes once the first pull
    request is open. *)
Definition midnightWorld : World := {|
  getLatestNpmVersion := getLatestNpmVersion exampleWorld;
  getLatestPypiVersion := getLatestPypiVersion exampleWorld;
  messages_create := messages_create exampleWorld;
  getDefaultBranch := getDefaultBranch exampleWorld;
  getRef := getRef exampleWorld;
  accepts := accepts strictWorld;
  today := fun log => if existsb isCreatePull log then "2025-01-16" else "2025-01-15"
|}.

(** A repository with both manifests, each with an update to offer. *)
Definition bothManifests : repository :=
  {| full_name := "acme/demo";
     package_json := Some (Some [("dependencies", JsonMap [("a", "^1.2.0")])]);
     requirements_txt := Some "flask==1.0.0" |}.

(** A repository whose [package.json] does not parse. *)
Definition brokenPackage : repository :=
  {| full_name := "acme/demo";
     package_json := Some None;
     requirements_txt := Some "flask==1.0.0" |}.

(** An answer of the oracle in the layout the prompt asks for. *)
Definition nl : string := String newline EmptyString.

Definition sampleAnswer : string :=
  "Analysis of requests." ++ nl ++
  "1. CURRENT VERSION VULNERABILITIES:" ++ nl ++
  "   - CVE-2023-32681 (Medium severity): leaks Proxy-Authorization headers. See https://nvd.nist.gov/vuln/detail/CVE-2023-32681" ++ nl ++
  "   - cve-2018-18074: High. credentials sent over http. https://example.org/a" ++ nl ++
  nl ++
  "2. NEW VERSION VULNERABILITIES:" ++ nl ++
  "   No known vulnerabilities." ++ nl ++
  "3. SECURITY IMPROVEMENT:   " ++ nl ++
  "4. OVERALL ASSESSMENT: SAFE" ++ nl.

(** A package declared in both sections. *)
Definition twiceDeclared : packageJson :=
  [("dependencies", JsonMap [("a", "^1.2.0")]);
   ("devDependencies", JsonMap [("a", "~1.0.0")])].

(** A hosting API that knows [acme/demo], and lists it beside an archived
    and an excluded repository. *)
Definition demoListing : listing :=
  {| archived := false; owner_login := "acme"; repo_name := "demo";
     data := exampleRepository |}.

Definition atticListing : listing :=
  {| archived := true; owner_login := "acme"; repo_name := "attic";
     data := {| full_name := "acme/attic"; package_json := None;
                requirements_txt := Some "flask==1.0.0" |} |}.

Definition vendorListing : listing :=
  {| archived := false; owner_login := "acme"; repo_name := "vendor";
     data := {| full_name := "acme/vendor"; package_json := None;
                requirements_txt := Some "flask==1.0.0" |} |}.

Definition exampleOctokit : Octokit := {|
  repos_get := fun owner repo =>
    if String.eqb owner "acme" && String.eqb repo "demo" then Returned demoListing
    else if String.eqb owner "acme" && String.eqb repo "attic" then Returned atticListing
    else Throws (ApiError "Not Found");
  listReposAccessibleToInstallation := Returned [atticListing; demoListing; vendorListing]
|}.

(** An environment with every variable set, and the path of the one
    address the examples parse. *)
Definition exampleEnv (envVar : string) : option string := Some "set".

Definition examplePathname (input : string) : result string :=
  if String.eqb input "https://github.com/acme/demo" then Returned "/acme/demo"
  else Throws (TypeError "Invalid URL").

(** A package with one entry in each section. *)
Definition onceDeclared : packageJson :=
  [("dependencies", JsonMap [("a", "^1.2.0")]);
   ("devDependencies", JsonMap [("b", "~1.0.0")])].

(** The environment of a scheduled run that excludes [acme/vendor]. *)
Definition scheduledEnv (envVar : string) : option string :=
  if String.eqb envVar "EXCLUDED_REPOS" then Some "acme/old,acme/vendor"
  else if String.eqb envVar "DRY_RUN" then None
  else Some "set".

(** A package pinned twice in a requirements file, once for each range
    of interpreter versions; the registry knows one latest version, and
    the oracle finds the update safe from [1.0.0] and not from [1.5.0]. *)
Definition pinnedWorld : World := {|
  getLatestNpmVersion := fun _ => None;
  getLatestPypiVersion := fun depName =>
    if String.eqb depName "numpy" then Some "2.0.0" else None;
  messages_create := fun _ currentVersion _ _ =>
    if String.eqb currentVersion "1.0.0"
    then Returned (Some "No known vulnerabilities. Recommendation: SAFE")
    else Returned (Some "CVE-2021-41495 affects this upgrade. Recommendation: UNSAFE");
  getDefaultBranch := fun _ => Returned "main";
  getRef := fun _ _ => Returned "3f2a9c1";
  accepts := fun _ _ => true;
  today := fun _ => "2025-01-15"
|}.

Definition pinnedRequirements : file :=
  {| path := "requirements.txt";
     content := python (lines ["numpy==1.0.0; python_version < '3.8'";
                               "numpy==1.5.0; python_version >= '3.8'"]) |}.

Definition pinnedTwice : repository :=
  {| full_name := "acme/matrix";
     package_json := None;
     requirements_txt := Some (lines ["numpy==1.0.0; python_version < '3.8'";
                                      "numpy==1.5.0; python_version >= '3.8'"]) |}.

Definition pinnedSafe : depInfo :=
  {| name := "numpy"; currentVersion := "==1.0.0"; latestVersion := "2.0.0";
     type := dependency; updateType := major;
     securityCheck :=
       Some {| safe := true;
               details := "No known vulnerabilities. Recommendation: SAFE" |} |}.

Definition pinnedUnsafe : depInfo :=
  {| name := "numpy"; currentVersion := "==1.5.0"; latestVersion := "2.0.0";
     type := dependency; updateType := major;
     securityCheck :=
       Some {| safe := false;
               details := "CVE-2021-41495 affects this upgrade. Recommendation: UNSAFE" |} |}.

(** A repository with both manifests: a safe update in [package.json], a
    safe and an unsafe one in [requirements.txt]. *)
Definition mixedRepository : repository :=
  {| full_name := "acme/demo";
     package_json := Some (Some [("dependencies", JsonMap [("a", "^1.2.0")])]);
     requirements_txt := Some (lines ["flask==1.0.0"; "requests>=2.0.0"]) |}.

(** An answer that denies safety and names an advisory, and an oracle
    that gives it for every package. *)
Definition deniedAnswer : string := "This update is not safe: CVE-2020-1234.".

Definition deniedWorld : World := {|
  getLatestNpmVersion := getLatestNpmVersion exampleWorld;
  getLatestPypiVersion := getLatestPypiVersion exampleWorld;
  messages_create := fun _ _ _ _ => Returned (Some deniedAnswer);
  getDefaultBranch := getDefaultBranch exampleWorld;
  getRef := getRef exampleWorld;
  accepts := accepts exampleWorld;
  today := today exampleWorld
|}.

Definition flaskRepository : repository :=
  {| full_name := "acme/demo";
     package_json := None;
     requirements_txt := Some "flask==1.0.0" |}.

Definition deniedUpdate : depInfo :=
  {| name := "flask"; currentVersion := "==1.0.0"; latestVersion := "1.2.0";
     type := dependency; updateType := minor;
     securityCheck := Some {| safe := true; details := deniedAnswer |} |}.

(** A package whose entry in [dependencies] is a git locator, declared
    again with a version range in [devDependencies]; and a package taken
    from a Bitbucket repository. *)
Definition shadowedLocator : packageJson :=
  [("dependencies", JsonMap [("a", "git+https://github.com/acme/a.git")]);
   ("devDependencies", JsonMap [("a", "^1.0.0")])].

Definition bitbucketPackage : packageJson :=
  [("dependencies", JsonMap [("a", "bitbucket:acme/a#v1.0.0")])].

Definition shadowedRepository : repository :=
  {| full_name := "acme/demo";
     package_json := Some (Some shadowedLocator);
     requirements_txt := None |}.

Definition shadowedUpdate : depInfo :=
  {| name := "a"; currentVersion := "^1.0.0"; latestVersion := "1.3.0";
     type := dependency; updateType := minor;
     securityCheck :=
       Some {| safe := true;
               details := "No known vulnerabilities. Recommendation: SAFE" |} |}.

Definition bitbucketUpdate : depInfo :=
  {| name := "a"; currentVersion := "bitbucket:acme/a#v1.0.0"; latestVersion := "1.3.0";
     type := dependency; updateType := minor;
     securityCheck :=
       Some {| safe := true;
               details := "No known vulnerabilities. Recommendation: SAFE" |} |}.

(** A repository whose [package.json] has a well-formed entry before one
    that does not normalise to a triple. *)
Definition lateFailure : repository :=
  {| full_name := "acme/demo";
     package_json := Some (Some [("dependencies",
                                  JsonMap [("b", "^1.0.0"); ("a", "^1.2")])]);
     requirements_txt := Some "flask==1.0.0" |}.

(* ================================================================== *)
(** * Properties *)
(* ================================================================== *)

(** ** Numbers and numerals *)

Lemma size_le_53 (n : N) : (n < 2 ^ 53)%N -> (N.size n <= 53)%N.
Proof.
  intros H.
  destruct (N.eq_dec n 0) as [->|Hn]; [cbn; lia|].
  rewrite N.size_log2 by assumption.
  assert (Hl : (2 ^ N.log2 n <= n)%N) by (apply N.log2_spec; lia).
  assert (Hlt : (2 ^ N.log2 n < 2 ^ 53)%N) by lia.
  apply N.pow_lt_mono_r_iff in Hlt; lia.
Qed.

Lemma roundToDouble_exact (n : N) : (n < 2 ^ 53)%N -> JS.roundToDouble n = JS.Fin n.
Proof.
  intros H. unfold JS.roundToDouble.
  apply size_le_53 in H. apply N.leb_le in H. now rewrite H.
Qed.

(** Beyond 53 bits, rounding never goes below [2^53]. *)
Lemma roundToDouble_large (n m : N) :
  (53 < N.size n)%N -> JS.roundToDouble n = JS.Fin m -> (2 ^ 53 <= m)%N.
Proof.
  intros Hs. unfold JS.roundToDouble.
  destruct (N.leb_spec (N.size n) 53) as [Hle|_]; [lia|].
  set (k := (N.size n - 53)%N).
  set (q := N.shiftr n k).
  match goal with |- context [if ?c then (q + 1)%N else q] => set (up := c) end.
  set (q' := if up then (q + 1)%N else q).
  destruct (N.leb_spec (N.shiftl 1 1024) (N.shiftl q' k)); [discriminate|].
  intros [= <-].
  assert (Hn : n <> 0%N) by (intros ->; cbn in Hs; lia).
  assert (Hk : (1 <= k)%N) by (unfold k; lia).
  assert (Hlog : N.log2 n = (52 + k)%N).
  { unfold k. rewrite N.size_log2 in Hs |- * by assumption. lia. }
  assert (Hl : (2 ^ N.log2 n <= n)%N) by (apply N.log2_spec; lia).
  rewrite Hlog, N.pow_add_r in Hl.
  assert (Hq : (2 ^ 52 <= q)%N).
  { unfold q. rewrite N.shiftr_div_pow2.
    apply N.div_le_lower_bound.
    - apply N.pow_nonzero. lia.
    - lia. }
  assert (Hq' : (2 ^ 52 <= q')%N) by (unfold q'; destruct up; lia).
  rewrite N.shiftl_mul_pow2.
  assert (Hp : (2 ^ 1 <= 2 ^ k)%N) by (apply N.pow_le_mono_r; lia).
  change (2 ^ 53)%N with (2 ^ 52 * 2 ^ 1)%N.
  apply N.mul_le_mono; assumption.
Qed.

Lemma readsBackAs_exact (m c : N) :
  (m < 2 ^ 53)%N -> JS.readsBackAs m c = true -> c = m.
Proof.
  intros Hm. unfold JS.readsBackAs.
  destruct (JS.roundToDouble c) as [m'| |] eqn:E; try discriminate.
  intros H. apply N.eqb_eq in H. subst m'.
  destruct (N.leb_spec (N.size c) 53) as [Hle|Hgt].
  - unfold JS.roundToDouble in E. apply N.leb_le in Hle. rewrite Hle in E.
    now injection E.
  - apply roundToDouble_large in E; [lia|assumption].
Qed.

Lemma shortestFrom_exact (fuel : nat) (m n k : N) :
  (m < 2 ^ 53)%N -> JS.shortestFrom fuel m n k = m.
Proof.
  intros Hm. revert k.
  induction fuel as [|fuel IH]; intros k; cbn [JS.shortestFrom]; [reflexivity|].
  cbv zeta.
  destruct (JS.readsBackAs m (m / 10 ^ (n - k) * 10 ^ (n - k))) eqn:Elo;
    destruct (JS.readsBackAs m (m / 10 ^ (n - k) * 10 ^ (n - k) + 10 ^ (n - k))) eqn:Ehi;
    try (apply readsBackAs_exact in Elo; [|assumption]);
    try (apply readsBackAs_exact in Ehi; [|assumption]);
    try apply IH.
  - repeat match goal with |- context [if ?c then _ else _] => destruct c end;
      assumption.
  - assumption.
  - assumption.
Qed.

(** Below [2^53] a number prints as its decimal numeral. *)
Lemma toString_exact (m : N) : (m < 2 ^ 53)%N -> JS.toString (JS.Fin m) = JS.decimal m.
Proof.
  intros Hm. unfold JS.toString, JS.shortest.
  rewrite shortestFrom_exact by assumption.
  assert (H : (m <? 10 ^ 21)%N = true).
  { apply N.ltb_lt. eapply N.lt_trans; [exact Hm|]. now vm_compute. }
  now rewrite H.
Qed.

(** ** Strings *)

Lemma startsWith_char (c a : ascii) (rest : string) :
  JS.startsWith (String c rest) (String a EmptyString) = Ascii.eqb c a.
Proof.
  unfold JS.startsWith. cbn.
  destruct (ascii_dec a c) as [->|Hne].
  - rewrite Ascii.eqb_refl. now destruct rest.
  - symmetry. apply Ascii.eqb_neq. congruence.
Qed.

Lemma span_all (p : ascii -> bool) (s : string) :
  JS.allChars p s = true -> JS.span p s = (s, EmptyString).
Proof.
  induction s as [|c s IH]; cbn; [reflexivity|].
  intros H. apply andb_true_iff in H as [Hc Hs].
  now rewrite Hc, (IH Hs).
Qed.

Lemma keep_allChars (p : ascii -> bool) (s : string) :
  JS.allChars p (JS.keep p s) = true.
Proof.
  induction s as [|c s IH]; cbn; [reflexivity|].
  destruct (p c) eqn:E; cbn; [now rewrite E|assumption].
Qed.

Lemma split_nonempty (sep : ascii) (s : string) : JS.split sep s <> [].
Proof.
  destruct s as [|c s]; cbn; [discriminate|].
  destruct (Ascii.eqb c sep); [discriminate|].
  destruct (JS.split sep s); discriminate.
Qed.

(** The pieces between dots of a string of digits and dots are strings
    of digits. *)
Lemma split_digits (s : string) :
  JS.allChars isVersionChar s = true ->
  Forall (fun part => JS.allChars JS.isDigit part = true) (JS.split "." s).
Proof.
  induction s as [|c s IH]; cbn [JS.split JS.allChars].
  - intros _. now constructor.
  - intros H. apply andb_true_iff in H as [Hc Hs].
    specialize (IH Hs).
    destruct (Ascii.eqb c ".") eqn:Edot.
    + constructor; [reflexivity|assumption].
    + destruct (JS.split "." s) as [|part parts] eqn:Esplit.
      * now apply split_nonempty in Esplit.
      * inversion IH as [|? ? Hpart Hparts]; subst.
        constructor; [|assumption].
        cbn. rewrite Hpart, andb_true_r.
        unfold isVersionChar, JS.isDot in Hc. rewrite Edot, orb_false_r in Hc.
        exact Hc.
Qed.

Lemma components_digits (v : string) :
  Forall (fun part => JS.allChars JS.isDigit part = true) (components v).
Proof. apply split_digits, keep_allChars. Qed.

Lemma isDigit_uint_of_char (c : ascii) (d : Decimal.uint) :
  JS.isDigit c = true -> exists d', uint_of_char c (Some d) = Some d'.
Proof.
  destruct c as [[|] [|] [|] [|] [|] [|] [|] [|]]; cbn; intros H;
    try discriminate; eexists; reflexivity.
Qed.

Lemma digits_uint_of_string (s : string) :
  JS.allChars JS.isDigit s = true -> exists d, NilEmpty.uint_of_string s = Some d.
Proof.
  induction s as [|c s IH]; cbn [JS.allChars NilEmpty.uint_of_string].
  - intros _. now exists Decimal.Nil.
  - intros H. apply andb_true_iff in H as [Hc Hs].
    destruct (IH Hs) as [d ->]. now apply isDigit_uint_of_char.
Qed.

(** The numeral of the value of a digit string is the string without
    its leading zeros. *)
Lemma unorm_dropLeadingZeros (s : string) (d : Decimal.uint) :
  s <> EmptyString -> NilEmpty.uint_of_string s = Some d ->
  NilEmpty.string_of_uint (Decimal.unorm d) = dropLeadingZeros s.
Proof.
  revert d. induction s as [|c s IH]; [congruence|].
  intros d _. cbn [NilEmpty.uint_of_string].
  destruct (NilEmpty.uint_of_string s) as [d'|] eqn:Es; [|discriminate].
  intros H. pose proof (NilEmpty.sus _ _ Es) as Hs.
  apply uint_of_char_spec in H.
  destruct H as [[-> ->]|H].
  - rewrite DecimalFacts.unorm_D0. cbn [dropLeadingZeros]. rewrite Ascii.eqb_refl.
    destruct s as [|c' s'].
    + cbn in Es. injection Es as <-. reflexivity.
    + apply IH; [discriminate|reflexivity].
  - repeat destruct H as [[-> ->]|H]; try destruct H as [-> ->];
      cbn; now rewrite Hs.
Qed.

Lemma decimal_digitsValue (s : string) (n : N) :
  JS.digitsValue s = Some n -> JS.decimal n = dropLeadingZeros s.
Proof.
  unfold JS.digitsValue, JS.decimal.
  destruct s as [|c s]; [discriminate|].
  destruct (NilEmpty.uint_of_string (String c s)) as [d|] eqn:E; [|discriminate].
  cbn [option_map]. intros [= <-].
  rewrite DecimalN.Unsigned.to_of.
  apply unorm_dropLeadingZeros; [discriminate|exact E].
Qed.

Lemma digitsValue_digits (s : string) :
  s <> EmptyString -> JS.allChars JS.isDigit s = true ->
  exists n, JS.digitsValue s = Some n.
Proof.
  intros Hne Hd. destruct (digits_uint_of_string s Hd) as [d Hd'].
  unfold JS.digitsValue. destruct s; [congruence|].
  rewrite Hd'. now eexists.
Qed.

(** Reparsing an exact component as an integer and printing it again
    drops its leading zeros. *)
Lemma reparse_dropLeadingZeros (part : string) :
  part <> EmptyString -> JS.allChars JS.isDigit part = true ->
  exactPart part = true ->
  JS.toString (JS.parseInt part) = dropLeadingZeros part.
Proof.
  intros Hne Hd Hex.
  destruct (digitsValue_digits part Hne Hd) as [n Hn].
  unfold JS.parseInt. rewrite (span_all _ _ Hd). cbn [fst]. rewrite Hn.
  unfold exactPart in Hex. rewrite Hn in Hex. apply N.ltb_lt in Hex.
  rewrite roundToDouble_exact, toString_exact by assumption.
  now apply decimal_digitsValue.
Qed.

(** Splitting undoes joining when no piece holds the separator. *)
Lemma split_lacks (sep : ascii) (s : string) :
  lacks sep s = true -> JS.split sep s = [s].
Proof.
  unfold lacks. induction s as [|c s IH]; cbn; [reflexivity|].
  intros H. apply andb_true_iff in H as [Hc Hs].
  apply negb_true_iff in Hc. rewrite Hc, (IH Hs). reflexivity.
Qed.

Lemma split_app (sep : ascii) (s rest : string) :
  lacks sep s = true ->
  JS.split sep (s ++ String sep rest) = s :: JS.split sep rest.
Proof.
  unfold lacks. induction s as [|c s IH]; cbn.
  - intros _. now rewrite Ascii.eqb_refl.
  - intros H. apply andb_true_iff in H as [Hc Hs].
    apply negb_true_iff in Hc. rewrite Hc, (IH Hs). reflexivity.
Qed.

Lemma split_join (sep : ascii) (parts : list string) :
  parts <> [] -> Forall (fun part => lacks sep part = true) parts ->
  JS.split sep (JS.join (String sep EmptyString) parts) = parts.
Proof.
  induction parts as [|p ps IH]; [congruence|].
  intros _ H. inversion H as [|? ? Hp Hps]; subst.
  destruct ps as [|q qs].
  - cbn. now apply split_lacks.
  - cbn [JS.join]. cbn [append]. rewrite split_app by assumption.
    f_equal. apply IH; [discriminate|assumption].
Qed.

Lemma split_lacks_each (sep : ascii) (s : string) :
  Forall (fun part => lacks sep part = true) (JS.split sep s).
Proof.
  unfold lacks. induction s as [|c s IH]; cbn [JS.split].
  - now constructor.
  - destruct (Ascii.eqb c sep) eqn:E.
    + constructor; [reflexivity|assumption].
    + destruct (JS.split sep s) as [|part parts] eqn:Es.
      * now apply split_nonempty in Es.
      * inversion IH; subst. constructor; [|assumption].
        cbn. now rewrite E.
Qed.

Lemma allChars_impl (p q : ascii -> bool) (s : string) :
  (forall c, p c = true -> q c = true) ->
  JS.allChars p s = true -> JS.allChars q s = true.
Proof.
  intros Hpq. induction s as [|c s IH]; cbn; [reflexivity|].
  intros H. apply andb_true_iff in H as [Hc Hs].
  now rewrite (Hpq c Hc), (IH Hs).
Qed.

Lemma allChars_app (p : ascii -> bool) (s t : string) :
  JS.allChars p (s ++ t) = JS.allChars p s && JS.allChars p t.
Proof.
  induction s as [|c s IH]; cbn; [reflexivity|].
  now rewrite IH, andb_assoc.
Qed.

(** ** Version normalisation *)

Lemma map_ext_Forall {A B} (f g : A -> B) (l : list A) :
  Forall (fun x => f x = g x) l -> map f l = map g l.
Proof. induction 1; cbn; congruence. Qed.

Lemma dropLeadingZeros_short (part : string) :
  Nat.ltb 1 (String.length part) && JS.startsWith part "0" = false ->
  dropLeadingZeros part = part.
Proof.
  destruct part as [|c rest]; [reflexivity|].
  rewrite startsWith_char. cbn [dropLeadingZeros].
  destruct (Ascii.eqb c "0"); [|reflexivity].
  destruct rest; [reflexivity|]. cbn. discriminate.
Qed.

Lemma sanitize_part (part : string) :
  JS.allChars JS.isDigit part = true -> exactPart part = true ->
  (if Nat.ltb 1 (String.length part) && JS.startsWith part "0"
   then JS.toString (JS.parseInt part) else part) = dropLeadingZeros part.
Proof.
  intros Hd Hex.
  destruct (Nat.ltb 1 (String.length part) && JS.startsWith part "0") eqn:E.
  - apply reparse_dropLeadingZeros; try assumption.
    intros ->. discriminate.
  - symmetry. now apply dropLeadingZeros_short.
Qed.

Lemma truthy_nonempty (v : string) : v <> EmptyString -> JS.truthy (Some v) = true.
Proof. destruct v; [congruence|reflexivity]. Qed.

Lemma sanitizeVersion_components (v : string) :
  v <> EmptyString -> forallb exactPart (components v) = true ->
  sanitizeVersion (Some v)
  = Some (JS.join "." (map dropLeadingZeros (components v))).
Proof.
  intros Hv Hex. unfold sanitizeVersion.
  rewrite (truthy_nonempty v Hv). cbn [negb].
  f_equal. f_equal. apply map_ext_Forall.
  rewrite forallb_forall in Hex.
  pose proof (components_digits v) as Hd. rewrite Forall_forall in Hd.
  apply Forall_forall. intros part Hin.
  apply sanitize_part; auto.
Qed.

Lemma keep_nonempty_of_components (v : string) :
  forallb nonEmptyPart (components v) = true ->
  JS.keep isVersionChar v <> EmptyString.
Proof.
  unfold components. intros H E. rewrite E in H. discriminate.
Qed.

Lemma makeVersionSemverCompatible_components (v : string) :
  v <> EmptyString -> forallb exactPart (components v) = true ->
  forallb nonEmptyPart (components v) = true ->
  makeVersionSemverCompatible (Some v) = normalizeSpec v.
Proof.
  intros Hv Hex Hne. unfold makeVersionSemverCompatible, normalizeSpec.
  rewrite (truthy_nonempty v Hv). cbn [negb].
  pose proof (keep_nonempty_of_components v Hne) as Hk.
  destruct (JS.keep isVersionChar v) eqn:Ek; [congruence|].
  rewrite <- Ek. fold (components v).
  f_equal. f_equal. apply map_ext_Forall.
  rewrite forallb_forall in Hex, Hne.
  pose proof (components_digits v) as Hd. rewrite Forall_forall in Hd.
  apply Forall_forall. intros part Hin.
  apply reparse_dropLeadingZeros; auto.
  specialize (Hne part Hin). intros ->. discriminate.
Qed.

Lemma dropLeadingZeros_digits (part : string) :
  JS.allChars JS.isDigit part = true ->
  JS.allChars JS.isDigit (dropLeadingZeros part) = true.
Proof.
  induction part as [|c rest IH]; [reflexivity|].
  intros H. cbn [dropLeadingZeros].
  destruct (Ascii.eqb c "0"); [|exact H].
  destruct rest; [exact H|].
  apply IH. cbn in H. apply andb_true_iff in H. tauto.
Qed.

Lemma digit_not_dot (c : ascii) :
  JS.isDigit c = true -> negb (Ascii.eqb c ".") = true.
Proof.
  destruct (Ascii.eqb_spec c ".") as [->|]; [discriminate|reflexivity].
Qed.

Lemma padTo3_length {A} (x : A) (l : list A) : 3 <= List.length (padTo3 x l).
Proof.
  unfold padTo3. rewrite length_app, repeat_length. lia.
Qed.

Lemma makeVersionSemverCompatible_length (v : string) :
  v <> EmptyString -> forallb exactPart (components v) = true ->
  forallb nonEmptyPart (components v) = true ->
  3 <= List.length (JS.split "." (makeVersionSemverCompatible (Some v))).
Proof.
  intros Hv Hex Hne.
  rewrite makeVersionSemverCompatible_components by assumption.
  unfold normalizeSpec.
  destruct (JS.keep isVersionChar v) eqn:Ek.
  - now apply keep_nonempty_of_components in Hne.
  - rewrite split_join.
    + apply padTo3_length.
    + intros E. pose proof (padTo3_length "0" (map dropLeadingZeros (components v))) as L.
      rewrite E in L. cbn in L. lia.
    + unfold padTo3. apply Forall_app. split.
      * apply Forall_map. eapply Forall_impl; [|apply components_digits].
        intros part Hd. cbn beta in *.
        apply (allChars_impl JS.isDigit); [apply digit_not_dot|].
        now apply dropLeadingZeros_digits.
      * apply Forall_forall. intros part Hin. apply repeat_spec in Hin. now subst.
Qed.

(** C4, as stated, fails: [sanitizeVersion] does not pad ("1.2" stays
    "1.2" where the stated normal form is "1.2.0") and has no "0.0.0"
    case, and [makeVersionSemverCompatible] turns a string without any
    digit into "NaN.0.0" and keeps a fourth component. *)
Lemma normalisation_counterexample :
  sanitizeVersion (Some "1.2") = Some "1.2"
  /\ normalizeSpec "1.2" = "1.2.0"
  /\ sanitizeVersion (Some "abc") = Some ""
  /\ makeVersionSemverCompatible (Some "abc") = "NaN.0.0"
  /\ normalizeSpec "abc" = "0.0.0"
  /\ makeVersionSemverCompatible (Some "1.2.3.4") = "1.2.3.4".
Proof. repeat split; vm_compute; reflexivity. Qed.

(** C4, amended.  Both functions strip every character that is not a
    digit or a dot and drop the leading zeros of each component (a lone
    [0] is kept), provided each component is a number below [2^53].
    [sanitizeVersion] stops there: it does not pad, and it returns an
    empty or missing version unchanged.  [makeVersionSemverCompatible],
    when no component is empty, agrees with the stated normal form
    (padding with ["0"] to at least three components), and it answers
    ["0.0.0"] to an empty or missing version. *)
Theorem normalisation_amended :
  (forall v : string,
      v <> EmptyString -> forallb exactPart (components v) = true ->
      sanitizeVersion (Some v)
      = Some (JS.join "." (map dropLeadingZeros (components v)))
      /\ (forallb nonEmptyPart (components v) = true ->
          makeVersionSemverCompatible (Some v) = normalizeSpec v
          /\ 3 <= List.length (JS.split "." (makeVersionSemverCompatible (Some v)))))
  /\ sanitizeVersion None = None
  /\ sanitizeVersion (Some "") = Some ""
  /\ makeVersionSemverCompatible None = "0.0.0"
  /\ makeVersionSemverCompatible (Some "") = "0.0.0".
Proof.
  split; [|repeat split].
  intros v Hv Hex. split.
  - now apply sanitizeVersion_components.
  - intros Hne. split.
    + now apply makeVersionSemverCompatible_components.
    + now apply makeVersionSemverCompatible_length.
Qed.

Lemma normalisation_amended_witness :
  sanitizeVersion (Some "^1.02.3") = Some "1.2.3"
  /\ makeVersionSemverCompatible (Some ">=01.2") = "1.2.0".
Proof.
  destruct (proj1 normalisation_amended "^1.02.3") as [Hs _];
    [discriminate|reflexivity|].
  destruct (proj1 normalisation_amended ">=01.2") as [_ Hm];
    [discriminate|reflexivity|].
  destruct (Hm eq_refl) as [Hm' _].
  split; [exact Hs|exact Hm'].
Defined.

(** ** Update classification *)

Lemma numericIdentifier_Number (s : string) (x : N) :
  semver.numericIdentifier s = Some x -> JS.Number s = JS.Fin x.
Proof.
  unfold semver.numericIdentifier.
  destruct s as [|c rest]; [discriminate|].
  destruct (JS.allChars JS.isDigit (String c rest)) eqn:Hd; [|discriminate].
  cbn [andb].
  destruct (negb (Ascii.eqb c "0") || String.eqb rest EmptyString); [|discriminate].
  destruct (JS.digitsValue (String c rest)) as [v|] eqn:Hv; [|discriminate].
  destruct (N.leb_spec v semver.MAX_SAFE_INTEGER) as [Hle|]; [|discriminate].
  intros [= <-].
  unfold JS.Number. rewrite (span_all _ _ Hd), Hv.
  apply roundToDouble_exact.
  unfold semver.MAX_SAFE_INTEGER in Hle.
  assert ((2 ^ 53 - 1 < 2 ^ 53)%N) by now vm_compute. lia.
Qed.

Lemma parse_Some (v : option string) (t : N * N * N) :
  semver.parse v = Some t ->
  exists s a b c,
    v = Some s /\ JS.split "." s = [a; b; c]
    /\ semver.numericIdentifier a = Some (fst (fst t))
    /\ semver.numericIdentifier b = Some (snd (fst t))
    /\ semver.numericIdentifier c = Some (snd t).
Proof.
  unfold semver.parse. destruct v as [s|]; [|discriminate].
  destruct (JS.split "." s) as [|a [|b [|c [|? ?]]]] eqn:E; try discriminate.
  destruct (semver.numericIdentifier a) as [x|] eqn:Ea; [|discriminate].
  destruct (semver.numericIdentifier b) as [y|] eqn:Eb; [|discriminate].
  destruct (semver.numericIdentifier c) as [z|] eqn:Ec; [|discriminate].
  intros [= <-]. exists s, a, b, c. cbn. repeat split; assumption.
Qed.

Lemma sanitizeVersion_Some (v : string) : exists s, sanitizeVersion (Some v) = Some s.
Proof.
  unfold sanitizeVersion. destruct (negb (JS.truthy (Some v))); eexists; reflexivity.
Qed.

Lemma getUpdateType_classify (current latest : string) :
  getUpdateType (Some current) (Some latest) = classify current latest.
Proof.
  unfold getUpdateType, getUpdateType_try, classify, majorOf, minorOf, numericParts.
  destruct (sanitizeVersion_Some current) as [sc Hc].
  destruct (sanitizeVersion_Some latest) as [sl Hl].
  rewrite Hc, Hl.
  destruct (semver.valid (Some sc) && semver.valid (Some sl)) eqn:Hvalid.
  - apply andb_true_iff in Hvalid as [Vc Vl].
    unfold semver.valid in Vc, Vl. unfold semver.major, semver.minor.
    destruct (semver.parse (Some sc)) as [[[x y] z]|] eqn:Pc; [|discriminate].
    destruct (semver.parse (Some sl)) as [[[x' y'] z']|] eqn:Pl; [|discriminate].
    apply parse_Some in Pc as (s1 & a & b & c & E1 & S1 & Ha & Hb & Hcc).
    apply parse_Some in Pl as (s2 & a' & b' & c' & E2 & S2 & Ha' & Hb' & Hcc').
    injection E1 as <-. injection E2 as <-. cbn [fst snd] in *.
    rewrite S1, S2. cbn [map padTo3 List.length Nat.sub repeat app nth].
    rewrite (numericIdentifier_Number _ _ Ha), (numericIdentifier_Number _ _ Ha'),
      (numericIdentifier_Number _ _ Hb), (numericIdentifier_Number _ _ Hb').
    cbn [bind JS.gt].
    destruct (x <? x')%N; [reflexivity|].
    cbn [bind]. destruct (y <? y')%N; reflexivity.
  - cbn [splitDots bind].
    repeat match goal with |- context [if ?c then _ else _] => destruct c end;
      reflexivity.
Qed.

Lemma classify_known (current latest : string) : classify current latest <> unknown.
Proof.
  unfold classify.
  repeat match goal with |- context [if ?c then _ else _] => destruct c end;
    discriminate.
Qed.

Lemma getUpdateType_unknown (current latest : option string) :
  getUpdateType current latest = unknown <-> current = None \/ latest = None.
Proof.
  destruct current as [c|], latest as [l|].
  - rewrite getUpdateType_classify. split.
    + intros H. now apply classify_known in H.
    + intros [H|H]; discriminate.
  - split; [now right|]. intros _.
    unfold getUpdateType, getUpdateType_try.
    destruct (sanitizeVersion_Some c) as [sc ->].
    cbn [sanitizeVersion JS.truthy negb semver.valid semver.parse andb].
    rewrite andb_false_r. reflexivity.
  - split; [now left|]. intros _. reflexivity.
  - split; [now left|]. intros _. reflexivity.
Qed.

(** ** The security check never throws *)

Lemma checkVulnerability_run (w : World) (p c n e : string) (log : list event) :
  checkVulnerability w p c n e log
  = ((log ++ [SecurityQuery p c n e])%list, Returned (verdictOf w p c n e)).
Proof.
  unfold checkVulnerability, verdictOf, tryCatch, ebind, emit, lift, ret.
  destruct (messages_create w p c n e) as [[text|]|err]; reflexivity.
Qed.

Lemma pushDepInfo_run (w : World) (dryRun : bool)
    (depName declared bare latest : string) (kind : depType) (eco : string)
    (log : list event) :
  pushDepInfo w dryRun depName declared bare latest kind eco log
  = (if dryRun then log else (log ++ [SecurityQuery depName bare latest eco])%list,
     Returned (Some {| name := depName;
                       currentVersion := declared;
                       latestVersion := latest;
                       type := kind;
                       updateType := getUpdateType (Some bare) (Some latest);
                       securityCheck :=
                         if dryRun then None
                         else Some (verdictOf w depName bare latest eco) |})).
Proof.
  unfold pushDepInfo. destruct dryRun; cbn [negb]; [reflexivity|].
  unfold ebind. rewrite checkVulnerability_run. reflexivity.
Qed.

(** ** When a dependency counts as outdated *)

Lemma triple_ltb_lt (a b : N * N * N) : semver.triple_ltb a b = true <-> triple_lt a b.
Proof.
  destruct a as [[a1 a2] a3], b as [[b1 b2] b3]. cbn.
  rewrite !orb_true_iff, !andb_true_iff, !orb_true_iff, !andb_true_iff,
    !N.ltb_lt, !N.eqb_eq. reflexivity.
Qed.

Lemma triple_lt_irrefl (a : N * N * N) : ~ triple_lt a a.
Proof. destruct a as [[a1 a2] a3]. cbn. lia. Qed.

Lemma triple_lt_zero (a : N * N * N) : ~ triple_lt a (0, 0, 0)%N.
Proof. destruct a as [[a1 a2] a3]. cbn. lia. Qed.

Lemma gt_true (a b : option string) :
  semver.gt a b = Returned true <-> strictlyNewer b a.
Proof.
  unfold semver.gt, strictlyNewer.
  destruct (semver.parse a) as [x|], (semver.parse b) as [y|]; split;
    try discriminate; try (intros (c & l & ? & ? & ?); discriminate).
  - intros [= H]. exists y, x. now rewrite <- triple_ltb_lt.
  - intros (c & l & [= <-] & [= <-] & H). f_equal. now apply triple_ltb_lt.
Qed.

Lemma isOutdated_true (latestVersion latest current : option string) :
  isOutdated latestVersion latest current = Returned true
  <-> JS.truthy latestVersion = true /\ strictlyNewer current latest.
Proof.
  unfold isOutdated. destruct (JS.truthy latestVersion).
  - rewrite gt_true. tauto.
  - split; [discriminate|]. intros [? _]. discriminate.
Qed.

Lemma parse_sanitized_truthy (latestVersion : option string) (l : N * N * N) :
  semver.parse (sanitizeVersion latestVersion) = Some l ->
  JS.truthy latestVersion = true.
Proof.
  destruct latestVersion as [[|c s]|]; try reflexivity; discriminate.
Qed.

Lemma truthy_Some (v : option string) :
  JS.truthy v = true -> exists s, v = Some s.
Proof. destruct v; [eexists; reflexivity|discriminate]. Qed.

Lemma checkNpmEntry_yields (w : World) (dryRun : bool) (pkg : packageJson)
    (depName version : string) (log : list event) :
  skippedExpression version = false ->
  yieldsRecord (checkNpmEntry w dryRun pkg (depName, version)) log
  <-> strictlyNewer (sanitizeVersion (Some (JS.keep isVersionChar version)))
                    (sanitizeVersion (getLatestNpmVersion w depName)).
Proof.
  intros Hskip. unfold yieldsRecord, checkNpmEntry. rewrite Hskip.
  unfold ebind, lift.
  set (sc := sanitizeVersion (Some (JS.keep isVersionChar version))).
  set (lv := getLatestNpmVersion w depName).
  destruct (isOutdated lv (sanitizeVersion lv) sc) as [[|]|err] eqn:E.
  - apply isOutdated_true in E as [Ht Hn].
    destruct (truthy_Some _ Ht) as [latest ->].
    rewrite pushDepInfo_run. cbn [snd]. split; [intros _; exact Hn|].
    intros _. eexists. reflexivity.
  - split.
    + intros [a Ha]. destruct lv; discriminate.
    + intros Hn. assert (isOutdated lv (sanitizeVersion lv) sc = Returned true) as E'.
      { apply isOutdated_true. split; [|exact Hn].
        destruct Hn as (c & l & _ & Hl & _). now apply parse_sanitized_truthy in Hl. }
      congruence.
  - split.
    + intros [a Ha]. discriminate.
    + intros Hn. assert (isOutdated lv (sanitizeVersion lv) sc = Returned true) as E'.
      { apply isOutdated_true. split; [|exact Hn].
        destruct Hn as (c & l & _ & Hl & _). now apply parse_sanitized_truthy in Hl. }
      congruence.
Qed.

Lemma compatible_falsy (latestVersion : option string) :
  JS.truthy latestVersion = false ->
  semver.parse (Some (makeVersionSemverCompatible latestVersion)) = Some (0, 0, 0)%N.
Proof.
  intros H. unfold makeVersionSemverCompatible. rewrite H. reflexivity.
Qed.

Lemma checkPythonLine_yields (w : World) (dryRun : bool)
    (line depName operator version : string) (log : list event) :
  skippedLine line = false ->
  matchRequirement line = Some (depName, operator, version) ->
  yieldsRecord (checkPythonLine w dryRun line) log
  <-> strictlyNewer (Some (makeVersionSemverCompatible (Some version)))
                    (Some (makeVersionSemverCompatible (getLatestPypiVersion w depName))).
Proof.
  intros Hskip Hmatch. unfold yieldsRecord, checkPythonLine.
  rewrite Hskip, Hmatch. unfold tryCatch, ebind, lift, throw.
  set (cur := Some (makeVersionSemverCompatible (Some version))).
  set (lv := getLatestPypiVersion w depName).
  assert (Hback : strictlyNewer cur (Some (makeVersionSemverCompatible lv)) ->
                  isOutdated lv (Some (makeVersionSemverCompatible lv)) cur = Returned true).
  { intros Hn. apply isOutdated_true. split; [|exact Hn].
    destruct (JS.truthy lv) eqn:Ht; [reflexivity|].
    destruct Hn as (c & l & _ & Hl & Hlt).
    rewrite (compatible_falsy _ Ht) in Hl. injection Hl as <-.
    now apply triple_lt_zero in Hlt. }
  destruct (isOutdated lv (Some (makeVersionSemverCompatible lv)) cur) as [[|]|err] eqn:E.
  - apply isOutdated_true in E as [Ht Hn].
    destruct (truthy_Some _ Ht) as [latest Hlatest]. rewrite Hlatest in *.
    rewrite pushDepInfo_run. cbn [snd]. split; [intros _; exact Hn|].
    intros _. eexists. reflexivity.
  - split.
    + intros [a Ha]. destruct lv; discriminate.
    + intros Hn. apply Hback in Hn. discriminate.
  - split.
    + intros [a Ha]. discriminate.
    + intros Hn. apply Hback in Hn. discriminate.
Qed.

(** ** The security verdict *)

Lemma includes_prefix (s needle : string) :
  String.prefix needle s = true -> JS.includes s needle = true.
Proof. destruct s; cbn; intros ->; reflexivity. Qed.

Lemma includes_tail (c : ascii) (s needle : string) :
  JS.includes s needle = true -> JS.includes (String c s) needle = true.
Proof. intros H. cbn [JS.includes]. rewrite H. apply orb_true_r. Qed.

Lemma matchesCveAt_prefix (s : string) :
  matchesCveAt s = true -> String.prefix "cve-" (JS.toLowerCase s) = true.
Proof.
  unfold matchesCveAt.
  destruct s as [|c1 [|c2 [|c3 [|c4 [|y1 [|y2 [|y3 [|y4 [|h [|n1 [|n2 [|n3 [|n4 r]]]]]]]]]]]]];
    try discriminate.
  rewrite !andb_true_iff. intros [[[[[[[[[H _] _] _] _] _] _] _] _] _].
  apply String.eqb_eq in H. cbn [JS.toLowerCase] in *.
  injection H as -> -> -> ->. reflexivity.
Qed.

Lemma containsAdvisoryId_cve (text : string) :
  containsAdvisoryId text = true -> JS.includes (JS.toLowerCase text) "cve-" = true.
Proof.
  induction text as [|c s IH]; cbn [containsAdvisoryId].
  - discriminate.
  - intros H. apply orb_true_iff in H as [H|H].
    + apply includes_prefix. now apply matchesCveAt_prefix.
    + cbn [JS.toLowerCase]. apply includes_tail. now apply IH.
Qed.

(** What the parser itself takes for an affirmation: an answer that
    holds an advisory identifier is read as not safe unless it holds
    "safe" and nowhere "unsafe". *)
Lemma advisory_without_safe_word (text : string) :
  containsAdvisoryId text = true -> affirmsSafety text = false ->
  safe (parseSecurityResponse text) = false.
Proof.
  intros Hid Haff. cbn [parseSecurityResponse safe]. unfold isSafe.
  unfold affirmsSafety in Haff. cbv zeta in Haff |- *. rewrite Haff.
  rewrite (containsAdvisoryId_cve text Hid). cbn [negb orb].
  now rewrite andb_false_r.
Qed.

(** C2 does not hold of the code.  The answer "This update is not safe:
    CVE-2020-1234." holds an advisory identifier and no explicit safety
    affirmation: its only "safe" is denied.  The parser reads it as safe,
    because the text holds "safe" and nowhere "unsafe"; with an oracle
    that gives this answer the update is committed, proposed, and listed
    as safe in the report.  The rest of the claim holds: the check always
    returns a verdict, and the verdict is not safe when the oracle throws
    or answers without a text. *)
Theorem denied_safety_read_as_safe :
  containsAdvisoryId deniedAnswer = true
  /\ explicitAffirmation deniedAnswer = false
  /\ safe (parseSecurityResponse deniedAnswer) = true
  /\ checkVulnerability deniedWorld "flask" "1.0.0" "1.2.0" "pypi" []
     = ([SecurityQuery "flask" "1.0.0" "1.2.0" "pypi"],
        Returned {| safe := true; details := deniedAnswer |})
  /\ processRepository deniedWorld false flaskRepository []
     = ([SecurityQuery "flask" "1.0.0" "1.2.0" "pypi";
         CreateRef "acme/demo" "refs/heads/dependency-updates-2025-01-15" "3f2a9c1";
         CreateOrUpdateFileContents "acme/demo" "requirements.txt" (python "flask==1.2.0")
           "dependency-updates-2025-01-15" "Update dependencies in requirements.txt";
         CreatePull "acme/demo" [deniedUpdate]
           (generateContextProtocolPR siblingRequirements [deniedUpdate])
           "dependency-updates-2025-01-15" "main";
         WriteReport "acme/demo"
           {| totalChecked := 1;
              safeUpdates := [deniedUpdate];
              unsafeUpdates := [];
              skippedUpdates := [] |}],
        Returned tt)
  /\ (forall (w : World) (p c n e : string) (log : list event),
         exists verdict,
           checkVulnerability w p c n e log
           = ((log ++ [SecurityQuery p c n e])%list, Returned verdict)
           /\ match messages_create w p c n e with
              | Returned (Some text) => verdict = parseSecurityResponse text
              | _ => safe verdict = false
              end).
Proof.
  repeat split; try (vm_compute; reflexivity).
  intros w p c n e log. rewrite checkVulnerability_run. eexists. split; [reflexivity|].
  unfold verdictOf. destruct (messages_create w p c n e) as [[text|]|err]; reflexivity.
Qed.

(** ** Computations that only append to the log *)

Lemma parametric_ret {A} (a : A) : parametric (ret a).
Proof. intros log. unfold ret. cbn. now rewrite List.app_nil_r. Qed.

Lemma parametric_throw {A} (e : exn) : parametric (@throw A e).
Proof. intros log. unfold throw. cbn. now rewrite List.app_nil_r. Qed.

Lemma parametric_lift {A} (r : result A) : parametric (lift r).
Proof. intros log. unfold lift. cbn. now rewrite List.app_nil_r. Qed.

Lemma parametric_emit (e : event) : parametric (emit e).
Proof. intros log. reflexivity. Qed.

Lemma parametric_ebind {A B} (m : Eff A) (k : A -> Eff B) :
  parametric m -> (forall a, parametric (k a)) -> parametric (ebind m k).
Proof.
  intros Hm Hk log. unfold ebind.
  rewrite (Hm log). destruct (m []) as [evs [a|err]] eqn:E; cbn [fst snd].
  - rewrite (Hk a (log ++ evs)%list), (Hk a evs). cbn [fst snd].
    now rewrite List.app_assoc.
  - reflexivity.
Qed.

Lemma parametric_tryCatch {A} (m : Eff A) (handler : exn -> Eff A) :
  parametric m -> (forall e, parametric (handler e)) -> parametric (tryCatch m handler).
Proof.
  intros Hm Hh log. unfold tryCatch.
  rewrite (Hm log). destruct (m []) as [evs [a|err]] eqn:E; cbn [fst snd].
  - reflexivity.
  - rewrite (Hh err (log ++ evs)%list), (Hh err evs). cbn [fst snd].
    now rewrite List.app_assoc.
Qed.

Lemma parametric_forEach {A B} (body : A -> Eff (option B)) (xs : list A) (acc : list B) :
  (forall x, parametric (body x)) -> parametric (forEach body xs acc).
Proof.
  intros Hbody. revert acc.
  induction xs as [|x xs IH]; intros acc; cbn [forEach].
  - apply parametric_ret.
  - apply parametric_ebind; [apply Hbody|]. intros pushed. apply IH.
Qed.

Lemma parametric_pushDepInfo (w : World) (dryRun : bool)
    (depName declared bare latest : string) (kind : depType) (eco : string) :
  parametric (pushDepInfo w dryRun depName declared bare latest kind eco).
Proof.
  intros log. rewrite !pushDepInfo_run. cbn [fst snd].
  destruct dryRun; [now rewrite List.app_nil_r|reflexivity].
Qed.

Lemma parametric_checkNpmEntry (w : World) (dryRun : bool) (pkg : packageJson)
    (entry : string * string) : parametric (checkNpmEntry w dryRun pkg entry).
Proof.
  unfold checkNpmEntry. destruct entry as [depName version].
  destruct (skippedExpression version); [apply parametric_ret|].
  apply parametric_ebind; [apply parametric_lift|].
  intros [|]; [|apply parametric_ret].
  destruct (getLatestNpmVersion w depName);
    [apply parametric_pushDepInfo|apply parametric_ret].
Qed.

Lemma parametric_checkPythonLine (w : World) (dryRun : bool) (line : string) :
  parametric (checkPythonLine w dryRun line).
Proof.
  unfold checkPythonLine.
  destruct (skippedLine line); [apply parametric_ret|].
  destruct (matchRequirement line) as [[[depName operator] version]|];
    [|apply parametric_ret].
  apply parametric_tryCatch; [|intros e; apply parametric_throw].
  apply parametric_ebind; [apply parametric_lift|].
  intros [|]; [|apply parametric_ret].
  destruct (getLatestPypiVersion w depName);
    [apply parametric_pushDepInfo|apply parametric_ret].
Qed.

Lemma parametric_checkDependencies (w : World) (dryRun : bool) (f : file) :
  parametric (checkDependencies w dryRun f).
Proof.
  unfold checkDependencies. destruct (content f) as [[pkg|]|text].
  - apply parametric_forEach. intros x. apply parametric_checkNpmEntry.
  - apply parametric_throw.
  - apply parametric_forEach. intros x. apply parametric_checkPythonLine.
Qed.

(** ** The loops of [checkDependencies] *)

Lemma forEach_Forall {A B} (P : B -> Prop) (body : A -> Eff (option B)) (xs : list A) :
  (forall x log log' b,
      In x xs -> body x log = (log', Returned (Some b)) -> P b) ->
  forall acc log log' out,
    Forall P acc -> forEach body xs acc log = (log', Returned out) -> Forall P out.
Proof.
  induction xs as [|x xs IH]; intros Hbody acc log log' out Hacc; cbn [forEach].
  - unfold ret. intros [= <- <-]. exact Hacc.
  - unfold ebind. destruct (body x log) as [log1 [pushed|err]] eqn:E; [|discriminate].
    apply IH.
    + intros x' l l' b Hin. apply Hbody. now right.
    + destruct pushed as [b|]; [|exact Hacc].
      apply Forall_app. split; [exact Hacc|].
      constructor; [|constructor]. eapply Hbody; [now left|exact E].
Qed.

Lemma checkNpmEntry_record (w : World) (dryRun : bool) (pkg : packageJson)
    (depName version : string) (log log' : list event) (d : depInfo) :
  checkNpmEntry w dryRun pkg (depName, version) log = (log', Returned (Some d)) ->
  name d = depName /\ currentVersion d = version /\ skippedExpression version = false.
Proof.
  unfold checkNpmEntry.
  destruct (skippedExpression version); [discriminate|].
  unfold ebind, lift.
  destruct (isOutdated _ _ _) as [[|]|err]; try discriminate.
  destruct (getLatestNpmVersion w depName) as [latest|]; [|discriminate].
  rewrite pushDepInfo_run. intros [= _ <-]. cbn. auto.
Qed.

Lemma In_put_keys {V} (x key : string) (value : V) (members : list (string * V)) :
  In x (map fst (put key value members)) -> x = key \/ In x (map fst members).
Proof.
  induction members as [|[k v] rest IH]; cbn.
  - intros [<-|[]]. now left.
  - destruct (String.eqb_spec k key) as [->|Hne]; cbn.
    + intros [<-|H]; auto.
    + intros [<-|H]; auto. destruct (IH H); auto.
Qed.

Lemma NoDup_put {V} (key : string) (value : V) (members : list (string * V)) :
  NoDup (map fst members) -> NoDup (map fst (put key value members)).
Proof.
  induction members as [|[k v] rest IH]; cbn; intros H.
  - constructor; [intros []|constructor].
  - inversion H as [|? ? Hnotin Hrest]; subst.
    destruct (String.eqb_spec k key) as [->|Hne]; cbn.
    + now constructor.
    + constructor; [|now apply IH].
      intros Hin. apply In_put_keys in Hin as [->|Hin]; [congruence|contradiction].
Qed.

Lemma NoDup_spread {V} (source target : list (string * V)) :
  NoDup (map fst target) -> NoDup (map fst (spread target source)).
Proof.
  unfold spread. revert target.
  induction source as [|[k v] rest IH]; intros target H; cbn; [exact H|].
  apply IH. now apply NoDup_put.
Qed.

Lemma NoDup_mergedDependencies (pkg : packageJson) :
  NoDup (map fst (mergedDependencies pkg)).
Proof.
  unfold mergedDependencies. do 2 apply NoDup_spread. constructor.
Qed.

Lemma NoDup_keys_unique {V} (members : list (string * V)) (key : string) (v v' : V) :
  NoDup (map fst members) -> In (key, v) members -> In (key, v') members -> v = v'.
Proof.
  induction members as [|[k u] rest IH]; cbn; [intros _ []|].
  intros H. inversion H as [|? ? Hnotin Hrest]; subst.
  intros [E|Hin] [E'|Hin'].
  - congruence.
  - injection E as -> ->. exfalso. apply Hnotin.
    change key with (fst (key, v')). now apply in_map.
  - injection E' as -> ->. exfalso. apply Hnotin.
    change key with (fst (key, v)). now apply in_map.
  - now apply IH.
Qed.

(** An entry of the merged map whose expression holds [git] or starts
    with [file:] is passed over: no record that [checkDependencies]
    returns bears its name. *)
Lemma skipped_entries_unreported
    (w : World) (dryRun : bool) (filePath : string) (pkg : packageJson)
    (log log' : list event) (outdatedDeps : list depInfo)
    (depName version : string) :
  checkDependencies w dryRun {| path := filePath; content := npm (Some pkg) |} log
  = (log', Returned outdatedDeps) ->
  In (depName, version) (mergedDependencies pkg) ->
  skippedExpression version = true ->
  Forall (fun d => name d <> depName) outdatedDeps.
Proof.
  unfold checkDependencies. cbn [content]. intros Hrun Hin Hskip.
  eapply forEach_Forall; [|constructor|exact Hrun].
  intros [n v] l l' d Hin' Hbody.
  apply checkNpmEntry_record in Hbody as (Hname & _ & Hnot).
  intros E. rewrite E in Hname. subst n.
  assert (v = version).
  { apply (NoDup_keys_unique (mergedDependencies pkg) depName);
      [apply NoDup_mergedDependencies|assumption|assumption]. }
  congruence.
Qed.

(** C9 does not hold of the code.  The scan looks at the merged map, in
    which an entry of [devDependencies] replaces the entry of
    [dependencies] with the same name: a package declared by a git locator
    in [dependencies] and by a range in [devDependencies] is reported, as
    a dependency, and the rewrite puts a version in place of the locator.
    And the test for a git dependency is the presence of the letters
    "git": a package taken from a Bitbucket repository is not skipped, it
    is reported and its locator is rewritten. *)
Theorem locator_reported_and_overwritten :
  sectionEntry "dependencies" "a" shadowedLocator
  = Some "git+https://github.com/acme/a.git"
  /\ skippedExpression "git+https://github.com/acme/a.git" = true
  /\ checkDependencies exampleWorld false
       {| path := "package.json"; content := npm (Some shadowedLocator) |} []
     = ([SecurityQuery "a" "1.0.0" "1.3.0" "npm"], Returned [shadowedUpdate])
  /\ type shadowedUpdate = dependency
  /\ committed (fst (processRepository exampleWorld false shadowedRepository []))
     = [npm (Some [("dependencies", JsonMap [("a", "^1.3.0")]);
                   ("devDependencies", JsonMap [("a", "^1.0.0")])])]
  /\ proposed (fst (processRepository exampleWorld false shadowedRepository []))
     = [[shadowedUpdate]]
  /\ skippedExpression "bitbucket:acme/a#v1.0.0" = false
  /\ checkDependencies exampleWorld false
       {| path := "package.json"; content := npm (Some bitbucketPackage) |} []
     = ([SecurityQuery "a" "1.0.0" "1.3.0" "npm"], Returned [bitbucketUpdate])
  /\ updateDependenciesInFile
       {| path := "package.json"; content := npm (Some bitbucketPackage) |}
       [bitbucketUpdate]
     = Returned (npm (Some [("dependencies",
                             JsonMap [("a", "bitbucket:acme/a#v1.3.0")])])).
Proof. repeat split; vm_compute; reflexivity. Qed.


Lemma checkPythonLine_record (w : World) (dryRun : bool) (line : string)
    (log log' : list event) (d : depInfo) :
  checkPythonLine w dryRun line log = (log', Returned (Some d)) ->
  skippedLine line = false
  /\ exists depName operator version,
       matchRequirement line = Some (depName, operator, version)
       /\ name d = depName /\ currentVersion d = operator ++ version.
Proof.
  unfold checkPythonLine.
  destruct (skippedLine line); [discriminate|].
  destruct (matchRequirement line) as [[[depName operator] version]|]; [|discriminate].
  unfold tryCatch, ebind, lift, throw.
  destruct (isOutdated _ _ _) as [[|]|err]; try discriminate.
  destruct (getLatestPypiVersion w depName) as [latest|]; [|discriminate].
  rewrite pushDepInfo_run. intros [= _ <-]. cbn.
  split; [reflexivity|]. exists depName, operator, version. auto.
Qed.

Lemma snd_run {A} (m : Eff A) (log : list event) (r : result A) :
  snd (m log) = r -> m log = (fst (m log), r).
Proof. intros <-. now destruct (m log). Qed.

(** C10 does not hold of the code.  In the npm loop the comparison is
    not guarded: a declared version that does not normalise to a triple
    ("^1.2") makes [checkDependencies] throw, and the sibling [b], which
    is reported when it stands alone, is lost.  In the Python loop the
    comparison is guarded, but the handler reads a variable that is not
    in scope and throws in turn: a post-release version loses the sibling
    [flask]. *)
Lemma comparison_failure_aborts_scan :
  snd (checkDependencies exampleWorld false shortVersionPackage [])
  = Throws (TypeError "Invalid Version: 1.2")
  /\ reportedNames (snd (checkDependencies exampleWorld false siblingPackage []))
     = Some ["b"]
  /\ snd (checkDependencies exampleWorld false postReleaseRequirements [])
     = Throws (ReferenceError "cleanVersion is not defined")
  /\ reportedNames (snd (checkDependencies exampleWorld false siblingRequirements []))
     = Some ["flask"].
Proof. repeat split; vm_compute; reflexivity. Qed.


(** ** Rewriting a requirements file *)

Lemma span_spec (p : ascii -> bool) (s a b : string) :
  JS.span p s = (a, b) ->
  s = a ++ b /\ JS.allChars p a = true
  /\ match b with EmptyString => True | String c _ => p c = false end.
Proof.
  revert a b. induction s as [|c s IH]; cbn; intros a b.
  - intros [= <- <-]. auto.
  - destruct (p c) eqn:Ec.
    + destruct (JS.span p s) as [a' b'] eqn:Es. intros [= <- <-].
      destruct (IH a' b' eq_refl) as (-> & Ha & Hb).
      cbn. rewrite Ec. auto.
    + intros [= <- <-]. cbn. rewrite Ec. auto.
Qed.

Lemma span_app (p : ascii -> bool) (a b : string) :
  JS.allChars p a = true ->
  match b with EmptyString => True | String c _ => p c = false end ->
  JS.span p (a ++ b) = (a, b).
Proof.
  intros Ha Hb. induction a as [|c a IH]; cbn.
  - destruct b as [|c b]; [reflexivity|]. cbn. now rewrite Hb.
  - cbn in Ha. apply andb_true_iff in Ha as [Hc Ha].
    now rewrite Hc, (IH Ha).
Qed.

Lemma operator_not_name (c : ascii) : isOperatorChar c = true -> isNameChar c = false.
Proof.
  unfold isOperatorChar. rewrite !orb_true_iff.
  intros [[[[H|H]|H]|H]|H]; apply Ascii.eqb_eq in H; subst; reflexivity.
Qed.

Lemma name_not_newline (c : ascii) :
  isNameChar c = true -> negb (Ascii.eqb c newline) = true.
Proof.
  destruct (Ascii.eqb_spec c newline) as [->|]; [discriminate|reflexivity].
Qed.

Lemma operator_not_newline (c : ascii) :
  isOperatorChar c = true -> negb (Ascii.eqb c newline) = true.
Proof.
  destruct (Ascii.eqb_spec c newline) as [->|]; [discriminate|reflexivity].
Qed.

(** What a match of the requirement pattern says about the line. *)
Lemma matchRequirement_spec (line depName operator version : string) :
  matchRequirement line = Some (depName, operator, version) ->
  exists tail,
    line = depName ++ operator ++ version ++ tail
    /\ JS.allChars isNameChar depName = true
    /\ JS.allChars isOperatorChar operator = true
    /\ JS.allChars isNameChar version = true
    /\ depName <> EmptyString /\ operator <> EmptyString /\ version <> EmptyString.
Proof.
  unfold matchRequirement.
  destruct (JS.span isNameChar line) as [n r1] eqn:E1.
  destruct (JS.span isOperatorChar r1) as [o r2] eqn:E2.
  destruct (JS.span isNameChar r2) as [v r3] eqn:E3.
  destruct n as [|cn n']; [discriminate|].
  destruct o as [|co o']; [discriminate|].
  destruct v as [|cv v']; [discriminate|].
  intros [= <- <- <-].
  apply span_spec in E1 as (-> & H1 & _).
  apply span_spec in E2 as (-> & H2 & _).
  apply span_spec in E3 as (-> & H3 & _).
  exists r3. repeat split; try assumption; discriminate.
Qed.

Lemma space_not_name (c : ascii) : JS.isSpace c = true -> isNameChar c = false.
Proof.
  destruct c as [[|] [|] [|] [|] [|] [|] [|] [|]]; cbn; intros H;
    try discriminate; reflexivity.
Qed.

(** A blank line does not match the requirement pattern: both Python
    loops would pass over it without the test for blank lines. *)
Lemma blank_line_unmatched (line : string) :
  JS.isBlank line = true -> matchRequirement line = None.
Proof.
  destruct line as [|c rest]; [reflexivity|].
  unfold JS.isBlank. cbn [JS.allChars]. intros H. apply andb_true_iff in H as [Hc _].
  unfold matchRequirement. cbn [JS.span]. rewrite (space_not_name c Hc).
  now destruct (JS.span isOperatorChar (String c rest)) as [o r],
               (JS.span isNameChar r) as [v t].
Qed.

(** Matching the line the rewriter has put together. *)
Lemma matchRequirement_rebuilt (depName operator latest : string) :
  JS.allChars isNameChar depName = true ->
  JS.allChars isOperatorChar operator = true ->
  operator <> EmptyString ->
  match latest with EmptyString => True | String c _ => isOperatorChar c = false end ->
  matchRequirement (depName ++ operator ++ latest) = None
  \/ exists version,
       matchRequirement (depName ++ operator ++ latest) = Some (depName, operator, version).
Proof.
  intros Hn Ho Hone Hl. unfold matchRequirement.
  rewrite (span_app isNameChar depName (operator ++ latest) Hn).
  - rewrite (span_app isOperatorChar operator latest Ho Hl).
    destruct (JS.span isNameChar latest) as [v r].
    destruct depName; [now left|]. destruct operator; [now left|].
    destruct v; [now left|]. right. eexists. reflexivity.
  - destruct operator as [|c o]; [congruence|]. cbn.
    cbn in Ho. apply andb_true_iff in Ho as [Hc _]. now apply operator_not_name.
Qed.

Lemma plainLatest_spec (d : depInfo) :
  plainLatest d = true ->
  lacks newline (latestVersion d) = true
  /\ match latestVersion d with
     | EmptyString => True
     | String c _ => isOperatorChar c = false
     end.
Proof.
  unfold plainLatest. intros H. apply andb_true_iff in H as [H1 H2].
  split; [exact H1|]. destruct (latestVersion d); [exact I|].
  now apply negb_true_iff in H2.
Qed.

Lemma rewriteLine_idempotent (outdatedDeps : list depInfo) (line : string) :
  forallb plainLatest outdatedDeps = true ->
  rewriteLine outdatedDeps (rewriteLine outdatedDeps line)
  = rewriteLine outdatedDeps line.
Proof.
  intros Hplain.
  destruct (skippedLine line) eqn:Hskip.
  { assert (E : rewriteLine outdatedDeps line = line)
      by (unfold rewriteLine; now rewrite Hskip).
    now rewrite !E. }
  destruct (matchRequirement line) as [[[depName operator] version]|] eqn:Hm.
  2:{ assert (E : rewriteLine outdatedDeps line = line)
        by (unfold rewriteLine; now rewrite Hskip, Hm).
      now rewrite !E. }
  destruct (find (fun d => String.eqb (name d) depName) outdatedDeps) as [dep|] eqn:Hfind.
  2:{ assert (E : rewriteLine outdatedDeps line = line)
        by (unfold rewriteLine; now rewrite Hskip, Hm, Hfind).
      now rewrite !E. }
  assert (E : rewriteLine outdatedDeps line = depName ++ operator ++ latestVersion dep).
  { unfold rewriteLine. now rewrite Hskip, Hm, Hfind. }
  rewrite E.
  apply matchRequirement_spec in Hm as (tail & _ & Hn & Ho & _ & _ & Hone & _).
  apply find_some in Hfind as Hdep. destruct Hdep as [Hin _].
  rewrite forallb_forall in Hplain.
  destruct (plainLatest_spec dep (Hplain dep Hin)) as [_ Hl].
  unfold rewriteLine.
  destruct (skippedLine (depName ++ operator ++ latestVersion dep)); [reflexivity|].
  destruct (matchRequirement_rebuilt depName operator (latestVersion dep) Hn Ho Hone Hl)
    as [->|[v ->]]; [reflexivity|].
  now rewrite Hfind.
Qed.

Lemma rewriteLine_lacks_newline (outdatedDeps : list depInfo) (line : string) :
  forallb plainLatest outdatedDeps = true ->
  lacks newline line = true ->
  lacks newline (rewriteLine outdatedDeps line) = true.
Proof.
  intros Hplain Hline. unfold rewriteLine.
  destruct (skippedLine line); [exact Hline|].
  destruct (matchRequirement line) as [[[depName operator] version]|] eqn:Hm;
    [|exact Hline].
  destruct (find (fun d => String.eqb (name d) depName) outdatedDeps) as [dep|] eqn:Hfind;
    [|exact Hline].
  apply matchRequirement_spec in Hm as (tail & _ & Hn & Ho & _).
  apply find_some in Hfind as [Hin _].
  rewrite forallb_forall in Hplain.
  destruct (plainLatest_spec dep (Hplain dep Hin)) as [Hl _].
  unfold lacks in *. rewrite !allChars_app, Hl.
  rewrite (allChars_impl _ _ _ name_not_newline Hn).
  rewrite (allChars_impl _ _ _ operator_not_newline Ho). reflexivity.
Qed.

Lemma updatePython_idempotent (text : string) (outdatedDeps : list depInfo) :
  forallb plainLatest outdatedDeps = true ->
  updatePython (updatePython text outdatedDeps) outdatedDeps
  = updatePython text outdatedDeps.
Proof.
  intros Hplain. unfold updatePython at 1 3.
  unfold updatePython. rewrite split_join.
  - rewrite map_map. f_equal. apply map_ext.
    intros line. now apply rewriteLine_idempotent.
  - intros E. apply map_eq_nil in E. now apply split_nonempty in E.
  - apply Forall_map. eapply Forall_impl; [|apply split_lacks_each].
    intros line. now apply rewriteLine_lacks_newline.
Qed.

(** ** Rewriting a [package.json] *)

Lemma lookup_put_same {V} (key : string) (value : V) (members : list (string * V)) :
  lookup key (put key value members) = Some value.
Proof.
  induction members as [|[k v] rest IH]; cbn.
  - now rewrite String.eqb_refl.
  - destruct (String.eqb k key) eqn:E; cbn; rewrite E; [reflexivity|exact IH].
Qed.

Lemma lookup_put_other {V} (key key' : string) (value : V) (members : list (string * V)) :
  key' <> key -> lookup key' (put key value members) = lookup key' members.
Proof.
  intros Hne. induction members as [|[k v] rest IH]; cbn.
  - destruct (String.eqb_spec key key'); [congruence|reflexivity].
  - destruct (String.eqb_spec k key) as [->|Hk]; cbn.
    + destruct (String.eqb_spec key key'); [congruence|reflexivity].
    + destruct (String.eqb k key'); [reflexivity|exact IH].
Qed.

Lemma put_put_same {V} (key : string) (v v' : V) (members : list (string * V)) :
  put key v (put key v' members) = put key v members.
Proof.
  induction members as [|[k u] rest IH]; cbn.
  - now rewrite String.eqb_refl.
  - destruct (String.eqb k key) eqn:E; cbn; rewrite E; [reflexivity|now rewrite IH].
Qed.

Lemma put_put_comm {V} (key key' : string) (v v' : V) (members : list (string * V)) :
  key <> key' -> lookup key members <> None ->
  put key v (put key' v' members) = put key' v' (put key v members).
Proof.
  intros Hne. induction members as [|[k u] rest IH]; cbn; [congruence|].
  destruct (String.eqb_spec k key) as [->|Hk].
  - intros _. destruct (String.eqb_spec key key'); [congruence|].
    cbn. rewrite String.eqb_refl.
    destruct (String.eqb_spec key key'); [congruence|reflexivity].
  - intros Hl. destruct (String.eqb_spec k key') as [->|Hk'].
    + cbn. rewrite String.eqb_refl.
      destruct (String.eqb_spec key' key); [congruence|reflexivity].
    + cbn.
      destruct (String.eqb_spec k key); [congruence|].
      destruct (String.eqb_spec k key'); [congruence|].
      now rewrite IH.
Qed.

Lemma put_lookup_same {V} (key : string) (value : V) (members : list (string * V)) :
  lookup key members = Some value -> put key value members = members.
Proof.
  induction members as [|[k u] rest IH]; cbn; [discriminate|].
  destruct (String.eqb_spec k key) as [->|Hk].
  - now intros [= ->].
  - intros H. now rewrite IH.
Qed.

Lemma section_put_same (key : string) (members : list (string * string)) (pkg : packageJson) :
  section key (put key (JsonMap members) pkg) = Some members.
Proof. unfold section. now rewrite lookup_put_same. Qed.

Lemma section_put_other (key key' : string) (value : jsonValue) (pkg : packageJson) :
  key' <> key -> section key' (put key value pkg) = section key' pkg.
Proof. intros H. unfold section. now rewrite lookup_put_other. Qed.

(** What [setEntry] does to the entries. *)
Lemma sectionEntry_setEntry_same (key depName value old : string) (pkg : packageJson) :
  sectionEntry key depName pkg = Some old ->
  sectionEntry key depName (setEntry key depName value pkg) = Some value.
Proof.
  unfold sectionEntry, setEntry.
  destruct (section key pkg) as [members|] eqn:E; [|discriminate].
  intros _. rewrite section_put_same. apply lookup_put_same.
Qed.

Lemma sectionEntry_setEntry_other (key depName value key' depName' : string)
    (pkg : packageJson) :
  (key', depName') <> (key, depName) ->
  sectionEntry key' depName' (setEntry key depName value pkg)
  = sectionEntry key' depName' pkg.
Proof.
  intros Hne. unfold sectionEntry, setEntry.
  destruct (section key pkg) as [members|] eqn:E; [|reflexivity].
  destruct (String.eqb_spec key' key) as [->|Hk].
  - rewrite section_put_same, E. apply lookup_put_other. congruence.
  - now rewrite section_put_other.
Qed.

Lemma setEntry_setEntry_same (key depName v v' : string) (pkg : packageJson) :
  setEntry key depName v (setEntry key depName v' pkg) = setEntry key depName v pkg.
Proof.
  unfold setEntry.
  destruct (section key pkg) as [members|] eqn:E; [|now rewrite E].
  rewrite section_put_same, put_put_same, put_put_same. reflexivity.
Qed.

Lemma section_lookup (key : string) (pkg : packageJson) (members : list (string * string)) :
  section key pkg = Some members -> lookup key pkg <> None.
Proof. unfold section. destruct (lookup key pkg); [discriminate|discriminate]. Qed.

Lemma setEntry_setEntry_comm (key depName v key' depName' v' : string)
    (pkg : packageJson) (old old' : string) :
  (key, depName) <> (key', depName') ->
  sectionEntry key depName pkg = Some old ->
  sectionEntry key' depName' pkg = Some old' ->
  setEntry key depName v (setEntry key' depName' v' pkg)
  = setEntry key' depName' v' (setEntry key depName v pkg).
Proof.
  intros Hne H1 H2. unfold sectionEntry in H1, H2. unfold setEntry.
  destruct (section key pkg) as [members|] eqn:E1; [|discriminate].
  destruct (section key' pkg) as [members'|] eqn:E2; [|discriminate].
  destruct (String.eqb_spec key key') as [<-|Hk].
  - rewrite E1 in E2. injection E2 as <-.
    rewrite !section_put_same, !put_put_same.
    f_equal. f_equal. apply put_put_comm; [congruence|]. now rewrite H1.
  - rewrite (section_put_other key' key) by assumption.
    rewrite (section_put_other key key') by congruence.
    rewrite E1, E2. apply put_put_comm; [assumption|].
    eapply section_lookup; eassumption.
Qed.

Lemma updateNpmDep_alt (pkg : packageJson) (d : depInfo) :
  updateNpmDep pkg d
  = if JS.truthy (sectionEntry (depSection d) (name d) pkg)
    then setEntry (depSection d) (name d) (newValue d) pkg
    else pkg.
Proof. unfold updateNpmDep, depSection, newValue. now destruct (type d). Qed.

Lemma truthy_entry (v : option string) :
  JS.truthy v = true -> exists s, v = Some s /\ JS.truthy (Some s) = true.
Proof. destruct v as [s|]; [|discriminate]. intros H. now exists s. Qed.

(** The entries of the package after one turn of the loop. *)
Lemma sectionEntry_updateNpmDep (key depName : string) (pkg : packageJson) (d : depInfo) :
  sectionEntry key depName (updateNpmDep pkg d)
  = option_map (stepValue key depName d) (sectionEntry key depName pkg).
Proof.
  rewrite updateNpmDep_alt. unfold stepValue.
  destruct (String.eqb_spec (depSection d) key) as [<-|Hk]; cbn [andb].
  - destruct (String.eqb_spec (name d) depName) as [<-|Hn]; cbn [andb].
    + destruct (sectionEntry (depSection d) (name d) pkg) as [old|] eqn:E;
        [|cbn; exact E].
      cbn [option_map]. destruct (JS.truthy (Some old)); [|exact E].
      eapply sectionEntry_setEntry_same; eassumption.
    + destruct (JS.truthy (sectionEntry (depSection d) (name d) pkg)).
      * rewrite sectionEntry_setEntry_other by congruence.
        now destruct (sectionEntry (depSection d) depName pkg).
      * now destruct (sectionEntry (depSection d) depName pkg).
  - destruct (JS.truthy (sectionEntry (depSection d) (name d) pkg)).
    + rewrite sectionEntry_setEntry_other by congruence.
      now destruct (sectionEntry key depName pkg).
    + now destruct (sectionEntry key depName pkg).
Qed.

Lemma sectionEntry_updateNpm (key depName : string) (outdatedDeps : list depInfo)
    (pkg : packageJson) :
  sectionEntry key depName (updateNpm pkg outdatedDeps)
  = option_map (valueAfter key depName outdatedDeps) (sectionEntry key depName pkg).
Proof.
  unfold updateNpm, valueAfter. revert pkg.
  induction outdatedDeps as [|d ds IH]; intros pkg; cbn [fold_left].
  - now destruct (sectionEntry key depName pkg).
  - rewrite IH, sectionEntry_updateNpmDep.
    now destruct (sectionEntry key depName pkg).
Qed.

Lemma valueAfter_empty (key depName : string) (outdatedDeps : list depInfo) :
  valueAfter key depName outdatedDeps EmptyString = EmptyString.
Proof.
  unfold valueAfter. induction outdatedDeps as [|d ds IH]; cbn [fold_left]; [reflexivity|].
  unfold stepValue at 2. cbn [JS.truthy]. rewrite andb_false_r. exact IH.
Qed.

Lemma valueAfter_cons (key depName : string) (d : depInfo) (ds : list depInfo) (v : string) :
  valueAfter key depName (d :: ds) v
  = valueAfter key depName ds (stepValue key depName d v).
Proof. reflexivity. Qed.

Lemma truthy_false_empty (v : string) : JS.truthy (Some v) = false -> v = EmptyString.
Proof. destruct v; [reflexivity|discriminate]. Qed.

(** If the loop leaves some value of an entry non-empty, it leaves every
    non-empty value non-empty. *)
Lemma valueAfter_truthy (key depName : string) (outdatedDeps : list depInfo) (v w : string) :
  JS.truthy (Some (valueAfter key depName outdatedDeps v)) = true ->
  JS.truthy (Some w) = true ->
  JS.truthy (Some (valueAfter key depName outdatedDeps w)) = true.
Proof.
  revert v w. induction outdatedDeps as [|d ds IH]; intros v w Hv Hw; [exact Hw|].
  rewrite valueAfter_cons in *. unfold stepValue in *.
  destruct (String.eqb (depSection d) key && String.eqb (name d) depName); cbn [andb] in *.
  - rewrite Hw. destruct (JS.truthy (Some v)) eqn:Ev; [exact Hv|].
    apply truthy_false_empty in Ev. subst v.
    rewrite valueAfter_empty in Hv. discriminate.
  - eapply IH; eassumption.
Qed.

(** Rewriting after an entry was set is setting the entry after
    rewriting, to the value the loop gives it. *)
Lemma updateNpm_setEntry (key depName : string) (outdatedDeps : list depInfo) :
  forall (pkg : packageJson) (w old : string),
    sectionEntry key depName pkg = Some old ->
    updateNpm (setEntry key depName w pkg) outdatedDeps
    = setEntry key depName (valueAfter key depName outdatedDeps w)
               (updateNpm pkg outdatedDeps).
Proof.
  induction outdatedDeps as [|d ds IH]; intros pkg w old Hold; [reflexivity|].
  rewrite valueAfter_cons. unfold updateNpm in *. cbn [fold_left].
  rewrite !updateNpmDep_alt. unfold stepValue.
  destruct (String.eqb_spec (depSection d) key) as [Hk|Hk];
    [destruct (String.eqb_spec (name d) depName) as [Hn|Hn]|]; cbn [andb].
  - rewrite Hk, Hn.
    rewrite (sectionEntry_setEntry_same key depName w old pkg Hold), Hold.
    destruct (JS.truthy (Some w)).
    + rewrite setEntry_setEntry_same, (IH pkg (newValue d) old Hold).
      destruct (JS.truthy (Some old)); [|reflexivity].
      rewrite (IH pkg (newValue d) old Hold). now rewrite setEntry_setEntry_same.
    + rewrite (IH pkg w old Hold).
      destruct (JS.truthy (Some old)); [|reflexivity].
      rewrite (IH pkg (newValue d) old Hold). now rewrite setEntry_setEntry_same.
  - rewrite sectionEntry_setEntry_other by congruence.
    destruct (JS.truthy (sectionEntry (depSection d) (name d) pkg)) eqn:Hg.
    + apply truthy_entry in Hg as (old' & Hold' & _).
      rewrite (setEntry_setEntry_comm (depSection d) (name d) (newValue d)
                 key depName w pkg old' old) by (congruence || assumption).
      apply (IH _ w old).
      rewrite sectionEntry_setEntry_other by congruence. exact Hold.
    + now apply (IH pkg w old).
  - rewrite sectionEntry_setEntry_other by congruence.
    destruct (JS.truthy (sectionEntry (depSection d) (name d) pkg)) eqn:Hg.
    + apply truthy_entry in Hg as (old' & Hold' & _).
      rewrite (setEntry_setEntry_comm (depSection d) (name d) (newValue d)
                 key depName w pkg old' old) by (congruence || assumption).
      apply (IH _ w old).
      rewrite sectionEntry_setEntry_other by congruence. exact Hold.
    + now apply (IH pkg w old).
Qed.

Lemma updateNpm_snoc (pkg : packageJson) (ds : list depInfo) (d : depInfo) :
  updateNpm pkg (ds ++ [d]) = updateNpmDep (updateNpm pkg ds) d.
Proof. unfold updateNpm. now rewrite fold_left_app. Qed.

Lemma updateNpm_idempotent (outdatedDeps : list depInfo) (pkg : packageJson) :
  updateNpm (updateNpm pkg outdatedDeps) outdatedDeps = updateNpm pkg outdatedDeps.
Proof.
  revert pkg. induction outdatedDeps as [|d ds IH] using rev_ind; intros pkg;
    [reflexivity|].
  rewrite !updateNpm_snoc.
  set (x := updateNpm pkg ds).
  assert (Hx : updateNpm x ds = x) by apply IH.
  rewrite (updateNpmDep_alt x d).
  destruct (JS.truthy (sectionEntry (depSection d) (name d) x)) eqn:Hg.
  - apply truthy_entry in Hg as (old & Hold & Hold_truthy).
    rewrite (updateNpm_setEntry _ _ ds x (newValue d) old Hold), Hx.
    rewrite updateNpmDep_alt.
    rewrite (sectionEntry_setEntry_same _ _ _ old x Hold).
    destruct (JS.truthy (Some (valueAfter (depSection d) (name d) ds (newValue d))))
      eqn:Hafter.
    + apply setEntry_setEntry_same.
    + destruct (JS.truthy (Some (newValue d))) eqn:Hnew.
      * assert (Hfix : JS.truthy (Some (valueAfter (depSection d) (name d) ds old)) = true).
        { pose proof (sectionEntry_updateNpm (depSection d) (name d) ds x) as Hview.
          rewrite Hx, Hold in Hview. cbn in Hview. injection Hview as Hview.
          now rewrite <- Hview. }
        rewrite (valueAfter_truthy _ _ ds old (newValue d) Hfix Hnew) in Hafter.
        discriminate.
      * apply truthy_false_empty in Hnew. rewrite Hnew.
        now rewrite valueAfter_empty.
  - rewrite Hx, updateNpmDep_alt, Hg. reflexivity.
Qed.

(** C7, as stated, fails: when the latest version of an approved update
    begins with an operator character, the rewritten line matches with a
    longer operator the second time, and the second rewrite differs from
    the first. *)
Lemma rewrite_idempotent_counterexample :
  updateDependenciesInFile siblingRequirements [oddUpdate]
  = Returned (python "flask===2.0")
  /\ updateDependenciesInFile (withContent siblingRequirements (python "flask===2.0"))
                              [oddUpdate]
     = Returned (python "flask====2.0").
Proof. split; reflexivity. Qed.

(** C7, amended.  Rewriting a manifest and then rewriting the result
    with the same approved updates gives the first result again: always
    for a [package.json]; for a requirements file provided no approved
    latest version begins with an operator character ([<], [>], [=], [!],
    [~]) or holds a line feed. *)
Theorem rewrite_idempotent (f : file) (outdatedDeps : list depInfo) (rewritten : manifest) :
  fitFor f outdatedDeps = true ->
  updateDependenciesInFile f outdatedDeps = Returned rewritten ->
  updateDependenciesInFile (withContent f rewritten) outdatedDeps = Returned rewritten.
Proof.
  unfold fitFor, updateDependenciesInFile, withContent. cbn [content].
  destruct (content f) as [[pkg|]|text]; intros Hfit; [| discriminate |].
  - intros [= <-]. now rewrite updateNpm_idempotent.
  - intros [= <-]. now rewrite updatePython_idempotent.
Qed.

Lemma rewrite_idempotent_witness :
  updateDependenciesInFile
    (withContent exampleRequirements
       (python (lines ["flask==1.2.0"; "# comment"; "requests>=2.0.0"; ""])))
    [flaskUpdate]
  = Returned (python (lines ["flask==1.2.0"; "# comment"; "requests>=2.0.0"; ""])).
Proof.
  exact (rewrite_idempotent exampleRequirements [flaskUpdate] _ eq_refl eq_refl).
Defined.

(** ** What a rewrite leaves alone *)

Lemma rewriteLine_unmatched (outdatedDeps : list depInfo) (line : string) :
  skippedLine line = true \/ matchRequirement line = None ->
  rewriteLine outdatedDeps line = line.
Proof.
  unfold rewriteLine. intros [H|H].
  - now rewrite H.
  - rewrite H. now destruct (skippedLine line).
Qed.

Lemma rewriteLine_unapproved (outdatedDeps : list depInfo)
    (line depName operator version : string) :
  matchRequirement line = Some (depName, operator, version) ->
  find (fun d => String.eqb (name d) depName) outdatedDeps = None ->
  rewriteLine outdatedDeps line = line.
Proof.
  unfold rewriteLine. intros -> ->. now destruct (skippedLine line).
Qed.

Lemma rewriteLine_approved (outdatedDeps : list depInfo)
    (line depName operator version : string) (dep : depInfo) :
  skippedLine line = false ->
  matchRequirement line = Some (depName, operator, version) ->
  find (fun d => String.eqb (name d) depName) outdatedDeps = Some dep ->
  rewriteLine outdatedDeps line = depName ++ operator ++ latestVersion dep.
Proof. unfold rewriteLine. now intros -> -> ->. Qed.

Lemma updatePython_lines (text : string) (outdatedDeps : list depInfo) :
  JS.split newline (updatePython text []) = JS.split newline text
  /\ List.length (map (rewriteLine outdatedDeps) (JS.split newline text))
     = List.length (JS.split newline text).
Proof.
  split; [|apply length_map].
  unfold updatePython. rewrite split_join.
  - rewrite <- (map_id (JS.split newline text)) at 2. apply map_ext.
    intros line. unfold rewriteLine.
    destruct (skippedLine line); [reflexivity|].
    now destruct (matchRequirement line) as [[[? ?] ?]|].
  - intros E. apply map_eq_nil in E. now apply split_nonempty in E.
  - apply Forall_map. eapply Forall_impl; [|apply split_lacks_each].
    intros line Hl. unfold rewriteLine.
    destruct (skippedLine line); [exact Hl|].
    now destruct (matchRequirement line) as [[[? ?] ?]|].
Qed.

Lemma stepValue_other (key depName : string) (d : depInfo) (v : string) :
  (depSection d, name d) <> (key, depName) -> stepValue key depName d v = v.
Proof.
  intros Hne. unfold stepValue.
  destruct (String.eqb_spec (depSection d) key) as [Hk|]; [|reflexivity].
  destruct (String.eqb_spec (name d) depName) as [Hn|]; [|reflexivity].
  congruence.
Qed.

(** An entry no approved update names keeps its value. *)
Lemma updateNpm_untouched (key depName : string) (outdatedDeps : list depInfo)
    (pkg : packageJson) :
  Forall (fun d => (depSection d, name d) <> (key, depName)) outdatedDeps ->
  sectionEntry key depName (updateNpm pkg outdatedDeps) = sectionEntry key depName pkg.
Proof.
  intros H. rewrite sectionEntry_updateNpm.
  destruct (sectionEntry key depName pkg) as [v|]; [|reflexivity].
  cbn. f_equal. revert v. unfold valueAfter.
  induction H as [|d ds Hd _ IH]; intros v; cbn [fold_left]; [reflexivity|].
  now rewrite stepValue_other, IH.
Qed.

(** An entry that changes gets the prefix of the declared expression of
    an approved update followed by its latest version. *)
Lemma stepValue_cases (key depName : string) (d : depInfo) (v : string) :
  stepValue key depName d v = v
  \/ (depSection d = key /\ name d = depName
      /\ stepValue key depName d v = versionPrefix (currentVersion d) ++ latestVersion d).
Proof.
  unfold stepValue.
  destruct (String.eqb_spec (depSection d) key) as [Hk|Hk]; cbn [andb]; [|now left].
  destruct (String.eqb_spec (name d) depName) as [Hn|Hn]; cbn [andb]; [|now left].
  destruct (JS.truthy (Some v)); [right|now left]. auto.
Qed.

Lemma updateNpm_written (key depName : string) (outdatedDeps : list depInfo)
    (pkg : packageJson) (old : string) :
  sectionEntry key depName pkg = Some old ->
  sectionEntry key depName (updateNpm pkg outdatedDeps) = Some old
  \/ exists d,
       In d outdatedDeps /\ depSection d = key /\ name d = depName
       /\ sectionEntry key depName (updateNpm pkg outdatedDeps)
          = Some (versionPrefix (currentVersion d) ++ latestVersion d).
Proof.
  intros Hold. rewrite sectionEntry_updateNpm, Hold. cbn [option_map].
  unfold valueAfter. clear Hold.
  induction outdatedDeps as [|d ds IH] using rev_ind; [now left|].
  rewrite fold_left_app. cbn [fold_left].
  set (u := fold_left (fun v d0 => stepValue key depName d0 v) ds old) in *.
  destruct (stepValue_cases key depName d u) as [->|(Hk & Hn & ->)].
  - destruct IH as [H|(d' & Hin & H)]; [now left|].
    right. exists d'. rewrite in_app_iff. tauto.
  - right. exists d. rewrite in_app_iff. cbn. auto.
Qed.

Lemma put_keys_present {V} (key : string) (value : V) (members : list (string * V)) :
  lookup key members <> None -> map fst (put key value members) = map fst members.
Proof.
  induction members as [|[k v] rest IH]; cbn; [congruence|].
  destruct (String.eqb_spec k key) as [->|]; [reflexivity|].
  intros H. cbn. now rewrite IH.
Qed.

Lemma updateNpmDep_members (pkg : packageJson) (d : depInfo) :
  map fst (updateNpmDep pkg d) = map fst pkg
  /\ forall key, key <> "dependencies" -> key <> "devDependencies" ->
                 lookup key (updateNpmDep pkg d) = lookup key pkg.
Proof.
  rewrite updateNpmDep_alt.
  destruct (JS.truthy _); [|now split].
  unfold setEntry. destruct (section (depSection d) pkg) as [members|] eqn:E; [|now split].
  split.
  - apply put_keys_present. eapply section_lookup; eassumption.
  - intros key H1 H2. apply lookup_put_other.
    unfold depSection. destruct (type d); congruence.
Qed.

(** The members of the document keep their order, and every member
    other than the two dependency maps keeps its value. *)
Lemma updateNpm_members (outdatedDeps : list depInfo) (pkg : packageJson) :
  map fst (updateNpm pkg outdatedDeps) = map fst pkg
  /\ forall key, key <> "dependencies" -> key <> "devDependencies" ->
                 lookup key (updateNpm pkg outdatedDeps) = lookup key pkg.
Proof.
  unfold updateNpm. revert pkg.
  induction outdatedDeps as [|d ds IH]; intros pkg; cbn [fold_left]; [now split|].
  destruct (IH (updateNpmDep pkg d)) as [IH1 IH2].
  destruct (updateNpmDep_members pkg d) as [H1 H2].
  split; [congruence|].
  intros key Hk Hk'. now rewrite IH2, H2.
Qed.

(** C8 does not hold of the code for requirements files.  The rewritten
    line is put together from the name, the operator and the new version
    only: whatever followed the version on the line (here a second bound
    and a comment) is dropped.  The other line is passed on unchanged. *)
Lemma rewrite_drops_rest_of_line :
  updateDependenciesInFile boundedRequirements [requestsUpdate]
  = Returned (python (lines ["requests>=3.0.0"; "flask==1.0.0"])).
Proof. reflexivity. Qed.

(** ** The requests of a run *)

Lemma forEach_events {A B} (Q : event -> Prop) (body : A -> Eff (option B))
    (xs : list A) (acc : list B) :
  (forall x, parametric (body x)) ->
  (forall x, Forall Q (fst (body x []))) ->
  Forall Q (fst (forEach body xs acc [])).
Proof.
  intros Hpar Hq. revert acc.
  induction xs as [|x xs IH]; intros acc; cbn [forEach].
  - constructor.
  - unfold ebind. specialize (Hq x).
    destruct (body x []) as [evs [pushed|err]]; cbn [fst] in *; [|exact Hq].
    rewrite (parametric_forEach body xs _ Hpar evs). cbn [fst].
    apply Forall_app. split; [exact Hq|apply IH].
Qed.

Lemma pushDepInfo_events (w : World) (dryRun : bool)
    (depName declared bare latest : string) (kind : depType) (eco : string) :
  Forall (fun e => isSecurityQuery e = true /\ dryRun = false)
         (fst (pushDepInfo w dryRun depName declared bare latest kind eco [])).
Proof.
  rewrite pushDepInfo_run. cbn [fst].
  destruct dryRun; [constructor|]. constructor; [now split|constructor].
Qed.

Lemma checkDependencies_events (w : World) (dryRun : bool) (f : file) :
  Forall (fun e => isSecurityQuery e = true /\ dryRun = false)
         (fst (checkDependencies w dryRun f [])).
Proof.
  unfold checkDependencies. destruct (content f) as [[pkg|]|text].
  - apply forEach_events; [intros x; apply parametric_checkNpmEntry|].
    intros [depName version]. unfold checkNpmEntry.
    destruct (skippedExpression version); [constructor|].
    unfold ebind, lift. destruct (isOutdated _ _ _) as [[|]|err]; try constructor.
    destruct (getLatestNpmVersion w depName);
      [apply pushDepInfo_events|constructor].
  - constructor.
  - apply forEach_events; [intros x; apply parametric_checkPythonLine|].
    intros line. unfold checkPythonLine.
    destruct (skippedLine line); [constructor|].
    destruct (matchRequirement line) as [[[depName operator] version]|];
      [|constructor].
    unfold tryCatch, ebind, lift, throw.
    destruct (isOutdated _ _ _) as [[|]|err]; try constructor.
    destruct (getLatestPypiVersion w depName) as [latest|]; [|constructor].
    rewrite pushDepInfo_run. cbn [fst].
    destruct dryRun; [constructor|]. constructor; [now split|constructor].
Qed.

Lemma createUpdatePR_events (w : World) (dryRun : bool) (files : list file)
    (repo : repository) (f : file) (outdated : list depInfo) (log : list event) :
  In f files -> outdatedOf w dryRun f = Returned outdated ->
  exists evs,
    fst (createUpdatePR w repo f (safeDeps dryRun outdated) log) = (log ++ evs)%list
    /\ Forall (runEvent w dryRun files) evs.
Proof.
  intros Hin Hout.
  unfold createUpdatePR, currentDate, createBranch, commitFile, request, ebind, lift.
  destruct (getDefaultBranch w repo) as [baseBranch|err];
    [|exists []; split; [now rewrite List.app_nil_r|constructor]].
  destruct (getRef w repo _) as [sha|err];
    [|exists []; split; [now rewrite List.app_nil_r|constructor]].
  destruct (accepts w log _);
    [|eexists [_]; split; [reflexivity|repeat constructor]].
  destruct (updateDependenciesInFile f (safeDeps dryRun outdated))
    as [updatedContent|err] eqn:Eup;
    [|eexists [_]; split; [reflexivity|repeat constructor]].
  assert (Hcommit : runEvent w dryRun files
            (CreateOrUpdateFileContents (full_name repo) (path f) updatedContent
               ("dependency-updates-" ++ today w log) ("Update dependencies in " ++ path f))).
  { cbn. exists f, outdated. auto. }
  destruct (accepts w _ _).
  - eexists [_; _; _]. split; [cbn [fst]; now rewrite <- !List.app_assoc|].
    repeat constructor; [exact Hcommit|].
    cbn. exists f, outdated. auto.
  - eexists [_; _]. split; [cbn [fst]; now rewrite <- !List.app_assoc|].
    repeat constructor. exact Hcommit.
Qed.

Lemma nonEmpty_false {A} (l : list A) : nonEmpty l = false -> l = [].
Proof. destruct l; [reflexivity|discriminate]. Qed.

Lemma processFile_events (w : World) (dryRun : bool) (files : list file)
    (repo : repository) (acc : list depInfo) (f : file) (log : list event) :
  In f files ->
  exists evs,
    fst (processFile w dryRun repo acc f log) = (log ++ evs)%list
    /\ Forall (runEvent w dryRun files) evs
    /\ forall all,
         snd (processFile w dryRun repo acc f log) = Returned all ->
         exists outdated,
           outdatedOf w dryRun f = Returned outdated /\ all = (acc ++ outdated)%list.
Proof.
  intros Hin. unfold processFile, ebind.
  rewrite (parametric_checkDependencies w dryRun f log).
  pose proof (checkDependencies_events w dryRun f) as Hq.
  assert (Hq' : Forall (runEvent w dryRun files) (fst (checkDependencies w dryRun f []))).
  { eapply Forall_impl; [|exact Hq]. intros [] [Hs Hd]; try discriminate. exact Hd. }
  unfold outdatedOf.
  destruct (checkDependencies w dryRun f []) as [evs0 [outdated|err]] eqn:E;
    cbn [fst snd] in *.
  - destruct (nonEmpty outdated) eqn:Hne.
    + destruct (nonEmpty (safeDeps dryRun outdated)).
      * destruct (createUpdatePR_events w dryRun files repo f outdated (log ++ evs0)%list Hin)
          as (evs1 & Hlog & Hev); [unfold outdatedOf; now rewrite E|].
        destruct (createUpdatePR w repo f (safeDeps dryRun outdated) (log ++ evs0)%list)
          as [log1 [[]|err]]; cbn [fst snd] in *; subst log1;
          exists (evs0 ++ evs1)%list; rewrite List.app_assoc;
          (split; [reflexivity|]); (split; [now apply Forall_app|]).
        -- unfold ret. cbn. intros all [= <-]. eauto.
        -- intros all [=].
      * exists evs0. unfold ret. cbn. repeat split; [assumption|].
        intros all [= <-]. eauto.
    + exists evs0. unfold ret. cbn. repeat split; [assumption|].
      intros all [= <-]. exists outdated. split; [reflexivity|].
      apply nonEmpty_false in Hne. subst. now rewrite List.app_nil_r.
  - exists evs0. repeat split; [assumption|]. intros all [=].
Qed.

Lemma processFiles_events (w : World) (dryRun : bool) (files : list file)
    (repo : repository) (fs : list file) :
  incl fs files ->
  forall (acc : list depInfo) (log : list event),
  exists evs,
    fst (processFiles w dryRun repo acc fs log) = (log ++ evs)%list
    /\ Forall (runEvent w dryRun files) evs
    /\ forall all,
         snd (processFiles w dryRun repo acc fs log) = Returned all ->
         exists perFile,
           Forall2 (fun f outdated => outdatedOf w dryRun f = Returned outdated)
                   fs perFile
           /\ all = (acc ++ List.concat perFile)%list.
Proof.
  induction fs as [|f fs IH]; intros Hincl acc log; cbn [processFiles].
  - exists []. unfold ret. cbn. rewrite List.app_nil_r. repeat split; [constructor|].
    intros all [= <-]. exists []. split; [constructor|]. cbn. now rewrite List.app_nil_r.
  - unfold ebind.
    destruct (processFile_events w dryRun files repo acc f log) as (evs1 & Hlog1 & Hev1 & Hres1);
      [apply Hincl; now left|].
    destruct (processFile w dryRun repo acc f log) as [log1 [acc1|err]];
      cbn [fst snd] in *; subst log1.
    + destruct (Hres1 acc1 eq_refl) as (outdated & Hout & ->).
      destruct (IH (fun x Hx => Hincl x (or_intror Hx)) (acc ++ outdated)%list (log ++ evs1)%list)
        as (evs2 & Hlog2 & Hev2 & Hres2).
      exists (evs1 ++ evs2)%list. rewrite List.app_assoc.
      split; [exact Hlog2|]. split; [now apply Forall_app|].
      intros all Hall. destruct (Hres2 all Hall) as (perFile & HF & ->).
      exists (outdated :: perFile). split; [now constructor|].
      cbn. now rewrite List.app_assoc.
    + exists evs1. repeat split; [assumption|]. intros all [=].
Qed.

Lemma processRepository_events (w : World) (dryRun : bool) (repo : repository) :
  Forall (runEvent w dryRun (getPackageFiles repo))
         (fst (processRepository w dryRun repo [])).
Proof.
  unfold processRepository, tryCatch, ebind.
  destruct (processFiles_events w dryRun (getPackageFiles repo) repo
              (getPackageFiles repo) (incl_refl _) [] [])
    as (evs & Hlog & Hev & Hres).
  destruct (processFiles w dryRun repo [] (getPackageFiles repo) [])
    as [log1 [all|err]]; cbn [fst snd] in *; subst log1; cbn [app].
  - destruct (Hres all eq_refl) as (perFile & HF & ->). cbn [app].
    destruct (nonEmpty (List.concat perFile) && negb dryRun) eqn:Hrep.
    + unfold generateReport, emit. cbn [fst].
      apply Forall_app. split; [exact Hev|].
      constructor; [|constructor]. cbn.
      apply andb_true_iff in Hrep as [_ Hd]. apply negb_true_iff in Hd.
      split; [exact Hd|]. now exists perFile.
    + unfold ret. cbn. exact Hev.
  - unfold ret. cbn. exact Hev.
Qed.

Lemma runEvent_onlySafeWritten (w : World) (files : list file) (e : event) :
  runEvent w false files e -> onlySafeWritten w files e.
Proof.
  destruct e; cbn; auto.
  intros [_ H]. exact H.
Qed.

Lemma In_filter_isSafeDep (outdated : list depInfo) (d : depInfo) :
  In d (filter isSafeDep outdated) <-> In d outdated /\ verifiedSafe d.
Proof.
  rewrite filter_In. unfold isSafeDep, verifiedSafe.
  destruct (securityCheck d) as [verdict|].
  - split; intros [Hin H]; (split; [exact Hin|]).
    + now exists verdict.
    + destruct H as (v & [= <-] & Hs). exact Hs.
  - split; intros [Hin H]; [discriminate|].
    destruct H as (v & [=] & _).
Qed.

Lemma not_safe_in_report (outdated : list depInfo) (d : depInfo) :
  In d outdated -> isSafeDep d = false ->
  In d (unsafeUpdates (buildReport outdated)) \/ In d (skippedUpdates (buildReport outdated)).
Proof.
  intros Hin Hs. cbn. rewrite !filter_In.
  unfold isSafeDep, isUnsafeDep, isSkippedDep in *.
  destruct (securityCheck d) as [verdict|]; [left|right]; (split; [exact Hin|]).
  - now rewrite Hs.
  - reflexivity.
Qed.

Lemma find_name_none (outdatedDeps : list depInfo) (depName : string) :
  Forall (fun d => name d <> depName) outdatedDeps ->
  find (fun d => String.eqb (name d) depName) outdatedDeps = None.
Proof.
  induction 1 as [|d ds Hd _ IH]; cbn; [reflexivity|].
  destruct (String.eqb_spec (name d) depName); [contradiction|exact IH].
Qed.

(** What the requests of a run that is not a dry run carry: a committed
    manifest is the rewrite of that manifest by the outdated dependencies
    whose verdict says safe, a pull request lists exactly those, and a
    report covers all outdated dependencies of all manifests. *)
Lemma requests_carry_safe_subset (w : World) (repo : repository) :
  Forall (onlySafeWritten w (getPackageFiles repo))
         (fst (processRepository w false repo [])).
Proof.
  eapply Forall_impl; [|apply processRepository_events].
  intros e. apply runEvent_onlySafeWritten.
Qed.

(** C1 does not hold of the code.  The rewrite of a requirements file
    looks an approved update up by name only.  When a package is pinned
    on two lines and the update is safe from one version and unsafe from
    the other, the safe record rewrites both lines: the update that was
    found unsafe is committed too, though the pull request lists the safe
    one alone and the report lists the other as unsafe.  And the report
    is written only when nothing before it throws: on a host that refuses
    to create a branch that exists, the second manifest of a repository
    ends the run of that repository, and the unsafe update found there
    appears in no report, which the same repository gets from a host that
    accepts every request. *)
Theorem unsafe_update_committed :
  outdatedOf pinnedWorld false pinnedRequirements = Returned [pinnedSafe; pinnedUnsafe]
  /\ isSafeDep pinnedSafe = true
  /\ isSafeDep pinnedUnsafe = false
  /\ processRepository pinnedWorld false pinnedTwice []
     = ([SecurityQuery "numpy" "1.0.0" "2.0.0" "pypi";
         SecurityQuery "numpy" "1.5.0" "2.0.0" "pypi";
         CreateRef "acme/matrix" "refs/heads/dependency-updates-2025-01-15" "3f2a9c1";
         CreateOrUpdateFileContents "acme/matrix" "requirements.txt"
           (python (lines ["numpy==2.0.0"; "numpy==2.0.0"]))
           "dependency-updates-2025-01-15" "Update dependencies in requirements.txt";
         CreatePull "acme/matrix" [pinnedSafe]
           (generateContextProtocolPR pinnedRequirements [pinnedSafe])
           "dependency-updates-2025-01-15" "main";
         WriteReport "acme/matrix"
           {| totalChecked := 2;
              safeUpdates := [pinnedSafe];
              unsafeUpdates := [pinnedUnsafe];
              skippedUpdates := [] |}],
        Returned tt)
  /\ verdicts (outdatedOf strictWorld false
                 {| path := "requirements.txt";
                    content := python (lines ["flask==1.0.0"; "requests>=2.0.0"]) |})
     = Some [("flask", true); ("requests", false)]
  /\ snd (processRepository strictWorld false mixedRepository []) = Returned tt
  /\ map isWriteReport (fst (processRepository strictWorld false mixedRepository []))
     = [false; false; false; false; false; false; false]
  /\ map isWriteReport (fst (processRepository exampleWorld false mixedRepository []))
     = [false; false; false; false; false; false; false; false; false; true].
Proof. repeat split; vm_compute; reflexivity. Qed.

(** In a dry run the security oracle is never asked and no report is
    written; the candidates handed on are all outdated dependencies. *)
Lemma dry_run_never_queries (w : World) (repo : repository) :
  Forall (fun e => match e with
                   | SecurityQuery _ _ _ _ | WriteReport _ _ => False
                   | _ => True
                   end)
         (fst (processRepository w true repo [])).
Proof.
  eapply Forall_impl; [|apply (processRepository_events w true repo)].
  intros [] H; cbn in H; try exact I; try discriminate.
  destruct H as [H _]. discriminate.
Qed.

Lemma dry_run_candidates (outdated : list depInfo) : safeDeps true outdated = outdated.
Proof. reflexivity. Qed.

(** C3 does not hold of the code.  In dry-run mode the oracle is not
    asked and every outdated dependency is a candidate, but
    [createUpdatePR] has no dry-run guard: the branch is created, the
    rewritten manifest committed and the pull request opened, with the
    unchecked update of [requests] in it. *)
Lemma dry_run_writes :
  exists deps body,
    fst (processRepository exampleWorld true exampleRepository [])
    = [CreateRef "acme/demo" "refs/heads/dependency-updates-2025-01-15" "3f2a9c1";
       CreateOrUpdateFileContents "acme/demo" "requirements.txt"
         (python (lines ["flask==1.2.0"; "# comment"; "requests>=3.0.0"; ""]))
         "dependency-updates-2025-01-15" "Update dependencies in requirements.txt";
       CreatePull "acme/demo" deps body "dependency-updates-2025-01-15" "main"]
    /\ map name deps = ["flask"; "requests"]
    /\ map securityCheck deps = [None; None]
    /\ forallb isWrite (fst (processRepository exampleWorld true exampleRepository []))
       = true.
Proof.
  do 2 eexists. split; [vm_compute; reflexivity|]. repeat split; reflexivity.
Qed.

(* ================================================================== *)
(** ** More about strings and lists *)
(* ================================================================== *)

Lemma append_assoc (a b c : string) : ((a ++ b) ++ c)%string = (a ++ b ++ c)%string.
Proof. induction a as [|x a IH]; cbn; [reflexivity|now rewrite IH]. Qed.

Lemma append_empty_r (s : string) : (s ++ "")%string = s.
Proof. induction s as [|c s IH]; cbn; [reflexivity|now rewrite IH]. Qed.

Lemma length_append (a b : string) :
  String.length (a ++ b) = String.length a + String.length b.
Proof. induction a as [|x a IH]; cbn; [reflexivity|now rewrite IH]. Qed.

Lemma append_inj_length (a b c d : string) :
  (a ++ b)%string = (c ++ d)%string -> String.length a = String.length c ->
  a = c /\ b = d.
Proof.
  revert c. induction a as [|x a IH]; intros [|y c]; cbn; try discriminate.
  - auto.
  - intros [= -> H] [= L]. destruct (IH c H L) as [-> ->]. auto.
Qed.

Lemma substring_split (n : nat) (s : string) :
  n <= String.length s ->
  exists post, s = String.substring 0 n s ++ post
               /\ String.length (String.substring 0 n s) = n.
Proof.
  revert s. induction n as [|n IH]; intros s Hn.
  - exists s. now destruct s.
  - destruct s as [|c s]; [cbn in Hn; lia|]. cbn in Hn.
    destruct (IH s) as (post & Hs & Hl); [lia|].
    exists post. cbn. split; [now rewrite <- Hs|now rewrite Hl].
Qed.

Lemma keep_all (p : ascii -> bool) (s : string) :
  JS.allChars p s = true -> JS.keep p s = s.
Proof.
  induction s as [|c s IH]; cbn; [reflexivity|].
  intros H. apply andb_true_iff in H as [Hc Hs]. now rewrite Hc, (IH Hs).
Qed.

Lemma startsWith_app (s p rest : string) :
  JS.startsWith s p = true -> JS.startsWith (s ++ rest) p = true.
Proof.
  unfold JS.startsWith. revert s. induction p as [|a p IH]; intros s.
  - intros _. now destruct (s ++ rest)%string.
  - destruct s as [|b s]; [discriminate|]. cbn.
    destruct (ascii_dec a b); [apply IH|discriminate].
Qed.

Lemma prefix_app (p rest : string) : String.prefix p (p ++ rest) = true.
Proof.
  induction p as [|a p IH]; cbn; [now destruct rest|].
  destruct (ascii_dec a a); [exact IH|congruence].
Qed.

Lemma prefix_split (p s : string) :
  String.prefix p s = true -> s = p ++ drop (String.length p) s.
Proof.
  revert s. induction p as [|a p IH]; intros s; [reflexivity|].
  destruct s as [|b s]; [discriminate|]. cbn.
  destruct (ascii_dec a b) as [->|]; [|discriminate].
  intros H. now rewrite <- (IH s H).
Qed.

Lemma toLowerCase_app (a b : string) :
  JS.toLowerCase (a ++ b) = JS.toLowerCase a ++ JS.toLowerCase b.
Proof. induction a as [|c a IH]; cbn; [reflexivity|now rewrite IH]. Qed.

Lemma filter_none {A} (p : A -> bool) (l : list A) :
  Forall (fun x => p x = false) l -> filter p l = [].
Proof. induction 1 as [|x xs Hx _ IH]; cbn; [reflexivity|]. now rewrite Hx. Qed.

(** Occurrences. *)

Lemma occursIn_refl (s : string) : occursIn s s.
Proof. exists EmptyString, EmptyString. cbn. now rewrite append_empty_r. Qed.

Lemma occursIn_trans (a b c : string) : occursIn a b -> occursIn b c -> occursIn a c.
Proof.
  intros (p1 & q1 & ->) (p2 & q2 & ->).
  exists (p2 ++ p1), (q1 ++ q2). now rewrite !append_assoc.
Qed.

Lemma occursIn_suffix (pre s : string) : occursIn s (pre ++ s).
Proof. exists pre, EmptyString. now rewrite append_empty_r. Qed.

Lemma occursIn_prefix (s post : string) : occursIn s (s ++ post).
Proof. now exists EmptyString, post. Qed.

Lemma includes_occurs (needle s : string) : occursIn needle s -> JS.includes s needle = true.
Proof.
  intros (before & after & ->).
  induction before as [|c before IH]; cbn [append].
  - apply includes_prefix, prefix_app.
  - now apply includes_tail.
Qed.

(* ================================================================== *)
(** ** The records of a scan *)
(* ================================================================== *)

(** A scanning loop that returns has pushed, in order, what each turn
    pushes on its own, and issued what each turn issues on its own. *)

Lemma forEach_run {A B} (body : A -> Eff (option B)) (xs : list A) :
  (forall x, parametric (body x)) ->
  forall acc log log' out,
    forEach body xs acc log = (log', Returned out) ->
    out = (acc ++ flat_map (pushedBy body) xs)%list
    /\ log' = (log ++ flat_map (fun x => fst (body x [])) xs)%list
    /\ Forall (fun x => exists r, snd (body x []) = Returned r) xs.
Proof.
  intros Hpar. induction xs as [|x xs IH]; intros acc log log' out; cbn [forEach flat_map].
  - unfold ret. intros [= <- <-]. now rewrite !List.app_nil_r.
  - unfold ebind. rewrite (Hpar x log).
    unfold pushedBy at 1.
    destruct (body x []) as [evs [pushed|err]] eqn:E; cbn [fst snd]; [|discriminate].
    intros Hrun. destruct (IH _ _ _ _ Hrun) as (-> & -> & HF).
    split; [|split].
    + destruct pushed; now rewrite <- ?List.app_assoc.
    + now rewrite List.app_assoc.
    + constructor; [|exact HF]. rewrite E. now eexists.
Qed.

Lemma In_pushedBy {A B} (body : A -> Eff (option B)) (xs : list A) (b : B) :
  In b (flat_map (pushedBy body) xs)
  <-> exists x, In x xs /\ snd (body x []) = Returned (Some b).
Proof.
  rewrite in_flat_map. split; intros (x & Hin & H); exists x; (split; [exact Hin|]).
  - unfold pushedBy in H. destruct (snd (body x [])) as [[b'|]|]; try contradiction.
    destruct H as [<-|[]]. reflexivity.
  - unfold pushedBy. rewrite H. now left.
Qed.

Lemma forEach_nothing {A B} (body : A -> Eff (option B)) (xs : list A) :
  Forall (fun x => forall log, body x log = (log, Returned None)) xs ->
  forall acc log, forEach body xs acc log = (log, Returned acc).
Proof.
  induction 1 as [|x xs Hx _ IH]; intros acc log; cbn [forEach]; [reflexivity|].
  unfold ebind. rewrite Hx. apply IH.
Qed.

(** What a record says about the turn that pushed it. *)

Lemma checkNpmEntry_shape (w : World) (dryRun : bool) (pkg : packageJson)
    (depName version : string) (log log' : list event) (d : depInfo) :
  checkNpmEntry w dryRun pkg (depName, version) log = (log', Returned (Some d)) ->
  name d = depName
  /\ getLatestNpmVersion w depName = Some (latestVersion d)
  /\ updateType d
     = getUpdateType (Some (JS.keep isVersionChar version)) (Some (latestVersion d))
  /\ type d = (if JS.truthy (sectionEntry "dependencies" depName pkg)
               then dependency else devDependency)
  /\ securityCheck d
     = (if dryRun then None
        else Some (verdictOf w depName (JS.keep isVersionChar version)
                             (latestVersion d) "npm"))
  /\ log' = (if dryRun then log
             else (log ++ [SecurityQuery depName (JS.keep isVersionChar version)
                                         (latestVersion d) "npm"])%list).
Proof.
  unfold checkNpmEntry.
  destruct (skippedExpression version); [discriminate|].
  unfold ebind, lift.
  destruct (isOutdated _ _ _) as [[|]|err]; try discriminate.
  destruct (getLatestNpmVersion w depName) as [latest|]; [|discriminate].
  rewrite pushDepInfo_run. intros [= <- <-]. cbn. repeat split; reflexivity.
Qed.

Lemma checkPythonLine_shape (w : World) (dryRun : bool) (line : string)
    (log log' : list event) (d : depInfo) :
  checkPythonLine w dryRun line log = (log', Returned (Some d)) ->
  exists operator version,
    matchRequirement line = Some (name d, operator, version)
    /\ getLatestPypiVersion w (name d) = Some (latestVersion d)
    /\ updateType d = getUpdateType (Some version) (Some (latestVersion d))
    /\ type d = dependency
    /\ securityCheck d
       = (if dryRun then None
          else Some (verdictOf w (name d) version (latestVersion d) "pypi"))
    /\ log' = (if dryRun then log
               else (log ++ [SecurityQuery (name d) version (latestVersion d) "pypi"])%list).
Proof.
  unfold checkPythonLine.
  destruct (skippedLine line); [discriminate|].
  destruct (matchRequirement line) as [[[depName operator] version]|]; [|discriminate].
  unfold tryCatch, ebind, lift, throw.
  destruct (isOutdated _ _ _) as [[|]|err]; try discriminate.
  destruct (getLatestPypiVersion w depName) as [latest|] eqn:El; [|discriminate].
  rewrite pushDepInfo_run. intros [= <- <-]. cbn.
  exists operator, version. repeat split; try reflexivity. exact El.
Qed.

Lemma checkNpmEntry_none (w : World) (dryRun : bool) (pkg : packageJson)
    (entry : string * string) (log log' : list event) :
  checkNpmEntry w dryRun pkg entry log = (log', Returned None) -> log' = log.
Proof.
  unfold checkNpmEntry. destruct entry as [depName version].
  destruct (skippedExpression version); [unfold ret; congruence|].
  unfold ebind, lift.
  destruct (isOutdated _ _ _) as [[|]|err]; try discriminate.
  - destruct (getLatestNpmVersion w depName) as [latest|]; [|unfold ret; congruence].
    rewrite pushDepInfo_run. discriminate.
  - unfold ret; congruence.
Qed.

Lemma checkPythonLine_none (w : World) (dryRun : bool) (line : string)
    (log log' : list event) :
  checkPythonLine w dryRun line log = (log', Returned None) -> log' = log.
Proof.
  unfold checkPythonLine.
  destruct (skippedLine line); [unfold ret; congruence|].
  destruct (matchRequirement line) as [[[depName operator] version]|];
    [|unfold ret; congruence].
  unfold tryCatch, ebind, lift, throw.
  destruct (isOutdated _ _ _) as [[|]|err]; try discriminate.
  - destruct (getLatestPypiVersion w depName) as [latest|]; [|unfold ret; congruence].
    rewrite pushDepInfo_run. discriminate.
  - unfold ret; congruence.
Qed.

Lemma checkDependencies_records (P : depInfo -> Prop) (w : World) (dryRun : bool) (f : file) :
  (forall pkg depName version log log' d,
      checkNpmEntry w dryRun pkg (depName, version) log = (log', Returned (Some d)) -> P d) ->
  (forall line log log' d,
      checkPythonLine w dryRun line log = (log', Returned (Some d)) -> P d) ->
  forall log log' outdated,
    checkDependencies w dryRun f log = (log', Returned outdated) -> Forall P outdated.
Proof.
  intros Hnpm Hpy log log' outdated. unfold checkDependencies.
  destruct (content f) as [[pkg|]|text].
  - intros Hrun. eapply forEach_Forall; [|constructor|exact Hrun].
    intros [n v] l l' d _ Hb. eapply Hnpm. exact Hb.
  - discriminate.
  - intros Hrun. eapply forEach_Forall; [|constructor|exact Hrun].
    intros line l l' d _ Hb. eapply Hpy. exact Hb.
Qed.

Lemma records_classified (w : World) (dryRun : bool) (f : file)
    (log log' : list event) (outdated : list depInfo) :
  checkDependencies w dryRun f log = (log', Returned outdated) ->
  Forall (fun d => updateType d <> unknown) outdated.
Proof.
  apply checkDependencies_records.
  - intros pkg n v l l' d H. apply checkNpmEntry_shape in H as (_ & _ & -> & _).
    intros E. apply getUpdateType_unknown in E as [E|E]; discriminate.
  - intros line l l' d H. apply checkPythonLine_shape in H as (o & v & _ & _ & -> & _).
    intros E. apply getUpdateType_unknown in E as [E|E]; discriminate.
Qed.

Lemma records_verdict (w : World) (dryRun : bool) (f : file)
    (log log' : list event) (outdated : list depInfo) :
  checkDependencies w dryRun f log = (log', Returned outdated) ->
  Forall (fun d => isSkippedDep d = dryRun) outdated.
Proof.
  apply checkDependencies_records.
  - intros pkg n v l l' d H. apply checkNpmEntry_shape in H as (_ & _ & _ & _ & E & _).
    unfold isSkippedDep. rewrite E. now destruct dryRun.
  - intros line l l' d H.
    apply checkPythonLine_shape in H as (o & v & _ & _ & _ & _ & E & _).
    unfold isSkippedDep. rewrite E. now destruct dryRun.
Qed.

Lemma forEach_queries {A} (body : A -> Eff (option depInfo)) (dryRun : bool) (xs : list A) :
  (forall x log' d, body x [] = (log', Returned (Some d)) ->
                    map queried log'
                    = if dryRun then [] else [Some (name d, latestVersion d)]) ->
  (forall x log', body x [] = (log', Returned None) -> log' = []) ->
  Forall (fun x => exists r, snd (body x []) = Returned r) xs ->
  map queried (flat_map (fun x => fst (body x [])) xs)
  = if dryRun then []
    else map (fun d => Some (name d, latestVersion d)) (flat_map (pushedBy body) xs).
Proof.
  intros Hsome Hnone. induction 1 as [|x xs [r Hx] _ IH]; cbn [flat_map].
  - now destruct dryRun.
  - rewrite !map_app, IH. unfold pushedBy at 2.
    destruct (body x []) as [evs [[d|]|err]] eqn:E; cbn [fst snd] in *; try discriminate.
    + rewrite (Hsome x evs d E). now destruct dryRun.
    + rewrite (Hnone x evs E). now destruct dryRun.
Qed.

(** X1.  A scan that returns has asked the oracle one question for each
    dependency it reports, in the order of the report, about the reported
    package and its latest version; it has asked nothing else, and
    nothing at all in a dry run. *)
Theorem one_query_per_record (w : World) (dryRun : bool) (f : file)
    (log log' : list event) (outdated : list depInfo) :
  checkDependencies w dryRun f log = (log', Returned outdated) ->
  exists queries,
    log' = (log ++ queries)%list
    /\ map queried queries
       = if dryRun then []
         else map (fun d => Some (name d, latestVersion d)) outdated.
Proof.
  unfold checkDependencies. destruct (content f) as [[pkg|]|text]; [|discriminate|].
  - intros Hrun.
    destruct (forEach_run _ _ (parametric_checkNpmEntry w dryRun pkg) _ _ _ _ Hrun)
      as (-> & -> & HF).
    eexists. split; [reflexivity|]. cbn [app].
    apply forEach_queries; [| |exact HF].
    + intros [n v] l d H. apply checkNpmEntry_shape in H as (<- & _ & _ & _ & _ & ->).
      now destruct dryRun.
    + intros x l H. now apply checkNpmEntry_none in H.
  - intros Hrun.
    destruct (forEach_run _ _ (parametric_checkPythonLine w dryRun) _ _ _ _ Hrun)
      as (-> & -> & HF).
    eexists. split; [reflexivity|]. cbn [app].
    apply forEach_queries; [| |exact HF].
    + intros line l d H.
      apply checkPythonLine_shape in H as (o & v & _ & _ & _ & _ & _ & ->).
      now destruct dryRun.
    + intros x l H. now apply checkPythonLine_none in H.
Qed.

Lemma one_query_per_record_witness :
  exists queries outdated,
    checkDependencies exampleWorld false exampleRequirements []
    = (queries, Returned outdated)
    /\ map name outdated = ["flask"; "requests"]
    /\ map queried queries = [Some ("flask", "1.2.0"); Some ("requests", "3.0.0")].
Proof.
  destruct (checkDependencies exampleWorld false exampleRequirements [])
    as [queries [outdated|err]] eqn:E; [|vm_compute in E; discriminate].
  exists queries, outdated. split; [reflexivity|].
  destruct (one_query_per_record _ _ _ _ _ _ E) as (queries' & Hlog & Hq).
  cbn [app] in Hlog. subst queries'. rewrite Hq.
  vm_compute in E. injection E as _ <-. split; reflexivity.
Defined.

(** *** A [package.json] *)

Lemma lookup_In {V} (key : string) (v : V) (members : list (string * V)) :
  lookup key members = Some v -> In (key, v) members.
Proof.
  induction members as [|[k u] rest IH]; cbn; [discriminate|].
  destruct (String.eqb_spec k key) as [->|Hk].
  - intros [= ->]. now left.
  - intros H. right. now apply IH.
Qed.

Lemma lookup_spread {V} (key : string) (source target : list (string * V)) :
  NoDup (map fst source) ->
  lookup key (spread target source)
  = match lookup key source with
    | Some v => Some v
    | None => lookup key target
    end.
Proof.
  unfold spread. revert target.
  induction source as [|[k v] rest IH]; intros target Hnd; cbn [fold_left lookup fst snd];
    [reflexivity|].
  inversion Hnd as [|? ? Hnotin Hrest]; subst.
  rewrite (IH _ Hrest).
  destruct (String.eqb_spec k key) as [->|Hk].
  - destruct (lookup key rest) as [v'|] eqn:E.
    + exfalso. apply Hnotin. apply lookup_In in E.
      change key with (fst (key, v')). now apply in_map.
    + apply lookup_put_same.
  - destruct (lookup key rest); [reflexivity|].
    apply lookup_put_other. congruence.
Qed.

Lemma sublist_names {A} (g : A -> list depInfo) (key : A -> string) (xs : list A) :
  (forall x d, In d (g x) -> g x = [d] /\ name d = key x) ->
  NoDup (map key xs) ->
  NoDup (map name (flat_map g xs))
  /\ forall d, In d (flat_map g xs) -> In (name d) (map key xs).
Proof.
  intros Hg. induction xs as [|x xs IH]; cbn [map flat_map]; intros Hnd.
  - split; [constructor|intros d []].
  - inversion Hnd as [|? ? Hnotin Hrest]; subst.
    destruct (IH Hrest) as [IH1 IH2].
    assert (Hsub : forall d, In d (g x ++ flat_map g xs)%list ->
                             In (name d) (key x :: map key xs)).
    { intros d Hd. apply in_app_iff in Hd as [Hd|Hd].
      - left. symmetry. now apply Hg.
      - right. now apply IH2. }
    split; [|exact Hsub].
    destruct (g x) as [|d ds] eqn:E; [exact IH1|].
    destruct (Hg x d) as [Hone Hname]; [rewrite E; now left|].
    rewrite E in Hone. injection Hone as ->. cbn [app map].
    constructor; [|exact IH1].
    intros Hin. apply in_map_iff in Hin as (d' & Hn & Hd').
    apply Hnotin. rewrite <- Hname, <- Hn. now apply IH2.
Qed.

Lemma pushedBy_checkNpmEntry (w : World) (dryRun : bool) (pkg : packageJson)
    (entry : string * string) (d : depInfo) :
  In d (pushedBy (checkNpmEntry w dryRun pkg) entry) ->
  pushedBy (checkNpmEntry w dryRun pkg) entry = [d] /\ name d = fst entry.
Proof.
  unfold pushedBy.
  destruct (checkNpmEntry w dryRun pkg entry []) as [evs [[d'|]|err]] eqn:E;
    cbn [snd]; try contradiction.
  intros [<-|[]]. split; [reflexivity|].
  destruct entry as [n v]. now apply checkNpmEntry_shape in E as (-> & _).
Qed.

Lemma package_scan_names (w : World) (dryRun : bool) (filePath : string)
    (pkg : packageJson) (log log' : list event) (outdated : list depInfo) :
  checkDependencies w dryRun {| path := filePath; content := npm (Some pkg) |} log
  = (log', Returned outdated) ->
  NoDup (map name outdated)
  /\ forall d, In d outdated ->
               In (name d, currentVersion d) (mergedDependencies pkg)
               /\ type d = (if JS.truthy (sectionEntry "dependencies" (name d) pkg)
                            then dependency else devDependency).
Proof.
  unfold checkDependencies. cbn [content]. intros Hrun.
  destruct (forEach_run _ _ (parametric_checkNpmEntry w dryRun pkg) _ _ _ _ Hrun)
    as (-> & _ & _). cbn [app].
  split.
  - apply (sublist_names _ fst); [apply pushedBy_checkNpmEntry|].
    apply NoDup_mergedDependencies.
  - intros d Hd. apply In_pushedBy in Hd as ([n v] & Hin & Hd).
    apply snd_run in Hd.
    destruct (checkNpmEntry_record _ _ _ _ _ _ _ _ Hd) as (<- & <- & _).
    split; [exact Hin|].
    now apply checkNpmEntry_shape in Hd as (_ & _ & _ & -> & _).
Qed.

(** X2.  A scan of a [package.json] reports a package at most once: the
    names of the records are pairwise different, each is declared in
    [dependencies] or [devDependencies], and there are no more records
    than declared names. *)
Theorem package_scan_reports_once (w : World) (dryRun : bool) (filePath : string)
    (pkg : packageJson) (log log' : list event) (outdated : list depInfo) :
  checkDependencies w dryRun {| path := filePath; content := npm (Some pkg) |} log
  = (log', Returned outdated) ->
  NoDup (map name outdated)
  /\ (forall d, In d outdated -> In (name d) (map fst (mergedDependencies pkg)))
  /\ List.length outdated <= List.length (mergedDependencies pkg).
Proof.
  intros Hrun. destruct (package_scan_names _ _ _ _ _ _ _ Hrun) as [Hnd Hin].
  split; [exact Hnd|]. split.
  - intros d Hd. destruct (Hin d Hd) as [H _].
    change (name d) with (fst (name d, currentVersion d)). now apply in_map.
  - rewrite <- (length_map name outdated), <- (length_map fst (mergedDependencies pkg)).
    apply NoDup_incl_length; [exact Hnd|].
    intros n Hn. apply in_map_iff in Hn as (d & <- & Hd).
    destruct (Hin d Hd) as [H _].
    change (name d) with (fst (name d, currentVersion d)). now apply in_map.
Qed.

Lemma package_scan_reports_once_witness :
  exists queries outdated,
    checkDependencies exampleWorld true
      {| path := "package.json"; content := npm (Some twiceDeclared) |} []
    = (queries, Returned outdated)
    /\ NoDup (map name outdated)
    /\ List.length outdated <= 1.
Proof.
  destruct (checkDependencies exampleWorld true
              {| path := "package.json"; content := npm (Some twiceDeclared) |} [])
    as [queries [outdated|err]] eqn:E; [|vm_compute in E; discriminate].
  exists queries, outdated. split; [reflexivity|].
  destruct (package_scan_reports_once _ _ _ _ _ _ _ E) as (Hnd & _ & Hlen).
  split; [exact Hnd|exact Hlen].
Defined.

Lemma valueAfter_others (key depName : string) (ds : list depInfo) (v : string) :
  ~ In depName (map name ds) -> valueAfter key depName ds v = v.
Proof.
  unfold valueAfter. revert v.
  induction ds as [|d rest IH]; intros v Hnotin; [reflexivity|].
  cbn [fold_left]. rewrite stepValue_other.
  - apply IH. intros H. apply Hnotin. now right.
  - intros [= _ E]. apply Hnotin. now left.
Qed.

Lemma valueAfter_unique (key depName : string) (ds : list depInfo) (d : depInfo)
    (v : string) :
  NoDup (map name ds) -> In d ds ->
  depSection d = key -> name d = depName -> v <> EmptyString ->
  valueAfter key depName ds v = newValue d.
Proof.
  intros Hnd Hin Hk Hn Hv.
  induction ds as [|d0 rest IH]; [contradiction|].
  cbn [map] in Hnd. inversion Hnd as [|? ? Hnotin Hrest]; subst.
  change (valueAfter (depSection d) (name d) (d0 :: rest) v)
    with (valueAfter (depSection d) (name d) rest
            (stepValue (depSection d) (name d) d0 v)).
  destruct Hin as [->|Hin].
  - unfold stepValue. rewrite !String.eqb_refl, (truthy_nonempty v Hv). cbn [andb].
    now apply valueAfter_others.
  - rewrite stepValue_other.
    + now apply IH.
    + intros [= _ E]. apply Hnotin. rewrite E. now apply in_map.
Qed.

(** X3.  A package declared in [dependencies] and in [devDependencies]
    alike is compared by its [devDependencies] expression and reported as
    a production dependency; the rewrite then puts the latest version,
    with the prefix of the [devDependencies] expression, into
    [dependencies], and leaves [devDependencies] as it was. *)
Theorem declared_in_both_sections (w : World) (dryRun : bool) (filePath : string)
    (pkg : packageJson) (dev : list (string * string))
    (depName declared devDeclared : string)
    (log log' : list event) (outdated : list depInfo) (d : depInfo) :
  sectionEntry "dependencies" depName pkg = Some declared ->
  declared <> EmptyString ->
  section "devDependencies" pkg = Some dev ->
  NoDup (map fst dev) ->
  lookup depName dev = Some devDeclared ->
  checkDependencies w dryRun {| path := filePath; content := npm (Some pkg) |} log
  = (log', Returned outdated) ->
  In d outdated -> name d = depName ->
  currentVersion d = devDeclared
  /\ type d = dependency
  /\ sectionEntry "dependencies" depName (updateNpm pkg outdated)
     = Some (versionPrefix devDeclared ++ latestVersion d)
  /\ sectionEntry "devDependencies" depName (updateNpm pkg outdated) = Some devDeclared.
Proof.
  intros Hdep Hne Hsec Hnd Hdev Hrun Hin Hname.
  destruct (package_scan_names _ _ _ _ _ _ _ Hrun) as [Hnames Hrec].
  destruct (Hrec d Hin) as [Hmerged Htype]. rewrite Hname in *.
  rewrite Hdep, (truthy_nonempty declared Hne) in Htype.
  assert (Hcur : currentVersion d = devDeclared).
  { assert (Hl : lookup depName (mergedDependencies pkg) = Some devDeclared).
    { unfold mergedDependencies. rewrite Hsec, lookup_spread, Hdev; auto. }
    apply lookup_In in Hl.
    apply (NoDup_keys_unique (mergedDependencies pkg) depName);
      [apply NoDup_mergedDependencies|assumption|assumption]. }
  split; [exact Hcur|]. split; [exact Htype|]. split.
  - rewrite sectionEntry_updateNpm, Hdep. cbn [option_map]. f_equal.
    rewrite (valueAfter_unique "dependencies" depName outdated d declared); auto.
    + unfold newValue. now rewrite Hcur.
    + unfold depSection. now rewrite Htype.
  - rewrite updateNpm_untouched.
    + unfold sectionEntry. now rewrite Hsec.
    + apply Forall_forall. intros d' Hd' [= Hk Hn].
      assert (d' = d).
      { clear -Hnames Hd' Hin Hn Hname. rewrite <- Hname in Hn. clear Hname.
        induction outdated as [|x xs IH]; [contradiction|].
        cbn [map] in Hnames. inversion Hnames as [|? ? Hnotin Hrest]; subst.
        destruct Hd' as [->|Hd'], Hin as [->|Hin]; try reflexivity.
        - exfalso. apply Hnotin. rewrite Hn. now apply in_map.
        - exfalso. apply Hnotin. rewrite <- Hn. now apply in_map.
        - now apply IH. }
      subst d'. unfold depSection in Hk. rewrite Htype in Hk. discriminate.
Qed.

Lemma declared_in_both_sections_witness :
  exists outdated d,
    outdatedOf exampleWorld true
      {| path := "package.json"; content := npm (Some twiceDeclared) |}
    = Returned outdated
    /\ In d outdated
    /\ currentVersion d = "~1.0.0"
    /\ type d = dependency
    /\ sectionEntry "dependencies" "a" (updateNpm twiceDeclared outdated) = Some "~1.3.0"
    /\ sectionEntry "devDependencies" "a" (updateNpm twiceDeclared outdated)
       = Some "~1.0.0".
Proof.
  pose (d := {| name := "a"; currentVersion := "~1.0.0"; latestVersion := "1.3.0";
                type := dependency; updateType := minor; securityCheck := None |}).
  exists [d], d. split; [vm_compute; reflexivity|]. split; [now left|].
  apply (declared_in_both_sections exampleWorld true "package.json" twiceDeclared
           [("a", "~1.0.0")] "a" "^1.2.0" "~1.0.0" [] [] [d] d).
  - reflexivity.
  - discriminate.
  - reflexivity.
  - repeat constructor. intros [].
  - reflexivity.
  - vm_compute. reflexivity.
  - now left.
  - reflexivity.
Defined.

(* ================================================================== *)
(** ** Requirement lines and a second scan *)
(* ================================================================== *)

Lemma matchRequirement_built (depName operator version tail : string) :
  JS.allChars isNameChar depName = true -> depName <> EmptyString ->
  JS.allChars isOperatorChar operator = true -> operator <> EmptyString ->
  JS.allChars isNameChar version = true -> version <> EmptyString ->
  match tail with
  | EmptyString => True
  | String c _ => isNameChar c = false
  end ->
  matchRequirement (depName ++ operator ++ version ++ tail)
  = Some (depName, operator, version).
Proof.
  intros Hn Hne Ho Hoe Hv Hve Ht. unfold matchRequirement.
  assert (Hfirst : match (operator ++ version ++ tail)%string with
                   | EmptyString => True
                   | String c _ => isNameChar c = false
                   end).
  { destruct operator as [|c o]; [congruence|]. cbn.
    cbn in Ho. apply andb_true_iff in Ho as [Hc _]. now apply operator_not_name. }
  rewrite (span_app isNameChar depName _ Hn Hfirst).
  assert (Hsecond : match (version ++ tail)%string with
                    | EmptyString => True
                    | String c _ => isOperatorChar c = false
                    end).
  { destruct version as [|c v]; [congruence|]. cbn.
    cbn in Hv. apply andb_true_iff in Hv as [Hc _].
    destruct (isOperatorChar c) eqn:E; [|reflexivity].
    apply operator_not_name in E. congruence. }
  rewrite (span_app isOperatorChar operator _ Ho Hsecond).
  rewrite (span_app isNameChar version tail Hv Ht).
  destruct depName; [congruence|]. destruct operator; [congruence|].
  destruct version; [congruence|]. reflexivity.
Qed.

(** X4.  The pattern of a requirement matches exactly the lines that
    begin with a name, an operator and a version, none of them empty: the
    name and the version are made of letters, digits, [_], [.] and [-],
    the operator of [<], [>], [=], [!] and [~], and the version goes on
    as far as its characters do.  What follows the version is not looked
    at. *)
Theorem requirement_pattern (line depName operator version : string) :
  matchRequirement line = Some (depName, operator, version)
  <-> exists tail,
        line = depName ++ operator ++ version ++ tail
        /\ JS.allChars isNameChar depName = true /\ depName <> EmptyString
        /\ JS.allChars isOperatorChar operator = true /\ operator <> EmptyString
        /\ JS.allChars isNameChar version = true /\ version <> EmptyString
        /\ match tail with
           | EmptyString => True
           | String c _ => isNameChar c = false
           end.
Proof.
  split.
  - unfold matchRequirement.
    destruct (JS.span isNameChar line) as [n r1] eqn:E1.
    destruct (JS.span isOperatorChar r1) as [o r2] eqn:E2.
    destruct (JS.span isNameChar r2) as [v r3] eqn:E3.
    destruct n as [|cn n']; [discriminate|].
    destruct o as [|co o']; [discriminate|].
    destruct v as [|cv v']; [discriminate|].
    intros [= <- <- <-].
    apply span_spec in E1 as (-> & H1 & _).
    apply span_spec in E2 as (-> & H2 & _).
    apply span_spec in E3 as (-> & H3 & Ht).
    exists r3. repeat split; try assumption; discriminate.
  - intros (tail & -> & Hn & Hne & Ho & Hoe & Hv & Hve & Ht).
    now apply matchRequirement_built.
Qed.

Lemma requirement_pattern_witness :
  matchRequirement "requests>=2.0.0,<4.0.0" = Some ("requests", ">=", "2.0.0").
Proof.
  apply requirement_pattern. exists ",<4.0.0".
  repeat split; try reflexivity; discriminate.
Defined.

Lemma skippedLine_name (depName rest : string) :
  JS.allChars isNameChar depName = true -> depName <> EmptyString ->
  skippedLine (depName ++ rest) = false.
Proof.
  destruct depName as [|c n]; [congruence|]. intros H _.
  cbn in H. apply andb_true_iff in H as [Hc _].
  unfold skippedLine, JS.isBlank. cbn [append JS.allChars].
  rewrite startsWith_char.
  destruct (Ascii.eqb_spec c "#") as [->|_]; [discriminate|].
  destruct (JS.isSpace c) eqn:Es; [|reflexivity].
  exfalso. revert Hc Es.
  destruct c as [[|] [|] [|] [|] [|] [|] [|] [|]]; cbn; congruence.
Qed.

Lemma triple_ltb_irrefl (a : N * N * N) : semver.triple_ltb a a = false.
Proof.
  destruct (semver.triple_ltb a a) eqn:E; [|reflexivity].
  apply triple_ltb_lt in E. now apply triple_lt_irrefl in E.
Qed.

Lemma checkPythonLine_latest (w : World) (dryRun : bool) (line : string)
    (log log' : list event) (d : depInfo) :
  checkPythonLine w dryRun line log = (log', Returned (Some d)) ->
  getLatestPypiVersion w (name d) = Some (latestVersion d)
  /\ latestVersion d <> EmptyString
  /\ exists l, semver.parse (Some (makeVersionSemverCompatible (Some (latestVersion d))))
               = Some l.
Proof.
  unfold checkPythonLine.
  destruct (skippedLine line); [discriminate|].
  destruct (matchRequirement line) as [[[depName operator] version]|]; [|discriminate].
  unfold tryCatch, ebind, lift, throw.
  destruct (isOutdated _ _ _) as [[|]|err] eqn:E; try discriminate.
  destruct (getLatestPypiVersion w depName) as [latest|] eqn:El; [|discriminate].
  rewrite pushDepInfo_run. intros [= _ <-]. cbn.
  apply isOutdated_true in E as [Ht (c & l & _ & Hl & _)].
  split; [exact El|]. split; [intros ->; discriminate|]. now exists l.
Qed.

Lemma name_not_operator (c : ascii) : isNameChar c = true -> isOperatorChar c = false.
Proof.
  intros H. destruct (isOperatorChar c) eqn:E; [|reflexivity].
  apply operator_not_name in E. congruence.
Qed.

Lemma nameChars_plain (d : depInfo) :
  JS.allChars isNameChar (latestVersion d) = true -> plainLatest d = true.
Proof.
  intros H. unfold plainLatest, lacks.
  rewrite (allChars_impl _ _ _ name_not_newline H). cbn [andb].
  destruct (latestVersion d) as [|c s]; [reflexivity|].
  cbn in H. apply andb_true_iff in H as [Hc _].
  now rewrite (name_not_operator c Hc).
Qed.

(** X5.  Once a requirements file is rewritten with every update a scan
    has found, a second scan of the rewritten file finds nothing
    outdated, provided the latest versions are made of the characters the
    pattern allows in a version. *)
Theorem requirements_rescan_finds_nothing (w : World) (dryRun : bool)
    (filePath text : string) (outdated : list depInfo) :
  outdatedOf w dryRun {| path := filePath; content := python text |} = Returned outdated ->
  Forall (fun d => JS.allChars isNameChar (latestVersion d) = true) outdated ->
  outdatedOf w dryRun
    {| path := filePath; content := python (updatePython text outdated) |}
  = Returned [].
Proof.
  unfold outdatedOf, checkDependencies. cbn [content]. intros Hrun Hnames.
  apply snd_run in Hrun.
  destruct (forEach_run _ _ (parametric_checkPythonLine w dryRun) _ _ _ _ Hrun)
    as (Hout & _ & Hret). cbn [app] in Hout.
  assert (Hplain : forallb plainLatest outdated = true).
  { apply forallb_forall. intros d Hd. rewrite Forall_forall in Hnames.
    now apply nameChars_plain, Hnames. }
  assert (Hsplit : JS.split newline (updatePython text outdated)
                   = map (rewriteLine outdated) (JS.split newline text)).
  { unfold updatePython. apply split_join.
    - intros E. apply map_eq_nil in E. now apply split_nonempty in E.
    - apply Forall_map. eapply Forall_impl; [|apply split_lacks_each].
      intros line. now apply rewriteLine_lacks_newline. }
  rewrite Hsplit. rewrite forEach_nothing; [reflexivity|].
  apply Forall_map. rewrite Forall_forall in Hret |- *.
  intros line Hline log. specialize (Hret line Hline) as [r Hr].
  destruct (skippedLine line) eqn:Hskip.
  { rewrite rewriteLine_unmatched by now left.
    unfold checkPythonLine. now rewrite Hskip. }
  destruct (matchRequirement line) as [[[depName operator] version]|] eqn:Hm.
  2:{ rewrite rewriteLine_unmatched by now right.
      unfold checkPythonLine. now rewrite Hskip, Hm. }
  destruct (find (fun d => String.eqb (name d) depName) outdated) as [dep|] eqn:Hfind.
  - rewrite (rewriteLine_approved _ _ _ _ _ dep Hskip Hm Hfind).
    apply find_some in Hfind as [Hdep Hname]. apply String.eqb_eq in Hname.
    rewrite Forall_forall in Hnames. specialize (Hnames dep Hdep).
    rewrite Hout in Hdep. apply In_pushedBy in Hdep as (line' & _ & Hdep).
    apply snd_run in Hdep. apply checkPythonLine_latest in Hdep as (Hlatest & Hne & l & Hl).
    apply matchRequirement_spec in Hm as (tail & _ & Hn & Ho & _ & Hnn & Hon & _).
    assert (Hm2 : matchRequirement (depName ++ operator ++ latestVersion dep)
                  = Some (depName, operator, latestVersion dep)).
    { pose proof (matchRequirement_built depName operator (latestVersion dep) ""
                    Hn Hnn Ho Hon Hnames Hne I) as H.
      now rewrite append_empty_r in H. }
    unfold checkPythonLine.
    rewrite (skippedLine_name depName _ Hn Hnn), Hm2.
    rewrite <- Hname, Hlatest.
    unfold tryCatch, ebind, lift, isOutdated, semver.gt.
    destruct (latestVersion dep) as [|c s] eqn:El; [congruence|].
    cbn [JS.truthy]. rewrite Hl, triple_ltb_irrefl. reflexivity.
  - rewrite (rewriteLine_unapproved _ _ _ _ _ Hm Hfind).
    destruct r as [d|].
    + exfalso. assert (Hin : In d outdated).
      { rewrite Hout. apply In_pushedBy. now exists line. }
      apply snd_run in Hr. apply checkPythonLine_shape in Hr as (o & v & Hm' & _).
      rewrite Hm in Hm'. injection Hm' as Hn _ _.
      apply (find_none _ _ Hfind) in Hin. rewrite <- Hn, String.eqb_refl in Hin.
      discriminate.
    + rewrite (parametric_checkPythonLine w dryRun line log), Hr.
      apply snd_run in Hr. apply checkPythonLine_none in Hr. rewrite Hr.
      now rewrite List.app_nil_r.
Qed.

Lemma requirements_rescan_finds_nothing_witness :
  exists outdated,
    outdatedOf exampleWorld true exampleRequirements = Returned outdated
    /\ map name outdated = ["flask"; "requests"]
    /\ outdatedOf exampleWorld true
         {| path := "requirements.txt";
            content := python (updatePython
                                 (lines ["flask==1.0.0"; "# comment"; "requests>=2.0.0"; ""])
                                 outdated) |}
       = Returned [].
Proof.
  destruct (outdatedOf exampleWorld true exampleRequirements) as [outdated|err] eqn:E;
    [|vm_compute in E; discriminate].
  exists outdated. split; [reflexivity|].
  assert (Hagain := requirements_rescan_finds_nothing exampleWorld true "requirements.txt"
                      (lines ["flask==1.0.0"; "# comment"; "requests>=2.0.0"; ""])
                      outdated E).
  vm_compute in E. injection E as <-.
  split; [reflexivity|]. apply Hagain. repeat constructor.
Defined.

(** *** Objects with distinct keys *)

Lemma lookup_absent {V} (key : string) (members : list (string * V)) :
  ~ In key (map fst members) -> lookup key members = None.
Proof.
  induction members as [|[k v] rest IH]; cbn; [reflexivity|].
  intros H. destruct (String.eqb_spec k key) as [->|Hk]; [exfalso; auto|].
  apply IH. auto.
Qed.

Lemma lookup_present {V} (key : string) (v : V) (members : list (string * V)) :
  NoDup (map fst members) -> In (key, v) members -> lookup key members = Some v.
Proof.
  induction members as [|[k u] rest IH]; cbn; [intros _ []|].
  intros H. inversion H as [|? ? Hnotin Hrest]; subst.
  intros [[= -> ->]|Hin]; [now rewrite String.eqb_refl|].
  destruct (String.eqb_spec k key) as [->|Hk]; [|now apply IH].
  exfalso. apply Hnotin. change key with (fst (key, v)). now apply in_map.
Qed.

(** An object with distinct keys is known by its keys, in order, and
    the value of each. *)
Lemma members_ext {V} (a b : list (string * V)) :
  NoDup (map fst a) -> map fst a = map fst b ->
  (forall key, lookup key a = lookup key b) -> a = b.
Proof.
  revert b. induction a as [|[k v] a IH]; intros [|[k' v'] b]; cbn;
    try discriminate; [reflexivity|].
  intros Hnd [= <- Hkeys] Hlook.
  inversion Hnd as [|? ? Hnotin Hrest]; subst.
  pose proof (Hlook k) as Hk. rewrite String.eqb_refl in Hk. injection Hk as <-.
  f_equal. apply IH; [exact Hrest|exact Hkeys|].
  intros key. specialize (Hlook key).
  destruct (String.eqb_spec k key) as [E|Hne]; [|exact Hlook].
  subst key. rewrite !lookup_absent; [reflexivity|now rewrite <- Hkeys|exact Hnotin].
Qed.

Lemma lookup_map_values {V} (g : string -> V -> V) (key : string)
    (members : list (string * V)) :
  lookup key (map (fun kv => (fst kv, g (fst kv) (snd kv))) members)
  = option_map (g key) (lookup key members).
Proof.
  induction members as [|[k v] rest IH]; cbn; [reflexivity|].
  destruct (String.eqb_spec k key) as [->|Hk]; [reflexivity|exact IH].
Qed.

Lemma put_absent {V} (key : string) (value : V) (members : list (string * V)) :
  ~ In key (map fst members) -> put key value members = (members ++ [(key, value)])%list.
Proof.
  induction members as [|[k v] rest IH]; cbn; [reflexivity|].
  intros H. destruct (String.eqb_spec k key) as [->|Hk]; [exfalso; auto|].
  rewrite IH; auto.
Qed.

(** Spreading an object over one it shares no key with appends it. *)
Lemma spread_app {V} (target source : list (string * V)) :
  NoDup (map fst (target ++ source)) -> spread target source = (target ++ source)%list.
Proof.
  unfold spread. revert target.
  induction source as [|[k v] rest IH]; intros target H; cbn [fold_left fst snd].
  - now rewrite List.app_nil_r.
  - rewrite put_absent.
    + rewrite IH; rewrite <- List.app_assoc; [reflexivity|exact H].
    + rewrite map_app in H. cbn in H. apply NoDup_remove_2 in H.
      intros Hin. apply H. apply in_or_app. now left.
Qed.

Lemma mergedDependencies_app (pkg : packageJson) :
  NoDup (map fst (sectionMembers "dependencies" pkg
                  ++ sectionMembers "devDependencies" pkg)) ->
  mergedDependencies pkg
  = (sectionMembers "dependencies" pkg ++ sectionMembers "devDependencies" pkg)%list.
Proof.
  intros H. unfold mergedDependencies. fold (sectionMembers "dependencies" pkg).
  fold (sectionMembers "devDependencies" pkg).
  rewrite (spread_app [] (sectionMembers "dependencies" pkg)).
  - now apply spread_app.
  - cbn [app]. rewrite map_app in H. now apply NoDup_app_remove_r in H.
Qed.

(** *** The entries after a rewrite *)

Lemma lookup_sectionMembers (key depName : string) (pkg : packageJson) :
  lookup depName (sectionMembers key pkg) = sectionEntry key depName pkg.
Proof. unfold sectionMembers, sectionEntry. now destruct (section key pkg). Qed.

Lemma sectionMembers_keys_updateNpmDep (key : string) (pkg : packageJson) (d : depInfo) :
  map fst (sectionMembers key (updateNpmDep pkg d)) = map fst (sectionMembers key pkg).
Proof.
  rewrite updateNpmDep_alt.
  destruct (JS.truthy (sectionEntry (depSection d) (name d) pkg)) eqn:Ht; [|reflexivity].
  unfold setEntry, sectionEntry in *.
  destruct (section (depSection d) pkg) as [members|] eqn:Es; [|reflexivity].
  unfold sectionMembers.
  destruct (String.eqb_spec key (depSection d)) as [->|Hk].
  - rewrite section_put_same, Es. apply put_keys_present.
    destruct (lookup (name d) members); [discriminate|discriminate].
  - now rewrite section_put_other.
Qed.

Lemma sectionMembers_keys_updateNpm (key : string) (outdatedDeps : list depInfo)
    (pkg : packageJson) :
  map fst (sectionMembers key (updateNpm pkg outdatedDeps))
  = map fst (sectionMembers key pkg).
Proof.
  unfold updateNpm. revert pkg.
  induction outdatedDeps as [|d ds IH]; intros pkg; cbn [fold_left]; [reflexivity|].
  now rewrite IH, sectionMembers_keys_updateNpmDep.
Qed.

(** The rewrite keeps the entries of a member in place, each with the
    value the loop leaves it with. *)
Lemma sectionMembers_updateNpm (key : string) (outdatedDeps : list depInfo)
    (pkg : packageJson) :
  NoDup (map fst (sectionMembers key pkg)) ->
  sectionMembers key (updateNpm pkg outdatedDeps)
  = map (fun kv => (fst kv, valueAfter key (fst kv) outdatedDeps (snd kv)))
        (sectionMembers key pkg).
Proof.
  intros Hnd. apply members_ext.
  - now rewrite sectionMembers_keys_updateNpm.
  - rewrite sectionMembers_keys_updateNpm, map_map. reflexivity.
  - intros depName.
    rewrite lookup_sectionMembers, sectionEntry_updateNpm.
    rewrite (lookup_map_values (fun k v => valueAfter key k outdatedDeps v)).
    now rewrite lookup_sectionMembers.
Qed.

(** *** A second scan *)

Lemma keep_app (p : ascii -> bool) (a b : string) :
  JS.keep p (a ++ b) = JS.keep p a ++ JS.keep p b.
Proof.
  induction a as [|c a IH]; cbn; [reflexivity|].
  destruct (p c); cbn; now rewrite IH.
Qed.

Lemma keep_none (p : ascii -> bool) (s : string) :
  JS.allChars (fun c => negb (p c)) s = true -> JS.keep p s = EmptyString.
Proof.
  induction s as [|c s IH]; cbn; [reflexivity|].
  intros H. apply andb_true_iff in H as [Hc Hs]. apply negb_true_iff in Hc.
  now rewrite Hc, IH.
Qed.

Lemma keep_keep (p : ascii -> bool) (s : string) : JS.keep p (JS.keep p s) = JS.keep p s.
Proof. apply keep_all, keep_allChars. Qed.

(** The prefix of a declared expression leaves nothing behind among the
    characters of a version, unless it holds a dot. *)
Lemma keep_versionPrefix (declared : string) :
  lacks "." (versionPrefix declared) = true ->
  JS.keep isVersionChar (versionPrefix declared) = EmptyString.
Proof.
  unfold versionPrefix, lacks.
  destruct (JS.span _ declared) as [a b] eqn:E. cbn [fst].
  apply span_spec in E as (_ & Ha & _). intros Hdot.
  apply keep_none. revert Ha Hdot. clear.
  induction a as [|c a IH]; cbn; [reflexivity|].
  intros Ha Hdot. apply andb_true_iff in Ha as [Hc Ha].
  apply andb_true_iff in Hdot as [Hd Hdot].
  rewrite (IH Ha Hdot), andb_true_r. unfold isVersionChar, JS.isDot.
  apply negb_true_iff in Hc, Hd. now rewrite Hc, Hd.
Qed.

Lemma sanitizeVersion_keep (v : string) :
  v <> EmptyString ->
  sanitizeVersion (Some (JS.keep isVersionChar v)) = sanitizeVersion (Some v).
Proof.
  intros Hv. unfold sanitizeVersion at 2. rewrite (truthy_nonempty v Hv). cbn [negb].
  unfold sanitizeVersion.
  destruct (JS.keep isVersionChar v) as [|c s] eqn:E; [reflexivity|].
  cbn [JS.truthy negb]. rewrite <- E, keep_keep. reflexivity.
Qed.

(** An entry that is reported is not outdated once it is rewritten. *)
Lemma checkNpmEntry_settles (w : World) (dryRun : bool) (pkg pkg' : packageJson)
    (depName version : string) (log log' : list event) (d : depInfo) :
  checkNpmEntry w dryRun pkg (depName, version) log = (log', Returned (Some d)) ->
  lacks "." (versionPrefix version) = true ->
  version <> EmptyString
  /\ forall l, checkNpmEntry w dryRun pkg' (depName, versionPrefix version ++ latestVersion d) l
               = (l, Returned None).
Proof.
  unfold checkNpmEntry.
  destruct (skippedExpression version); [discriminate|].
  unfold ebind, lift.
  destruct (isOutdated _ _ _) as [[|]|err] eqn:E; try discriminate.
  destruct (getLatestNpmVersion w depName) as [latest|] eqn:El; [|discriminate].
  rewrite pushDepInfo_run. intros [= _ <-] Hdot. cbn [latestVersion].
  apply isOutdated_true in E as [Ht (c & l & Hc & Hl & Hlt)].
  assert (Hlatest : latest <> EmptyString) by (intros ->; discriminate).
  split.
  - intros ->. discriminate.
  - intros l0. destruct (skippedExpression _); [reflexivity|].
    rewrite keep_app, (keep_versionPrefix version Hdot). cbn [append].
    rewrite (sanitizeVersion_keep latest Hlatest).
    unfold isOutdated. rewrite Ht. unfold semver.gt. rewrite Hl, triple_ltb_irrefl.
    reflexivity.
Qed.

(** Whether an entry is passed over does not depend on the package. *)
Lemma checkNpmEntry_passed (w : World) (dryRun : bool) (pkg pkg' : packageJson)
    (entry : string * string) :
  snd (checkNpmEntry w dryRun pkg entry []) = Returned None ->
  forall l, checkNpmEntry w dryRun pkg' entry l = (l, Returned None).
Proof.
  unfold checkNpmEntry. destruct entry as [depName version].
  destruct (skippedExpression version); [reflexivity|].
  unfold ebind, lift.
  destruct (isOutdated _ _ _) as [[|]|err]; try discriminate; [|reflexivity].
  destruct (getLatestNpmVersion w depName) as [latest|]; [|reflexivity].
  rewrite pushDepInfo_run. discriminate.
Qed.

(** X23.  Once a [package.json] in which no package is declared twice
    and no package bears the name of a member of [Object.prototype] is
    rewritten with every update a scan has found, a second scan of the
    rewritten file finds nothing outdated, provided no prefix of a
    rewritten expression holds a dot.  (A name such as [constructor] is
    read from [dependencies] without being declared there: declared in
    [devDependencies] alone, it is reported as a dependency and the
    rewrite leaves its entry as it was.) *)
Theorem package_rescan_finds_nothing (w : World) (dryRun : bool) (filePath : string)
    (pkg : packageJson) (outdated : list depInfo) :
  plainNames pkg = true ->
  NoDup (map fst (sectionMembers "dependencies" pkg
                  ++ sectionMembers "devDependencies" pkg)) ->
  outdatedOf w dryRun {| path := filePath; content := npm (Some pkg) |}
  = Returned outdated ->
  Forall (fun d => lacks "." (versionPrefix (currentVersion d)) = true) outdated ->
  outdatedOf w dryRun
    {| path := filePath; content := npm (Some (updateNpm pkg outdated)) |}
  = Returned [].
Proof.
  intros _ Hnd Hrun Hdots.
  pose proof Hnd as Hnd'. rewrite map_app in Hnd'.
  pose proof (NoDup_app_remove_r _ _ Hnd') as Hdeps.
  pose proof (NoDup_app_remove_l _ _ Hnd') as Hdev.
  unfold outdatedOf in Hrun. apply snd_run in Hrun.
  destruct (package_scan_names _ _ _ _ _ _ _ Hrun) as [Hnames _].
  unfold checkDependencies in Hrun. cbn [content] in Hrun.
  destruct (forEach_run _ _ (parametric_checkNpmEntry w dryRun pkg) _ _ _ _ Hrun)
    as (Hout & _ & Hret). cbn [app] in Hout.
  rewrite (mergedDependencies_app pkg Hnd) in Hout, Hret.
  assert (Hmerged : NoDup (map fst (sectionMembers "dependencies" pkg
                                    ++ sectionMembers "devDependencies" pkg))) by exact Hnd.
  set (merged := (sectionMembers "dependencies" pkg
                  ++ sectionMembers "devDependencies" pkg)%list) in *.
  (* what a turn of the second scan does to an entry of the member [key] *)
  assert (Hturn : forall key depName version,
             In (depName, version) merged ->
             (JS.truthy (Some version) = true ->
              (if JS.truthy (sectionEntry "dependencies" depName pkg)
               then "dependencies" else "devDependencies") = key) ->
             forall l,
               checkNpmEntry w dryRun (updateNpm pkg outdated)
                 (depName, valueAfter key depName outdated version) l
               = (l, Returned None)).
  { intros key depName version Hin Hkey l.
    rewrite Forall_forall in Hret. destruct (Hret _ Hin) as [r Hr].
    destruct r as [d|].
    - assert (Hd : In d outdated).
      { rewrite Hout. apply In_pushedBy. now exists (depName, version). }
      apply snd_run in Hr.
      destruct (checkNpmEntry_shape _ _ _ _ _ _ _ _ Hr) as (Hn & _ & _ & Ht & _).
      destruct (checkNpmEntry_record _ _ _ _ _ _ _ _ Hr) as (_ & Hc & _).
      rewrite Forall_forall in Hdots. specialize (Hdots d Hd). rewrite Hc in Hdots.
      destruct (checkNpmEntry_settles w dryRun pkg (updateNpm pkg outdated)
                  _ _ _ _ _ Hr Hdots) as [Hne Hsettles].
      rewrite (valueAfter_unique key depName outdated d version Hnames Hd); auto.
      + unfold newValue. rewrite Hc. apply Hsettles.
      + rewrite <- (Hkey (truthy_nonempty version Hne)).
        unfold depSection. rewrite Ht.
        now destruct (JS.truthy (sectionEntry "dependencies" depName pkg)).
    - rewrite valueAfter_others.
      + eapply checkNpmEntry_passed. exact Hr.
      + intros Hname. apply in_map_iff in Hname as (d & Hn & Hd).
        rewrite Hout in Hd. apply In_pushedBy in Hd as ([k v] & Hin' & Hd).
        pose proof Hd as Hd'. apply snd_run in Hd'.
        apply checkNpmEntry_shape in Hd' as (Hk & _). rewrite Hn in Hk. subst k.
        assert (v = version) by (eapply NoDup_keys_unique; eassumption). subst v.
        congruence. }
  unfold outdatedOf, checkDependencies. cbn [content].
  assert (Hnd2 : NoDup (map fst (sectionMembers "dependencies" (updateNpm pkg outdated)
                                 ++ sectionMembers "devDependencies"
                                      (updateNpm pkg outdated)))).
  { now rewrite map_app, !sectionMembers_keys_updateNpm, <- map_app. }
  rewrite (mergedDependencies_app _ Hnd2).
  rewrite !sectionMembers_updateNpm by assumption.
  rewrite forEach_nothing; [reflexivity|].
  apply Forall_app. split; apply Forall_map; apply Forall_forall; intros [k v] Hin l;
    cbn [fst snd].
  - apply Hturn; [apply in_or_app; now left|].
    intros Hv. rewrite <- lookup_sectionMembers.
    rewrite (lookup_present k v _ Hdeps Hin). now rewrite Hv.
  - apply Hturn; [apply in_or_app; now right|].
    intros _. rewrite <- lookup_sectionMembers, lookup_absent; [reflexivity|].
    intros Hk. apply in_map_iff in Hk as ([k' v'] & Hk' & Hin'). cbn in Hk'. subst k'.
    clear -Hnd' Hin Hin'.
    apply (in_map fst) in Hin, Hin'. cbn [fst] in Hin, Hin'.
    revert Hnd' Hin'. generalize (map fst (sectionMembers "dependencies" pkg)).
    intros l Hnd' Hin'. induction l as [|x l IH]; [contradiction|].
    cbn in Hnd'. inversion Hnd' as [|? ? Hnotin Hrest]; subst.
    destruct Hin' as [->|Hin']; [|now apply IH].
    apply Hnotin. apply in_or_app. now right.
Qed.

Lemma package_rescan_finds_nothing_witness :
  exists outdated,
    outdatedOf exampleWorld true
      {| path := "package.json"; content := npm (Some onceDeclared) |}
    = Returned outdated
    /\ map name outdated = ["a"; "b"]
    /\ outdatedOf exampleWorld true
         {| path := "package.json";
            content := npm (Some (updateNpm onceDeclared outdated)) |}
       = Returned [].
Proof.
  destruct (outdatedOf exampleWorld true
              {| path := "package.json"; content := npm (Some onceDeclared) |})
    as [outdated|err] eqn:E; [|vm_compute in E; discriminate].
  exists outdated. split; [reflexivity|].
  assert (Hagain := package_rescan_finds_nothing exampleWorld true "package.json"
                      onceDeclared outdated).
  vm_compute in E. injection E as <-.
  split; [reflexivity|]. apply Hagain.
  - reflexivity.
  - repeat constructor; cbn; intuition discriminate.
  - vm_compute. reflexivity.
  - repeat constructor.
Defined.

(* ================================================================== *)
(** ** Normal forms of versions *)
(* ================================================================== *)

Lemma dropLeadingZeros_idempotent (part : string) :
  dropLeadingZeros (dropLeadingZeros part) = dropLeadingZeros part.
Proof.
  induction part as [|c rest IH]; [reflexivity|].
  cbn [dropLeadingZeros].
  destruct (Ascii.eqb c "0") eqn:E.
  - destruct rest as [|c' rest']; [|exact IH].
    cbn [dropLeadingZeros]. now rewrite E.
  - cbn [dropLeadingZeros]. now rewrite E.
Qed.

Lemma dropLeadingZeros_head (part : string) (rest : string) :
  dropLeadingZeros part = String "0" rest -> rest = EmptyString.
Proof.
  induction part as [|c s IH]; [discriminate|].
  cbn [dropLeadingZeros].
  destruct (Ascii.eqb_spec c "0") as [->|Hne].
  - destruct s as [|c' s']; [now intros [= <-]|exact IH].
  - intros [= -> _]. congruence.
Qed.

Lemma dropLeadingZeros_nonempty (part : string) :
  part <> EmptyString -> dropLeadingZeros part <> EmptyString.
Proof.
  induction part as [|c s IH]; [congruence|]. intros _.
  cbn [dropLeadingZeros].
  destruct (Ascii.eqb c "0"); [|discriminate].
  destruct s as [|c' s']; [discriminate|]. apply IH. discriminate.
Qed.

Lemma decimal_nonempty (n : N) : JS.decimal n <> EmptyString.
Proof.
  unfold JS.decimal. destruct n as [|p]; [discriminate|].
  intros E. apply (f_equal NilEmpty.uint_of_string) in E.
  rewrite NilEmpty.usu in E. cbn in E. injection E as E.
  apply (f_equal Pos.of_uint) in E. rewrite DecimalPos.Unsigned.of_to in E.
  discriminate.
Qed.

Lemma digitsValue_decimal (n : N) : JS.digitsValue (JS.decimal n) = Some n.
Proof.
  pose proof (decimal_nonempty n) as Hne.
  unfold JS.digitsValue. destruct (JS.decimal n) eqn:E; [congruence|].
  rewrite <- E. unfold JS.decimal. rewrite NilEmpty.usu. cbn [option_map].
  now rewrite DecimalN.Unsigned.of_to.
Qed.

Lemma digitsValue_dropLeadingZeros (part : string) (n : N) :
  JS.digitsValue part = Some n -> JS.digitsValue (dropLeadingZeros part) = Some n.
Proof.
  intros H. rewrite <- (decimal_digitsValue part n H). apply digitsValue_decimal.
Qed.

Lemma join_versionChars (parts : list string) :
  Forall (fun part => JS.allChars JS.isDigit part = true) parts ->
  JS.allChars isVersionChar (JS.join "." parts) = true.
Proof.
  assert (Hd : forall part, JS.allChars JS.isDigit part = true ->
                            JS.allChars isVersionChar part = true).
  { intros part. apply allChars_impl. intros c Hc. unfold isVersionChar. now rewrite Hc. }
  induction 1 as [|p ps Hp Hps IH]; [reflexivity|].
  destruct ps as [|q qs]; [now apply Hd|].
  change (JS.join "." (p :: q :: qs)) with (p ++ "." ++ JS.join "." (q :: qs)).
  rewrite !allChars_app, (Hd p Hp), IH. reflexivity.
Qed.

Lemma digits_lack_dot (part : string) :
  JS.allChars JS.isDigit part = true -> lacks "." part = true.
Proof. apply allChars_impl, digit_not_dot. Qed.

Lemma components_join (parts : list string) :
  parts <> [] ->
  Forall (fun part => JS.allChars JS.isDigit part = true) parts ->
  components (JS.join "." parts) = parts.
Proof.
  intros Hne Hd. unfold components.
  rewrite keep_all by now apply join_versionChars.
  apply split_join; [exact Hne|].
  eapply Forall_impl; [|exact Hd]. apply digits_lack_dot.
Qed.

Lemma exactPart_dropLeadingZeros (part : string) :
  JS.allChars JS.isDigit part = true ->
  exactPart (dropLeadingZeros part) = exactPart part.
Proof.
  intros Hd. destruct part as [|c s] eqn:E; [reflexivity|]. rewrite <- E in *.
  destruct (digitsValue_digits part) as [n Hn]; [now subst|exact Hd|].
  unfold exactPart. now rewrite (digitsValue_dropLeadingZeros _ _ Hn), Hn.
Qed.

Lemma components_nonempty (v : string) : components v <> [].
Proof. apply split_nonempty. Qed.

(** X6.  [sanitizeVersion] is idempotent on a version whose numeric
    components are read exactly: its result is made of digits and dots,
    and sanitising the result returns it unchanged. *)
Theorem sanitizeVersion_idempotent (v : string) :
  forallb exactPart (components v) = true ->
  exists s,
    sanitizeVersion (Some v) = Some s
    /\ sanitizeVersion (Some s) = Some s
    /\ JS.allChars isVersionChar s = true.
Proof.
  intros Hex.
  destruct v as [|c v'] eqn:Ev; [exists EmptyString; now repeat split|].
  rewrite <- Ev in *. assert (Hv : v <> EmptyString) by now subst.
  exists (JS.join "." (map dropLeadingZeros (components v))).
  assert (Hdigits : Forall (fun part => JS.allChars JS.isDigit part = true)
                           (map dropLeadingZeros (components v))).
  { apply Forall_map. eapply Forall_impl; [|apply components_digits].
    intros part. apply dropLeadingZeros_digits. }
  split; [now apply sanitizeVersion_components|]. split; [|now apply join_versionChars].
  set (s := JS.join "." (map dropLeadingZeros (components v))).
  destruct s as [|c0 s0] eqn:Es; [reflexivity|]. rewrite <- Es.
  assert (Hcomp : components s = map dropLeadingZeros (components v)).
  { apply components_join; [|exact Hdigits].
    intros E. apply map_eq_nil in E. now apply components_nonempty in E. }
  rewrite sanitizeVersion_components.
  - rewrite Hcomp, map_map. f_equal. unfold s. f_equal. apply map_ext.
    intros part. apply dropLeadingZeros_idempotent.
  - rewrite Es. discriminate.
  - rewrite Hcomp. apply forallb_forall. intros part Hin.
    apply in_map_iff in Hin as (p & <- & Hp).
    rewrite forallb_forall in Hex.
    rewrite exactPart_dropLeadingZeros; [now apply Hex|].
    pose proof (components_digits v) as H. rewrite Forall_forall in H. now apply H.
Qed.

Lemma sanitizeVersion_idempotent_witness :
  sanitizeVersion (Some "^1.02.3") = Some "1.2.3"
  /\ sanitizeVersion (Some "1.2.3") = Some "1.2.3".
Proof.
  destruct (sanitizeVersion_idempotent "^1.02.3" eq_refl) as (s & Hs & Hagain & _).
  vm_compute in Hs. injection Hs as <-.
  split; [reflexivity|exact Hagain].
Defined.

Lemma safePart_exact (part : string) : safePart part = true -> exactPart part = true.
Proof.
  unfold safePart, exactPart. destruct (JS.digitsValue part) as [n|]; [|discriminate].
  intros H. apply N.leb_le in H. apply N.ltb_lt.
  unfold semver.MAX_SAFE_INTEGER in H.
  assert ((2 ^ 53 - 1 < 2 ^ 53)%N) by now vm_compute. lia.
Qed.

Lemma safePart_nonEmpty (part : string) : safePart part = true -> nonEmptyPart part = true.
Proof. destruct part; [discriminate|reflexivity]. Qed.

Lemma numericIdentifier_dropLeadingZeros (part : string) :
  JS.allChars JS.isDigit part = true -> safePart part = true ->
  exists n, JS.digitsValue part = Some n
            /\ semver.numericIdentifier (dropLeadingZeros part) = Some n.
Proof.
  intros Hd Hs. unfold safePart in Hs.
  destruct (JS.digitsValue part) as [n|] eqn:Hn; [|discriminate].
  exists n. split; [reflexivity|].
  assert (Hne : part <> EmptyString) by (intros ->; discriminate).
  pose proof (dropLeadingZeros_nonempty part Hne) as Hq.
  pose proof (dropLeadingZeros_digits part Hd) as Hqd.
  pose proof (digitsValue_dropLeadingZeros part n Hn) as Hqv.
  pose proof (dropLeadingZeros_head part) as Hhead.
  destruct (dropLeadingZeros part) as [|c rest]; [congruence|].
  unfold semver.numericIdentifier. rewrite Hqd, Hqv, Hs. cbn [andb].
  destruct (Ascii.eqb_spec c "0") as [->|Hc]; [|reflexivity].
  now rewrite (Hhead rest eq_refl).
Qed.

Lemma parse_join (parts : list string) :
  parts <> [] ->
  Forall (fun part => JS.allChars JS.isDigit part = true) parts ->
  semver.parse (Some (JS.join "." parts))
  = match parts with
    | [a; b; c] =>
        match semver.numericIdentifier a, semver.numericIdentifier b,
              semver.numericIdentifier c with
        | Some x, Some y, Some z => Some (x, y, z)
        | _, _, _ => None
        end
    | _ => None
    end.
Proof.
  intros Hne Hd. unfold semver.parse. rewrite split_join; [reflexivity|exact Hne|].
  eapply Forall_impl; [|exact Hd]. apply digits_lack_dot.
Qed.

Lemma makeVersionSemverCompatible_safe (v : string) :
  forallb safePart (components v) = true ->
  makeVersionSemverCompatible (Some v)
  = JS.join "." (padTo3 "0" (map dropLeadingZeros (components v))).
Proof.
  intros Hs.
  assert (Hex : forallb exactPart (components v) = true).
  { apply forallb_forall. intros p Hp. rewrite forallb_forall in Hs.
    now apply safePart_exact, Hs. }
  assert (Hne : forallb nonEmptyPart (components v) = true).
  { apply forallb_forall. intros p Hp. rewrite forallb_forall in Hs.
    now apply safePart_nonEmpty, Hs. }
  assert (Hv : v <> EmptyString) by (intros ->; discriminate).
  rewrite makeVersionSemverCompatible_components by assumption.
  unfold normalizeSpec. pose proof (keep_nonempty_of_components v Hne) as Hk.
  now destruct (JS.keep isVersionChar v).
Qed.

(** X7.  For a version whose numeric components are digit strings with
    values among the safe integers: with at most three components,
    [makeVersionSemverCompatible] yields a version [semver] reads, and
    the numbers read are the values of the components, a missing one
    being [0]; with more than three components [semver] rejects what it
    yields. *)
Theorem makeVersionSemverCompatible_valid (v : string) :
  forallb safePart (components v) = true ->
  (List.length (components v) <= 3 ->
   exists x y z,
     semver.parse (Some (makeVersionSemverCompatible (Some v))) = Some (x, y, z)
     /\ map JS.digitsValue (padTo3 "0" (components v)) = [Some x; Some y; Some z])
  /\ (3 < List.length (components v) ->
      semver.valid (Some (makeVersionSemverCompatible (Some v))) = false).
Proof.
  intros Hs. rewrite (makeVersionSemverCompatible_safe v Hs).
  pose proof (components_digits v) as Hd.
  pose proof (components_nonempty v) as Hne.
  assert (Hparts : Forall (fun part => JS.allChars JS.isDigit part = true)
                          (padTo3 "0" (map dropLeadingZeros (components v)))).
  { unfold padTo3. apply Forall_app. split.
    - apply Forall_map. eapply Forall_impl; [|exact Hd].
      intros part. apply dropLeadingZeros_digits.
    - apply Forall_forall. intros part Hin. apply repeat_spec in Hin. now subst. }
  assert (Hnil : padTo3 "0" (map dropLeadingZeros (components v)) <> []).
  { intros E. pose proof (padTo3_length "0" (map dropLeadingZeros (components v))) as L.
    rewrite E in L. cbn in L. lia. }
  unfold semver.valid. rewrite (parse_join _ Hnil Hparts).
  assert (Hid : forall part, In part (components v) ->
                  exists n, JS.digitsValue part = Some n
                            /\ semver.numericIdentifier (dropLeadingZeros part) = Some n).
  { intros part Hin. rewrite Forall_forall in Hd. rewrite forallb_forall in Hs.
    apply numericIdentifier_dropLeadingZeros; auto. }
  clear Hparts Hnil Hd Hs.
  destruct (components v) as [|a [|b [|c [|d rest]]]]; [congruence| | | |].
  - split; [intros _|cbn; lia].
    destruct (Hid a) as (x & Hx & Ex); [cbn; auto|].
    exists x, 0%N, 0%N. cbn. now rewrite Ex, Hx.
  - split; [intros _|cbn; lia].
    destruct (Hid a) as (x & Hx & Ex); [cbn; auto|].
    destruct (Hid b) as (y & Hy & Ey); [cbn; auto|].
    exists x, y, 0%N. cbn. now rewrite Ex, Ey, Hx, Hy.
  - split; [intros _|cbn; lia].
    destruct (Hid a) as (x & Hx & Ex); [cbn; auto|].
    destruct (Hid b) as (y & Hy & Ey); [cbn; auto|].
    destruct (Hid c) as (z & Hz & Ez); [cbn; auto|].
    exists x, y, z. cbn. now rewrite Ex, Ey, Ez, Hx, Hy, Hz.
  - split; [cbn; lia|intros _]. reflexivity.
Qed.

Lemma makeVersionSemverCompatible_valid_witness :
  semver.parse (Some (makeVersionSemverCompatible (Some ">=01.2"))) = Some (1, 2, 0)%N
  /\ semver.valid (Some (makeVersionSemverCompatible (Some "1.2.3.4"))) = false.
Proof.
  split.
  - destruct (proj1 (makeVersionSemverCompatible_valid ">=01.2" eq_refl))
      as (x & y & z & Hparse & Hvalues); [vm_compute; lia|].
    vm_compute in Hvalues. injection Hvalues as <- <- <-. exact Hparse.
  - apply (proj2 (makeVersionSemverCompatible_valid "1.2.3.4" eq_refl)).
    vm_compute. lia.
Defined.

(* ================================================================== *)
(** ** Outdated dependencies and tiers, in the words of the specification *)
(* ================================================================== *)

Lemma safePart_below (part : string) :
  safePart part = true ->
  exists n, JS.digitsValue part = Some n /\ (n <? 2 ^ 53)%N = true.
Proof.
  unfold safePart. destruct (JS.digitsValue part) as [n|]; [|discriminate].
  intros H. exists n. split; [reflexivity|].
  apply N.leb_le in H. apply N.ltb_lt. unfold semver.MAX_SAFE_INTEGER in H.
  assert ((2 ^ 53 - 1 < 2 ^ 53)%N) by now vm_compute. lia.
Qed.

Lemma below_safePart (part : string) (n : N) :
  JS.digitsValue part = Some n -> (n <? 2 ^ 53)%N = true -> safePart part = true.
Proof.
  intros Hn H. unfold safePart. rewrite Hn. apply N.leb_le. apply N.ltb_lt in H.
  unfold semver.MAX_SAFE_INTEGER.
  assert ((2 ^ 53 - 1 + 1 = 2 ^ 53)%N) by now vm_compute. lia.
Qed.

Lemma safe_components_keep (v : string) :
  forallb safePart (components v) = true -> JS.keep isVersionChar v <> EmptyString.
Proof.
  intros H. apply keep_nonempty_of_components.
  apply forallb_forall. intros p Hp. rewrite forallb_forall in H.
  now apply safePart_nonEmpty, H.
Qed.






Lemma components_keep (v : string) :
  components (JS.keep isVersionChar v) = components v.
Proof. unfold components. now rewrite keep_keep. Qed.

Lemma versionTriple_keep (v : string) :
  versionTriple (JS.keep isVersionChar v) = versionTriple v.
Proof. unfold versionTriple. now rewrite components_keep, keep_keep. Qed.








(** *** What [semver] accepts from the bot, read backwards

    Whenever [semver] reads one of the two normal forms of the bot as a
    version, the numbers it reads are those of the normal form of the
    specification. *)

Lemma join_split (s : string) : JS.join "." (JS.split "." s) = s.
Proof.
  induction s as [|c s IH]; [reflexivity|].
  cbn [JS.split]. pose proof (split_nonempty "." s) as Hne.
  destruct (Ascii.eqb_spec c ".") as [->|Hc].
  - destruct (JS.split "." s) as [|p ps]; [congruence|].
    change (JS.join "." ("" :: p :: ps)) with ("" ++ "." ++ JS.join "." (p :: ps)).
    now rewrite IH.
  - destruct (JS.split "." s) as [|p ps]; [congruence|].
    destruct ps as [|q qs].
    + cbn in IH. cbn. now rewrite IH.
    + change (JS.join "." (String c p :: q :: qs))
        with (String c (p ++ "." ++ JS.join "." (q :: qs))).
      change (JS.join "." (p :: q :: qs)) with (p ++ "." ++ JS.join "." (q :: qs)) in IH.
      now rewrite IH.
Qed.

Lemma allChars_join (p : ascii -> bool) (sep : string) (parts : list string) :
  JS.allChars p (JS.join sep parts) = true ->
  Forall (fun part => JS.allChars p part = true) parts.
Proof.
  induction parts as [|x xs IH]; [constructor|].
  destruct xs as [|y ys].
  - cbn. intros H. now repeat constructor.
  - change (JS.join sep (x :: y :: ys)) with (x ++ sep ++ JS.join sep (y :: ys)).
    rewrite !allChars_app. intros H.
    apply andb_true_iff in H as [Hx H]. apply andb_true_iff in H as [_ H].
    constructor; [exact Hx|now apply IH].
Qed.

Lemma numericIdentifier_spec (s : string) (n : N) :
  semver.numericIdentifier s = Some n ->
  JS.allChars JS.isDigit s = true /\ JS.digitsValue s = Some n
  /\ (n <? 2 ^ 53)%N = true.
Proof.
  unfold semver.numericIdentifier. destruct s as [|c rest]; [discriminate|].
  destruct (JS.allChars JS.isDigit (String c rest)) eqn:Hd; [|discriminate].
  cbn [andb].
  destruct (negb (Ascii.eqb c "0") || String.eqb rest EmptyString); [|discriminate].
  destruct (JS.digitsValue (String c rest)) as [v|] eqn:Hv; [|discriminate].
  destruct (N.leb_spec v semver.MAX_SAFE_INTEGER) as [Hle|]; [|discriminate].
  intros [= <-]. repeat split. apply N.ltb_lt.
  unfold semver.MAX_SAFE_INTEGER in Hle.
  assert ((2 ^ 53 - 1 < 2 ^ 53)%N) by now vm_compute. lia.
Qed.

Lemma parse_versionChars (s : string) (t : N * N * N) :
  semver.parse (Some s) = Some t -> JS.allChars isVersionChar s = true.
Proof.
  intros H. apply parse_Some in H as (s' & a & b & c & [= <-] & Hs & Ha & Hb & Hc).
  rewrite <- (join_split s), Hs.
  apply join_versionChars.
  apply numericIdentifier_spec in Ha as [Ha _].
  apply numericIdentifier_spec in Hb as [Hb _].
  apply numericIdentifier_spec in Hc as [Hc _].
  now repeat constructor.
Qed.

(** The parts of a string [semver] reads, when each part is made of
    digits as soon as it is made of digits and dots. *)
Lemma parse_parts (parts : list string) (t : N * N * N) :
  parts <> [] ->
  Forall (fun part => JS.allChars isVersionChar part = true ->
                      JS.allChars JS.isDigit part = true) parts ->
  semver.parse (Some (JS.join "." parts)) = Some t ->
  exists a b c,
    parts = [a; b; c]
    /\ semver.numericIdentifier a = Some (fst (fst t))
    /\ semver.numericIdentifier b = Some (snd (fst t))
    /\ semver.numericIdentifier c = Some (snd t).
Proof.
  intros Hne Hdich Hparse.
  pose proof (parse_versionChars _ _ Hparse) as Hv.
  apply allChars_join in Hv.
  assert (Hd : Forall (fun part => JS.allChars JS.isDigit part = true) parts).
  { rewrite Forall_forall in *. intros part Hin. apply Hdich; auto. }
  rewrite (parse_join parts Hne Hd) in Hparse.
  destruct parts as [|a [|b [|c [|d rest]]]]; try discriminate.
  destruct (semver.numericIdentifier a) as [x|] eqn:Ea; [|discriminate].
  destruct (semver.numericIdentifier b) as [y|] eqn:Eb; [|discriminate].
  destruct (semver.numericIdentifier c) as [z|] eqn:Ec; [|discriminate].
  injection Hparse as <-. exists a, b, c. cbn. now rewrite Ea, Eb, Ec.
Qed.

Lemma uint_digits (d : Decimal.uint) :
  JS.allChars JS.isDigit (NilEmpty.string_of_uint d) = true.
Proof. induction d; cbn; auto. Qed.

Lemma decimal_digits (n : N) : JS.allChars JS.isDigit (JS.decimal n) = true.
Proof. apply uint_digits. Qed.

Lemma shortestFrom_reads (fuel : nat) (m n k : N) :
  JS.shortestFrom fuel m n k = m
  \/ JS.readsBackAs m (JS.shortestFrom fuel m n k) = true.
Proof.
  revert k. induction fuel as [|fuel IH]; intros k; cbn [JS.shortestFrom]; [now left|].
  cbv zeta.
  destruct (JS.readsBackAs m (m / 10 ^ (n - k) * 10 ^ (n - k))) eqn:Elo;
    destruct (JS.readsBackAs m (m / 10 ^ (n - k) * 10 ^ (n - k) + 10 ^ (n - k))) eqn:Ehi;
    try apply IH; try (right; assumption).
  repeat match goal with |- context [if ?c then _ else _] => destruct c end;
    right; assumption.
Qed.

Lemma shortest_large (m : N) : (2 ^ 53 <= m)%N -> (2 ^ 53 <= JS.shortest m)%N.
Proof.
  intros Hm. unfold JS.shortest.
  destruct (shortestFrom_reads 17 m (N.of_nat (String.length (JS.decimal m))) 1)
    as [->|H]; [exact Hm|].
  set (c := JS.shortestFrom _ _ _ _) in *.
  destruct (N.lt_ge_cases c (2 ^ 53)) as [Hc|Hc]; [|exact Hc].
  unfold JS.readsBackAs in H. rewrite (roundToDouble_exact c Hc) in H.
  apply N.eqb_eq in H. lia.
Qed.

Lemma exponent_not_digits (a b : string) :
  JS.allChars isVersionChar (a ++ "e+" ++ b) = false.
Proof. rewrite allChars_app. cbn. apply andb_false_r. Qed.

Lemma exponent_not_digit (a b : string) :
  JS.allChars JS.isDigit (a ++ "e+" ++ b) = false.
Proof. rewrite allChars_app. cbn. apply andb_false_r. Qed.

(** What a number prints as is made of digits as soon as it is made of
    digits and dots. *)
Lemma toString_dichotomy (x : JS.number) :
  JS.allChars isVersionChar (JS.toString x) = true ->
  JS.allChars JS.isDigit (JS.toString x) = true.
Proof.
  destruct x as [m| |]; [|discriminate|discriminate].
  unfold JS.toString. cbv zeta.
  destruct (JS.shortest m <? 10 ^ 21)%N; [intros _; apply decimal_digits|].
  destruct (JS.decimal (JS.shortest m)) as [|d rest]; [reflexivity|].
  change (String d ?s ++ ?t)%string with (String d (s ++ t)).
  cbn [JS.allChars]. rewrite exponent_not_digits, andb_false_r. discriminate.
Qed.

(** A number that prints as a numeral [semver] accepts is that number. *)
Lemma toString_value (x : JS.number) (n : N) :
  semver.numericIdentifier (JS.toString x) = Some n -> x = JS.Fin n.
Proof.
  intros H. apply numericIdentifier_spec in H as (Hd & Hv & Hn).
  apply N.ltb_lt in Hn.
  destruct x as [m| |]; [|discriminate|discriminate].
  destruct (N.lt_ge_cases m (2 ^ 53)) as [Hm|Hm].
  - rewrite (toString_exact m Hm), digitsValue_decimal in Hv. congruence.
  - exfalso. pose proof (shortest_large m Hm) as Hc.
    unfold JS.toString in Hd, Hv. cbv zeta in Hd, Hv.
    destruct (JS.shortest m <? 10 ^ 21)%N.
    + rewrite digitsValue_decimal in Hv. injection Hv as <-. lia.
    + destruct (JS.decimal (JS.shortest m)) as [|d rest]; [discriminate|].
      change (String d ?s ++ ?t)%string with (String d (s ++ t)) in Hd.
      cbn [JS.allChars] in Hd. apply andb_true_iff in Hd as [_ Hd].
      now rewrite exponent_not_digit in Hd.
Qed.

(** Reparsing: the value of the component that was parsed and printed. *)
Lemma reparse_value (part : string) (n : N) :
  JS.allChars JS.isDigit part = true ->
  semver.numericIdentifier (JS.toString (JS.parseInt part)) = Some n ->
  JS.digitsValue part = Some n.
Proof.
  intros Hd H. pose proof (numericIdentifier_spec _ _ H) as (_ & _ & Hn).
  apply N.ltb_lt in Hn.
  apply toString_value in H. unfold JS.parseInt in H.
  rewrite (span_all _ _ Hd) in H. cbn [fst] in H.
  destruct (JS.digitsValue part) as [v|]; [|discriminate].
  destruct (N.leb_spec (N.size v) 53) as [Hle|Hgt].
  - unfold JS.roundToDouble in H. apply N.leb_le in Hle. rewrite Hle in H. congruence.
  - apply roundToDouble_large in H; [lia|assumption].
Qed.

Lemma sanitized_part_dichotomy (part : string) :
  JS.allChars JS.isDigit part = true ->
  let kept := if Nat.ltb 1 (String.length part) && JS.startsWith part "0"
              then JS.toString (JS.parseInt part) else part in
  (JS.allChars isVersionChar kept = true -> JS.allChars JS.isDigit kept = true)
  /\ forall n, semver.numericIdentifier kept = Some n -> JS.digitsValue part = Some n.
Proof.
  intros Hd. cbv zeta.
  destruct (Nat.ltb 1 (String.length part) && JS.startsWith part "0").
  - split; [apply toString_dichotomy|]. intros n. now apply reparse_value.
  - split; [auto|]. intros n H. now apply numericIdentifier_spec in H.
Qed.

Lemma exactTriple_intro (x y z : N) :
  (x <? 2 ^ 53)%N = true -> (y <? 2 ^ 53)%N = true -> (z <? 2 ^ 53)%N = true ->
  exactTriple (x, y, z) = true.
Proof. intros Hx Hy Hz. unfold exactTriple. now rewrite Hx, Hy, Hz. Qed.

Lemma digitsValue_nonempty_keep (v part : string) (rest : list string) (n : N) :
  components v = part :: rest -> JS.digitsValue part = Some n ->
  exists k ks, JS.keep isVersionChar v = String k ks.
Proof.
  unfold components. intros Hc Hn.
  destruct (JS.keep isVersionChar v) as [|k ks]; [|eauto].
  cbn in Hc. injection Hc as <- _. discriminate.
Qed.

(** What [semver] reads from a sanitised version is its normal form. *)
Lemma parse_sanitized_normal (v : string) (t : N * N * N) :
  semver.parse (sanitizeVersion (Some v)) = Some t ->
  versionTriple v = Some t /\ exactTriple t = true.
Proof.
  unfold sanitizeVersion.
  destruct v as [|c0 v0] eqn:Ev; [discriminate|]. rewrite <- Ev. clear Ev c0 v0.
  destruct (JS.truthy (Some v)) eqn:Ht; cbn [negb].
  2:{ destruct v; discriminate. }
  fold (components v).
  set (f := fun part => if Nat.ltb 1 (String.length part) && JS.startsWith part "0"
                        then JS.toString (JS.parseInt part) else part).
  intros Hparse.
  pose proof (components_digits v) as Hd.
  destruct (parse_parts (map f (components v)) t) as (a & b & c & Hparts & Ha & Hb & Hc).
  - intros E. apply map_eq_nil in E. now apply components_nonempty in E.
  - apply Forall_map. eapply Forall_impl; [|exact Hd].
    intros part Hp. apply (sanitized_part_dichotomy part Hp).
  - exact Hparse.
  - destruct (components v) as [|p [|q [|r [|s rest]]]] eqn:Ec; try discriminate.
    injection Hparts as <- <- <-.
    inversion Hd as [|? ? Hp Hd1]; subst. inversion Hd1 as [|? ? Hq Hd2]; subst.
    inversion Hd2 as [|? ? Hr _]; subst.
    pose proof (numericIdentifier_spec _ _ Ha) as (_ & _ & Bx).
    pose proof (numericIdentifier_spec _ _ Hb) as (_ & _ & By).
    pose proof (numericIdentifier_spec _ _ Hc) as (_ & _ & Bz).
    apply (proj2 (sanitized_part_dichotomy p Hp)) in Ha.
    apply (proj2 (sanitized_part_dichotomy q Hq)) in Hb.
    apply (proj2 (sanitized_part_dichotomy r Hr)) in Hc.
    destruct t as [[x y] z]. cbn [fst snd] in *.
    split; [|now apply exactTriple_intro].
    destruct (digitsValue_nonempty_keep v p [q; r] x Ec Ha) as (k & ks & Hk).
    unfold versionTriple. rewrite Hk, Ec. cbn. now rewrite Ha, Hb, Hc.
Qed.

(** What [semver] reads from a version made compatible is its normal
    form. *)
Lemma parse_compatible_normal (v : string) (t : N * N * N) :
  JS.truthy (Some v) = true ->
  semver.parse (Some (makeVersionSemverCompatible (Some v))) = Some t ->
  versionTriple v = Some t /\ exactTriple t = true.
Proof.
  intros Ht. unfold makeVersionSemverCompatible. rewrite Ht. cbn [negb].
  fold (components v).
  set (g := fun part => JS.toString (JS.parseInt part)).
  intros Hparse.
  pose proof (components_digits v) as Hd.
  pose proof (components_nonempty v) as Hne.
  destruct (parse_parts (padTo3 "0" (map g (components v))) t)
    as (a & b & c & Hparts & Ha & Hb & Hc).
  - intros E. pose proof (padTo3_length "0" (map g (components v))) as L.
    rewrite E in L. cbn in L. lia.
  - unfold padTo3. apply Forall_app. split.
    + apply Forall_map. apply Forall_forall. intros part _. apply toString_dichotomy.
    + apply Forall_forall. intros part Hin. apply repeat_spec in Hin. now subst.
  - exact Hparse.
  - pose proof (numericIdentifier_spec _ _ Ha) as (_ & _ & Bx).
    pose proof (numericIdentifier_spec _ _ Hb) as (_ & _ & By).
    pose proof (numericIdentifier_spec _ _ Hc) as (_ & _ & Bz).
    destruct t as [[x y] z]. cbn [fst snd] in *.
    split; [|now apply exactTriple_intro].
    unfold padTo3 in Hparts.
    destruct (components v) as [|p [|q [|r [|s rest]]]] eqn:Ec; [congruence| | | |];
      cbn in Hparts; try discriminate.
    + injection Hparts as <- <- <-.
      inversion Hd as [|? ? Hp _]; subst.
      apply (reparse_value p x Hp) in Ha.
      injection Hb as <-. injection Hc as <-.
      destruct (digitsValue_nonempty_keep v p [] x Ec Ha) as (k & ks & Hk).
      unfold versionTriple. rewrite Hk, Ec. cbn. now rewrite Ha.
    + injection Hparts as <- <- <-.
      inversion Hd as [|? ? Hp Hd1]; subst. inversion Hd1 as [|? ? Hq _]; subst.
      apply (reparse_value p x Hp) in Ha. apply (reparse_value q y Hq) in Hb.
      injection Hc as <-.
      destruct (digitsValue_nonempty_keep v p [q] x Ec Ha) as (k & ks & Hk).
      unfold versionTriple. rewrite Hk, Ec. cbn. now rewrite Ha, Hb.
    + injection Hparts as <- <- <-.
      inversion Hd as [|? ? Hp Hd1]; subst. inversion Hd1 as [|? ? Hq Hd2]; subst.
      inversion Hd2 as [|? ? Hr _]; subst.
      apply (reparse_value p x Hp) in Ha. apply (reparse_value q y Hq) in Hb.
      apply (reparse_value r z Hr) in Hc.
      destruct (digitsValue_nonempty_keep v p [q; r] x Ec Ha) as (k & ks & Hk).
      unfold versionTriple. rewrite Hk, Ec. cbn. now rewrite Ha, Hb, Hc.
Qed.

(** *** The records of a scan over well-formed versions *)


Lemma yieldsRecord_returns {A} (m : Eff (option A)) (log : list event) :
  yieldsRecord m log -> exists r, snd (m log) = Returned r.
Proof. intros [a Ha]. eauto. Qed.








(** *** Tiers *)

Lemma numbersOf_safe (parts : list string) (ns : list N) :
  numbersOf parts = Some ns ->
  Forall (fun n => (n <? 2 ^ 53)%N = true) ns ->
  forallb safePart parts = true /\ List.length parts = List.length ns.
Proof.
  revert ns. induction parts as [|p ps IH]; intros ns; cbn [numbersOf].
  - intros [= <-] _. auto.
  - destruct (JS.digitsValue p) as [n|] eqn:Hn; [|discriminate].
    destruct (numbersOf ps) as [ms|]; [|discriminate].
    intros [= <-] H. inversion H as [|? ? Hb Hrest]; subst.
    destruct (IH ms eq_refl Hrest) as [Hs Hl].
    cbn. rewrite (below_safePart p n Hn Hb), Hs, Hl. auto.
Qed.

(** A version with a normal form whose numbers are below [2^53] is
    empty once stripped, or has one to three components. *)
Lemma versionTriple_cases (v : string) (t : N * N * N) :
  versionTriple v = Some t -> exactTriple t = true ->
  (JS.keep isVersionChar v = EmptyString /\ t = (0, 0, 0)%N)
  \/ shortVersion v = true.
Proof.
  unfold versionTriple. destruct (JS.keep isVersionChar v) as [|k ks] eqn:Ek.
  - intros [= <-] _. now left.
  - intros Ht Hex. right. unfold shortVersion.
    destruct (numbersOf (components v)) as [ns|] eqn:Hns; [|discriminate].
    assert (Hall : Forall (fun n => (n <? 2 ^ 53)%N = true) ns /\ List.length ns <= 3).
    { destruct ns as [|a [|b [|c [|d rest]]]]; try discriminate;
        injection Ht as <-; unfold exactTriple in Hex;
        repeat (apply andb_true_iff in Hex as [Hex ?]);
        (split; [repeat constructor; assumption|cbn; lia]). }
    destruct Hall as [Hall Hlen].
    destruct (numbersOf_safe _ _ Hns Hall) as [Hs Hl].
    rewrite Hs, Hl. cbn [andb]. now apply PeanoNat.Nat.leb_le.
Qed.

Lemma Number_dropLeadingZeros (part : string) (n : N) :
  JS.allChars JS.isDigit part = true -> safePart part = true ->
  JS.digitsValue part = Some n ->
  JS.Number (dropLeadingZeros part) = JS.Fin n.
Proof.
  intros Hd Hs Hn.
  destruct (numericIdentifier_dropLeadingZeros part Hd Hs) as (n' & Hn' & Hid).
  rewrite Hn in Hn'. injection Hn' as <-.
  now apply numericIdentifier_Number.
Qed.

(** The numbers the classifier compares are those of the normal form. *)
Lemma numericParts_triple (v : string) (a b c : N) :
  versionTriple v = Some (a, b, c) -> exactTriple (a, b, c) = true ->
  numericParts v = [JS.Fin a; JS.Fin b; JS.Fin c].
Proof.
  intros Ht Hex.
  destruct (versionTriple_cases v _ Ht Hex) as [[Hk Hz]|Hshort].
  - injection Hz as -> -> ->. unfold numericParts.
    destruct v as [|c0 v0] eqn:Ev; [reflexivity|]. rewrite <- Ev in *.
    rewrite sanitizeVersion_components.
    + unfold components. rewrite Hk. reflexivity.
    + subst v. discriminate.
    + unfold components. rewrite Hk. reflexivity.
  - pose proof Hshort as Hshort'.
    apply andb_true_iff in Hshort as [Hs Hlen]. apply PeanoNat.Nat.leb_le in Hlen.
    pose proof (safe_components_keep v Hs) as Hk.
    assert (Hv : v <> EmptyString) by (intros ->; now apply Hk).
    pose proof (components_digits v) as Hd.
    unfold numericParts. rewrite sanitizeVersion_components; [|exact Hv|].
    2:{ apply forallb_forall. intros p Hp. rewrite forallb_forall in Hs.
        now apply safePart_exact, Hs. }
    rewrite split_join.
    2:{ intros E. apply map_eq_nil in E. now apply components_nonempty in E. }
    2:{ apply Forall_map. eapply Forall_impl; [|exact Hd].
        intros part Hp. cbn beta. apply digits_lack_dot.
        now apply dropLeadingZeros_digits. }
    assert (Hnum : forall part, In part (components v) ->
                     exists n, JS.digitsValue part = Some n
                               /\ JS.Number (dropLeadingZeros part) = JS.Fin n).
    { intros part Hin. rewrite Forall_forall in Hd. rewrite forallb_forall in Hs.
      destruct (safePart_below part (Hs part Hin)) as (n & Hn & _).
      exists n. split; [exact Hn|].
      apply Number_dropLeadingZeros; auto. }
    unfold versionTriple in Ht.
    destruct (JS.keep isVersionChar v) as [|k ks]; [congruence|].
    clear Hk Hd Hs Hshort' Hex Hv.
    destruct (components v) as [|p [|q [|r [|s rest]]]]; [discriminate| | | |cbn in Hlen; lia].
    + destruct (Hnum p) as (x & Hx & Nx); [cbn; auto|].
      cbn in Ht. rewrite Hx in Ht. injection Ht as <- <- <-.
      cbn. now rewrite Nx.
    + destruct (Hnum p) as (x & Hx & Nx); [cbn; auto|].
      destruct (Hnum q) as (y & Hy & Ny); [cbn; auto|].
      cbn in Ht. rewrite Hx, Hy in Ht. injection Ht as <- <- <-.
      cbn. now rewrite Nx, Ny.
    + destruct (Hnum p) as (x & Hx & Nx); [cbn; auto|].
      destruct (Hnum q) as (y & Hy & Ny); [cbn; auto|].
      destruct (Hnum r) as (z & Hz & Nz); [cbn; auto|].
      cbn in Ht. rewrite Hx, Hy, Hz in Ht. injection Ht as <- <- <-.
      cbn. now rewrite Nx, Ny, Nz.
Qed.

Lemma getUpdateType_tierOf (current latest : string) (c l : N * N * N) :
  versionTriple current = Some c -> exactTriple c = true ->
  versionTriple latest = Some l -> exactTriple l = true ->
  getUpdateType (Some current) (Some latest) = tierOf c l.
Proof.
  destruct c as [[c1 c2] c3], l as [[l1 l2] l3]. intros Tc Ec Tl El.
  rewrite getUpdateType_classify. unfold classify, majorOf, minorOf.
  rewrite (numericParts_triple _ _ _ _ Tc Ec), (numericParts_triple _ _ _ _ Tl El).
  reflexivity.
Qed.

Lemma versionTriple_declared (operator version : string) :
  JS.allChars isOperatorChar operator = true ->
  versionTriple (operator ++ version) = versionTriple version.
Proof.
  intros Ho.
  assert (Hk : JS.keep isVersionChar (operator ++ version) = JS.keep isVersionChar version).
  { rewrite keep_app, keep_none; [reflexivity|].
    eapply allChars_impl; [|exact Ho]. intros ch Hc.
    unfold isVersionChar, JS.isDot.
    unfold isOperatorChar in Hc. rewrite !orb_true_iff in Hc.
    destruct Hc as [[[[H|H]|H]|H]|H]; apply Ascii.eqb_eq in H; subst; reflexivity. }
  unfold versionTriple, components. now rewrite Hk.
Qed.

(** The tier on a record is that of the versions the record shows. *)
Lemma records_tierOf (w : World) (dryRun : bool) (f : file)
    (log log' : list event) (outdated : list depInfo) :
  checkDependencies w dryRun f log = (log', Returned outdated) ->
  Forall (fun d => forall c l,
            versionTriple (currentVersion d) = Some c -> exactTriple c = true ->
            versionTriple (latestVersion d) = Some l -> exactTriple l = true ->
            updateType d = tierOf c l) outdated.
Proof.
  apply checkDependencies_records.
  - intros pkg n v l0 l' d H c l Tc Ec Tl El.
    destruct (checkNpmEntry_record _ _ _ _ _ _ _ _ H) as (_ & Hv & _).
    apply checkNpmEntry_shape in H as (_ & _ & -> & _).
    apply getUpdateType_tierOf; try assumption.
    rewrite versionTriple_keep. now rewrite <- Hv.
  - intros line l0 l' d H c l Tc Ec Tl El.
    destruct (checkPythonLine_record _ _ _ _ _ _ H) as (_ & n & o & v & Hm & Hn & Hv).
    apply checkPythonLine_shape in H as (o' & v' & Hm' & _ & -> & _).
    rewrite <- Hn in Hm. rewrite Hm in Hm'. injection Hm' as <- <-.
    apply getUpdateType_tierOf; try assumption.
    destruct (matchRequirement_spec _ _ _ _ Hm) as (_ & _ & _ & Ho & _).
    rewrite Hv, versionTriple_declared in Tc; assumption.
Qed.


(** A record is pushed only for a latest version that exceeds the
    declared one, whatever the two strings are. *)
Lemma checkNpmEntry_triples (w : World) (dryRun : bool) (pkg : packageJson)
    (depName version : string) (log : list event) :
  yieldsRecord (checkNpmEntry w dryRun pkg (depName, version)) log ->
  skippedExpression version = false
  /\ exists latest c l,
       getLatestNpmVersion w depName = Some latest
       /\ versionTriple version = Some c /\ exactTriple c = true
       /\ versionTriple latest = Some l /\ exactTriple l = true
       /\ triple_lt c l.
Proof.
  intros Hy.
  destruct (skippedExpression version) eqn:Hskip.
  { destruct Hy as [d Hd]. unfold checkNpmEntry in Hd. rewrite Hskip in Hd. discriminate. }
  split; [reflexivity|].
  apply (checkNpmEntry_yields w dryRun pkg depName version log Hskip) in Hy
    as (c & l & Pc & Pl & Hlt).
  destruct (getLatestNpmVersion w depName) as [latest|]; [|discriminate].
  apply parse_sanitized_normal in Pc as [Tc Ec].
  apply parse_sanitized_normal in Pl as [Tl El].
  rewrite versionTriple_keep in Tc.
  exists latest, c, l. repeat split; assumption.
Qed.

Lemma checkPythonLine_triples (w : World) (dryRun : bool)
    (line depName operator version : string) (log : list event) :
  matchRequirement line = Some (depName, operator, version) ->
  yieldsRecord (checkPythonLine w dryRun line) log ->
  skippedLine line = false
  /\ exists latest c l,
       getLatestPypiVersion w depName = Some latest
       /\ versionTriple version = Some c /\ exactTriple c = true
       /\ versionTriple latest = Some l /\ exactTriple l = true
       /\ triple_lt c l.
Proof.
  intros Hm Hy.
  destruct (skippedLine line) eqn:Hskip.
  { destruct Hy as [d Hd]. unfold checkPythonLine in Hd. rewrite Hskip in Hd. discriminate. }
  split; [reflexivity|].
  apply (checkPythonLine_yields w dryRun line depName operator version log Hskip Hm) in Hy
    as (c & l & Pc & Pl & Hlt).
  destruct (matchRequirement_spec _ _ _ _ Hm) as (_ & _ & _ & _ & _ & _ & _ & Hv).
  apply parse_compatible_normal in Pc as [Tc Ec]; [|now apply truthy_nonempty].
  destruct (JS.truthy (getLatestPypiVersion w depName)) eqn:Ht.
  - destruct (truthy_Some _ Ht) as [latest Hl]. rewrite Hl in *.
    apply parse_compatible_normal in Pl as [Tl El]; [|exact Ht].
    exists latest, c, l. repeat split; assumption.
  - rewrite (compatible_falsy _ Ht) in Pl. injection Pl as <-.
    now apply triple_lt_zero in Hlt.
Qed.


(** The versions a record shows. *)
Lemma records_triples (w : World) (dryRun : bool) (f : file)
    (log log' : list event) (outdated : list depInfo) :
  checkDependencies w dryRun f log = (log', Returned outdated) ->
  Forall (fun d => exists c l,
            versionTriple (currentVersion d) = Some c /\ exactTriple c = true
            /\ versionTriple (latestVersion d) = Some l /\ exactTriple l = true
            /\ triple_lt c l) outdated.
Proof.
  apply checkDependencies_records.
  - intros pkg n v l0 l' d H.
    destruct (checkNpmEntry_record _ _ _ _ _ _ _ _ H) as (_ & Hv & _).
    pose proof (checkNpmEntry_shape _ _ _ _ _ _ _ _ H) as (_ & Hl & _).
    destruct (checkNpmEntry_triples w dryRun pkg n v l0) as (_ & latest & c & l & El & Hc);
      [exists d; now rewrite H|].
    rewrite Hl in El. injection El as <-. rewrite Hv. now exists c, l.
  - intros line l0 l' d H.
    destruct (checkPythonLine_record _ _ _ _ _ _ H) as (_ & n & o & v & Hm & Hn & Hv).
    pose proof (checkPythonLine_shape _ _ _ _ _ _ H) as (o' & v' & Hm' & Hl & _).
    destruct (checkPythonLine_triples w dryRun line n o v l0 Hm)
      as (_ & latest & c & l & El & Tc & Hc); [exists d; now rewrite H|].
    rewrite Hn in Hl. rewrite Hl in El. injection El as <-.
    destruct (matchRequirement_spec _ _ _ _ Hm) as (_ & _ & _ & Ho & _).
    rewrite Hv, (versionTriple_declared o v Ho). now exists c, l.
Qed.

(** *** The two claims about versions *)







(** C6, as stated, fails: beyond [2^53] two different numbers are the
    same double.  The major component of the latest version exceeds that
    of the current one, and the answer is ['patch']. *)
Lemma update_tier_counterexample :
  versionTriple "9007199254740992.0.0" = Some (9007199254740992, 0, 0)%N
  /\ versionTriple "9007199254740993.0.0" = Some (9007199254740993, 0, 0)%N
  /\ (9007199254740992 <? 9007199254740993)%N = true
  /\ tierOf (9007199254740992, 0, 0)%N (9007199254740993, 0, 0)%N = major
  /\ getUpdateType (Some "9007199254740992.0.0") (Some "9007199254740993.0.0") = patch.
Proof. repeat split; vm_compute; reflexivity. Qed.

(** C6, amended.  For two versions with a normal form whose numbers are
    below [2^53], [getUpdateType] answers ['major'] whenever the major
    number of the latest version exceeds that of the current one,
    whatever minor and patch are; otherwise ['minor'] when the minor
    number exceeds; otherwise ['patch'].  It answers ['unknown'] exactly
    when a version is missing, which is never the case for the record of
    a scan: every record carries the tier of the two versions it shows,
    which have such normal forms. *)
Theorem update_tier_amended :
  (forall (current latest : string) (c l : N * N * N),
      versionTriple current = Some c -> exactTriple c = true ->
      versionTriple latest = Some l -> exactTriple l = true ->
      getUpdateType (Some current) (Some latest) = tierOf c l)
  /\ (forall c l : N * N * N, (fst (fst c) < fst (fst l))%N -> tierOf c l = major)
  /\ (forall current latest : option string,
         getUpdateType current latest = unknown <-> current = None \/ latest = None)
  /\ (forall (w : World) (dryRun : bool) (f : file) (log log' : list event)
             (outdated : list depInfo),
         checkDependencies w dryRun f log = (log', Returned outdated) ->
         Forall (fun d =>
                   updateType d <> unknown
                   /\ exists c l,
                        versionTriple (currentVersion d) = Some c
                        /\ versionTriple (latestVersion d) = Some l
                        /\ updateType d = tierOf c l) outdated)
  /\ getUpdateType (Some "1.9.9") (Some "2.0.0") = major.
Proof.
  split; [|split; [|split; [|split]]].
  - apply getUpdateType_tierOf.
  - intros [[c1 c2] c3] [[l1 l2] l3]. cbn. intros H.
    apply N.ltb_lt in H. now rewrite H.
  - apply getUpdateType_unknown.
  - intros w dryRun f log log' outdated Hrun.
    pose proof (records_classified w dryRun f log log' outdated Hrun) as H1.
    pose proof (records_tierOf w dryRun f log log' outdated Hrun) as H2.
    pose proof (records_triples w dryRun f log log' outdated Hrun) as H3.
    rewrite Forall_forall in *. intros d Hd. split; [now apply H1|].
    destruct (H3 d Hd) as (c & l & Tc & Ec & Tl & El & _).
    exists c, l. split; [exact Tc|]. split; [exact Tl|]. now apply H2.
  - reflexivity.
Qed.

Lemma update_tier_amended_witness :
  getUpdateType (Some "^1.09.9") (Some "v2") = major
  /\ getUpdateType (Some "1.2.3") (Some "1.10") = minor
  /\ getUpdateType (Some "") (Some "0.0.7") = patch.
Proof.
  split; [|split].
  - exact (proj1 update_tier_amended "^1.09.9" "v2" (1, 9, 9)%N (2, 0, 0)%N
             eq_refl eq_refl eq_refl eq_refl).
  - exact (proj1 update_tier_amended "1.2.3" "1.10" (1, 2, 3)%N (1, 10, 0)%N
             eq_refl eq_refl eq_refl eq_refl).
  - exact (proj1 update_tier_amended "" "0.0.7" (0, 0, 0)%N (0, 0, 7)%N
             eq_refl eq_refl eq_refl eq_refl).
Defined.

(* ================================================================== *)
(** ** The body of a pull request and the groups of a report *)
(* ================================================================== *)

Lemma tiers_partition (deps : list depInfo) :
  Forall (fun d => updateType d <> unknown) deps ->
  List.length deps
  = List.length (filter (fun d => tier_eqb (updateType d) major) deps)
    + List.length (filter (fun d => tier_eqb (updateType d) minor) deps)
    + List.length (filter (fun d => tier_eqb (updateType d) patch) deps).
Proof.
  induction 1 as [|d ds Hd _ IH]; [reflexivity|].
  cbn [filter List.length].
  destruct (updateType d); cbn [tier_eqb List.length]; try lia. congruence.
Qed.

(** X8.  No record of a scan has an unknown update type, so every update
    offered in a pull request stands in the list of major, of minor or of
    patch updates: the total is the sum of the three lists, and the
    overall risk is low exactly when every update is a patch. *)
Theorem pull_request_lists_every_update (w : World) (dryRun : bool) (f : file)
    (outdated : list depInfo) :
  outdatedOf w dryRun f = Returned outdated ->
  let deps := safeDeps dryRun outdated in
  let body := generateContextProtocolPR f deps in
  Forall (fun d => updateType d <> unknown) outdated
  /\ totalUpdates body
     = List.length (majorUpdates body) + List.length (minorUpdates body)
       + List.length (patchUpdates body)
  /\ (forall d, In d deps ->
                In d (majorUpdates body) \/ In d (minorUpdates body)
                \/ In d (patchUpdates body))
  /\ (overallRisk body = Low <-> Forall (fun d => updateType d = patch) deps).
Proof.
  unfold outdatedOf. intros Hrun. apply snd_run in Hrun.
  pose proof (records_classified _ _ _ _ _ _ Hrun) as Hall.
  assert (Hdeps : Forall (fun d => updateType d <> unknown) (safeDeps dryRun outdated)).
  { unfold safeDeps. destruct dryRun; [exact Hall|].
    apply Forall_forall. intros d Hd. apply filter_In in Hd as [Hd _].
    rewrite Forall_forall in Hall. now apply Hall. }
  cbn zeta. split; [exact Hall|]. split; [|split].
  - cbn. now apply tiers_partition.
  - intros d Hd. cbn. rewrite !filter_In.
    rewrite Forall_forall in Hdeps. specialize (Hdeps d Hd).
    destruct (updateType d); cbn; auto; congruence.
  - cbn. set (deps := safeDeps dryRun outdated) in *. clearbody deps.
    clear Hrun Hall. induction Hdeps as [|d ds Hd Hds IH]; cbn [filter].
    + split; [constructor|reflexivity].
    + destruct (updateType d) eqn:E; cbn [tier_eqb nonEmpty].
      * split; [discriminate|]. intros H. inversion H; congruence.
      * destruct (nonEmpty (filter _ ds)); (split; [discriminate|]);
          intros H; inversion H; congruence.
      * rewrite IH. split; [intros H; now constructor|].
        intros H. now inversion H.
      * congruence.
Qed.

Lemma pull_request_lists_every_update_witness :
  exists outdated,
    outdatedOf exampleWorld false exampleRequirements = Returned outdated
    /\ map updateType outdated = [minor; major]
    /\ totalUpdates (generateContextProtocolPR exampleRequirements (safeDeps false outdated))
       = List.length (majorUpdates (generateContextProtocolPR exampleRequirements
                                      (safeDeps false outdated)))
         + List.length (minorUpdates (generateContextProtocolPR exampleRequirements
                                        (safeDeps false outdated)))
         + List.length (patchUpdates (generateContextProtocolPR exampleRequirements
                                        (safeDeps false outdated))).
Proof.
  destruct (outdatedOf exampleWorld false exampleRequirements) as [outdated|err] eqn:E;
    [|vm_compute in E; discriminate].
  exists outdated. split; [reflexivity|].
  destruct (pull_request_lists_every_update exampleWorld false exampleRequirements
              outdated E) as (_ & Htotal & _).
  split; [|exact Htotal].
  vm_compute in E. injection E as <-. reflexivity.
Defined.

Lemma buildReport_total (dependencies : list depInfo) :
  List.length dependencies
  = List.length (filter isSafeDep dependencies)
    + List.length (filter isUnsafeDep dependencies)
    + List.length (filter isSkippedDep dependencies).
Proof.
  induction dependencies as [|d ds IH]; [reflexivity|].
  cbn [filter List.length]. unfold isSafeDep, isUnsafeDep, isSkippedDep in *.
  destruct (securityCheck d) as [[[|] ?]|]; cbn [safe negb List.length]; lia.
Qed.

(** X9.  The safe, the unsafe and the skipped updates of a report
    partition the dependencies checked: every dependency is in one of the
    three groups, no dependency is in two, and the number checked is the
    sum of the three. *)
Theorem report_groups_partition (dependencies : list depInfo) :
  let r := buildReport dependencies in
  totalChecked r
  = List.length (safeUpdates r) + List.length (unsafeUpdates r)
    + List.length (skippedUpdates r)
  /\ (forall d, In d dependencies ->
                In d (safeUpdates r) \/ In d (unsafeUpdates r) \/ In d (skippedUpdates r))
  /\ (forall d, ~ (In d (safeUpdates r) /\ In d (unsafeUpdates r)))
  /\ (forall d, ~ (In d (safeUpdates r) /\ In d (skippedUpdates r)))
  /\ (forall d, ~ (In d (unsafeUpdates r) /\ In d (skippedUpdates r))).
Proof.
  cbn. split; [apply buildReport_total|split; [|split; [|split]]].
  - intros d Hin. rewrite !filter_In.
    unfold isSafeDep, isUnsafeDep, isSkippedDep.
    destruct (securityCheck d) as [[[|] ?]|]; cbn; auto.
  - intros d. rewrite !filter_In. unfold isSafeDep, isUnsafeDep.
    destruct (securityCheck d) as [[[|] ?]|]; cbn; intuition discriminate.
  - intros d. rewrite !filter_In. unfold isSafeDep, isSkippedDep.
    destruct (securityCheck d) as [[[|] ?]|]; cbn; intuition discriminate.
  - intros d. rewrite !filter_In. unfold isUnsafeDep, isSkippedDep.
    destruct (securityCheck d) as [[[|] ?]|]; cbn; intuition discriminate.
Qed.

(* ================================================================== *)
(** ** A run over the repositories *)
(* ================================================================== *)

Lemma processRepository_returns (w : World) (dryRun : bool) (repo : repository)
    (log : list event) :
  snd (processRepository w dryRun repo log) = Returned tt.
Proof.
  unfold processRepository, tryCatch, ebind.
  destruct (processFiles w dryRun repo [] (getPackageFiles repo) log)
    as [log1 [all|err]]; [|reflexivity].
  destruct (nonEmpty all && negb dryRun); reflexivity.
Qed.

Lemma run_returns (w : World) (dryRun : bool) (repos : list repository)
    (log : list event) :
  snd (run w dryRun repos log) = Returned tt.
Proof.
  revert log. induction repos as [|repo rest IH]; intros log; cbn [run]; [reflexivity|].
  unfold ebind. pose proof (processRepository_returns w dryRun repo log) as H.
  destruct (processRepository w dryRun repo log) as [log1 [[]|err]]; [apply IH|discriminate].
Qed.

(** X10.  Processing a repository never throws, whatever fails inside,
    and neither does a run; so a run over a list of repositories goes on
    with the later ones, from the requests the earlier ones have left. *)
Theorem run_attempts_every_repository (w : World) (dryRun : bool) :
  (forall repo log, snd (processRepository w dryRun repo log) = Returned tt)
  /\ (forall repos log, snd (run w dryRun repos log) = Returned tt)
  /\ (forall before after log,
         fst (run w dryRun (before ++ after) log)
         = fst (run w dryRun after (fst (run w dryRun before log)))).
Proof.
  split; [apply processRepository_returns|]. split; [apply run_returns|].
  induction before as [|repo rest IH]; intros after log; cbn [run app]; [reflexivity|].
  unfold ebind. pose proof (processRepository_returns w dryRun repo log) as H.
  destruct (processRepository w dryRun repo log) as [log1 [[]|err]]; [apply IH|discriminate].
Qed.

Lemma processRepository_appends (w : World) (dryRun : bool) (repo : repository)
    (log : list event) :
  exists evs,
    fst (processRepository w dryRun repo log) = (log ++ evs)%list
    /\ Forall (runEvent w dryRun (getPackageFiles repo)) evs.
Proof.
  unfold processRepository, tryCatch, ebind.
  destruct (processFiles_events w dryRun (getPackageFiles repo) repo
              (getPackageFiles repo) (incl_refl _) [] log)
    as (evs & Hlog & Hev & Hres).
  destruct (processFiles w dryRun repo [] (getPackageFiles repo) log)
    as [log1 [all|err]]; cbn [fst snd] in *; subst log1.
  - destruct (Hres all eq_refl) as (perFile & HF & ->). cbn [app].
    destruct (nonEmpty (List.concat perFile) && negb dryRun) eqn:Hrep.
    + unfold generateReport, emit. cbn [fst].
      exists (evs ++ [WriteReport (full_name repo) (buildReport (List.concat perFile))])%list.
      split; [now rewrite List.app_assoc|].
      apply Forall_app. split; [exact Hev|].
      constructor; [|constructor]. cbn.
      apply andb_true_iff in Hrep as [_ Hd]. apply negb_true_iff in Hd.
      split; [exact Hd|]. now exists perFile.
    + unfold ret. cbn. now exists evs.
  - unfold ret. cbn. now exists evs.
Qed.

Lemma run_appends (Q : event -> Prop) (w : World) (dryRun : bool) :
  (forall repo e, runEvent w dryRun (getPackageFiles repo) e -> Q e) ->
  forall repos log,
  exists evs, fst (run w dryRun repos log) = (log ++ evs)%list /\ Forall Q evs.
Proof.
  intros HQ. induction repos as [|repo rest IH]; intros log; cbn [run].
  - exists []. unfold ret. cbn. now rewrite List.app_nil_r.
  - unfold ebind.
    destruct (processRepository_appends w dryRun repo log) as (evs1 & Hlog & Hev).
    destruct (processRepository w dryRun repo log) as [log1 [[]|err]];
      cbn [fst] in *; subst log1.
    + destruct (IH (log ++ evs1)%list) as (evs2 & -> & Hev2).
      exists (evs1 ++ evs2)%list. split; [now rewrite List.app_assoc|].
      apply Forall_app. split; [|exact Hev2].
      eapply Forall_impl; [|exact Hev]. apply HQ.
    + exists evs1. split; [reflexivity|].
      eapply Forall_impl; [|exact Hev]. apply HQ.
Qed.

(** X11.  A report is written outside a dry run only, and no report that
    is written lists a skipped update: the dependencies it counts are its
    safe and its unsafe ones. *)
Theorem written_reports_list_no_skipped (w : World) (dryRun : bool)
    (repos : list repository) (log : list event) :
  exists evs,
    fst (run w dryRun repos log) = (log ++ evs)%list
    /\ Forall (fun e => match e with
                        | WriteReport _ r =>
                            dryRun = false
                            /\ skippedUpdates r = []
                            /\ totalChecked r
                               = List.length (safeUpdates r) + List.length (unsafeUpdates r)
                        | _ => True
                        end) evs.
Proof.
  apply run_appends. intros repo [] H; try exact I.
  cbn in H. destruct H as (-> & perFile & HF & ->).
  split; [reflexivity|].
  assert (Hnone : filter isSkippedDep (List.concat perFile) = []).
  { apply filter_none. apply Forall_concat.
    clear -HF. induction HF as [|f outdated fs rest Hf _ IH]; constructor; [|exact IH].
    unfold outdatedOf in Hf. apply snd_run in Hf.
    now apply records_verdict in Hf. }
  cbn. split; [exact Hnone|].
  rewrite (buildReport_total (List.concat perFile)), Hnone. cbn. lia.
Qed.

(** X12.  When the scan of [package.json] throws, processing the
    repository ends there, without an error: the requests issued are
    exactly those of that scan, all of them questions to the oracle; no
    branch, commit, pull request or report follows, and
    [requirements.txt] is not looked at.  With a [package.json] that does
    not parse, no request is issued at all. *)
Theorem scan_failure_ends_repository (w : World) (dryRun : bool) (repo : repository)
    (parsed : option packageJson) (error : exn) (log : list event) :
  package_json repo = Some parsed ->
  outdatedOf w dryRun {| path := "package.json"; content := npm parsed |} = Throws error ->
  processRepository w dryRun repo log
  = ((log ++ fst (checkDependencies w dryRun
                    {| path := "package.json"; content := npm parsed |} []))%list,
     Returned tt)
  /\ forallb isSecurityQuery
       (fst (checkDependencies w dryRun
               {| path := "package.json"; content := npm parsed |} [])) = true
  /\ (parsed = None -> processRepository w dryRun repo log = (log, Returned tt)).
Proof.
  intros Hpkg Hthrows.
  assert (Hrun : processRepository w dryRun repo log
                 = ((log ++ fst (checkDependencies w dryRun
                                   {| path := "package.json"; content := npm parsed |}
                                   []))%list,
                    Returned tt)).
  { unfold processRepository, tryCatch, ebind, getPackageFiles. rewrite Hpkg.
    cbn [app processFiles]. unfold ebind, processFile, ebind.
    rewrite (parametric_checkDependencies w dryRun _ log).
    unfold outdatedOf in Hthrows. rewrite Hthrows. reflexivity. }
  split; [exact Hrun|]. split.
  - apply forallb_forall. intros e He.
    pose proof (checkDependencies_events w dryRun
                  {| path := "package.json"; content := npm parsed |}) as H.
    rewrite Forall_forall in H. now destruct (H e He).
  - intros ->. rewrite Hrun. cbn. now rewrite List.app_nil_r.
Qed.

Lemma scan_failure_ends_repository_witness :
  processRepository exampleWorld false brokenPackage [] = ([], Returned tt)
  /\ processRepository exampleWorld false lateFailure []
     = ([SecurityQuery "b" "1.0.0" "2.0.0" "npm"], Returned tt).
Proof.
  split.
  - exact (proj2 (proj2 (scan_failure_ends_repository exampleWorld false brokenPackage None
                           (SyntaxError "Unexpected token in JSON") [] eq_refl eq_refl))
             eq_refl).
  - exact (proj1 (scan_failure_ends_repository exampleWorld false lateFailure _
                    (TypeError "Invalid Version: 1.2") [] eq_refl eq_refl)).
Defined.

(** *** One branch for both manifests *)

Lemma created_app (w : World) (log evs : list event) (repo ref : string) :
  created w log repo ref -> created w (log ++ evs) repo ref.
Proof.
  intros (before & sha & after & -> & Hacc).
  exists before, sha, (after ++ evs)%list. split; [|exact Hacc].
  now rewrite <- List.app_assoc.
Qed.

Lemma pulls_app (a b : list event) : pulls (a ++ b) = pulls a + pulls b.
Proof. unfold pulls. now rewrite filter_app, length_app. Qed.

Lemma staysOn_now (w : World) (log : list event) (day : string) :
  staysOn w log day -> today w log = day.
Proof. intros H. specialize (H []). now rewrite List.app_nil_r in H. Qed.

Lemma staysOn_app (w : World) (log evs : list event) (day : string) :
  staysOn w log day -> staysOn w (log ++ evs) day.
Proof. intros H rest. rewrite <- List.app_assoc. apply H. Qed.

Lemma singlePull_seq (w : World) (repo : repository) (day : string)
    (log a b : list event) :
  singlePull w repo day log a -> singlePull w repo day (log ++ a) b ->
  singlePull w repo day log (a ++ b).
Proof.
  intros (Ha1 & Ha2 & Ha3) (Hb1 & Hb2 & Hb3). unfold singlePull.
  rewrite pulls_app, List.app_assoc.
  assert (pulls a = 1 -> pulls b = 0) as Hab by (intros H; auto).
  split; [|split].
  - destruct (pulls a) as [|[|n]]; [lia| |lia]. rewrite Hab; lia.
  - intros Hc. rewrite (Ha2 Hc). apply Hb2. now apply created_app.
  - intros Hsum. destruct (pulls a) as [|[|n]]; [apply Hb3; lia| |lia].
    apply created_app. now apply Ha3.
Qed.

Lemma singlePull_queries (w : World) (repo : repository) (day : string)
    (log evs : list event) :
  Forall (fun e => isSecurityQuery e = true) evs -> singlePull w repo day log evs.
Proof.
  intros H. assert (pulls evs = 0) as E.
  { unfold pulls. rewrite filter_none; [reflexivity|].
    eapply Forall_impl; [|exact H]. now intros []. }
  unfold singlePull. rewrite E. repeat split; auto. discriminate.
Qed.

Lemma createUpdatePR_singlePull (w : World) (repo : repository) (f : file)
    (deps : list depInfo) (day : string) (log : list event) :
  refusesExistingRef w -> today w log = day ->
  exists evs,
    fst (createUpdatePR w repo f deps log) = (log ++ evs)%list
    /\ singlePull w repo day log evs.
Proof.
  intros Hhost Hday.
  unfold createUpdatePR, currentDate, createBranch, commitFile, request, ebind, lift.
  rewrite Hday.
  assert (Hnil : singlePull w repo day log []).
  { apply singlePull_queries. constructor. }
  destruct (getDefaultBranch w repo) as [baseBranch|err];
    [|exists []; split; [now rewrite List.app_nil_r|exact Hnil]].
  destruct (getRef w repo _) as [sha|err];
    [|exists []; split; [now rewrite List.app_nil_r|exact Hnil]].
  fold (updateRef day).
  destruct (accepts w log (CreateRef (full_name repo) (updateRef day) sha)) eqn:Hacc.
  2:{ eexists [_]. split; [reflexivity|]. unfold singlePull. cbn.
      repeat split; auto. discriminate. }
  assert (Hnot : ~ created w log (full_name repo) (updateRef day)).
  { intros Hc. rewrite (Hhost _ _ _ sha Hc) in Hacc. discriminate. }
  assert (Hnow : forall rest,
             created w (log ++ CreateRef (full_name repo) (updateRef day) sha :: rest)
                     (full_name repo) (updateRef day)).
  { intros rest. exists log, sha, rest. auto. }
  assert (Hfin : forall evs,
             pulls evs <= 1 ->
             (exists rest, evs = CreateRef (full_name repo) (updateRef day) sha :: rest) ->
             singlePull w repo day log evs).
  { intros evs Hle (rest & ->). split; [exact Hle|]. split; [contradiction|].
    intros _. apply Hnow. }
  destruct (updateDependenciesInFile f deps) as [updatedContent|err].
  2:{ eexists [_]. split; [reflexivity|].
      apply Hfin.
      - unfold pulls. cbn. lia.
      - eexists. reflexivity. }
  match goal with
  | |- context [match (if accepts w ?l ?e then _ else _) with _ => _ end] =>
      destruct (accepts w l e)
  end.
  - eexists [_; _; _]. split; [cbn [fst]; now rewrite <- !List.app_assoc|].
    apply Hfin; [unfold pulls; cbn; lia|eexists; reflexivity].
  - eexists [_; _]. split; [cbn [fst]; now rewrite <- !List.app_assoc|].
    apply Hfin; [unfold pulls; cbn; lia|eexists; reflexivity].
Qed.

Lemma processFile_singlePull (w : World) (dryRun : bool) (repo : repository)
    (acc : list depInfo) (f : file) (day : string) (log : list event) :
  refusesExistingRef w -> staysOn w log day ->
  exists evs,
    fst (processFile w dryRun repo acc f log) = (log ++ evs)%list
    /\ singlePull w repo day log evs.
Proof.
  intros Hhost Hday. unfold processFile, ebind.
  rewrite (parametric_checkDependencies w dryRun f log).
  assert (Hq : singlePull w repo day log (fst (checkDependencies w dryRun f []))).
  { apply singlePull_queries. eapply Forall_impl; [|apply checkDependencies_events].
    now intros e [He _]. }
  destruct (checkDependencies w dryRun f []) as [evs0 [outdated|err]];
    cbn [fst snd] in *; [|now exists evs0].
  destruct (nonEmpty outdated); [|now exists evs0].
  destruct (nonEmpty (safeDeps dryRun outdated)); [|now exists evs0].
  destruct (createUpdatePR_singlePull w repo f (safeDeps dryRun outdated) day
              (log ++ evs0)%list Hhost) as (evs1 & Hlog & Hone).
  { apply staysOn_now. now apply staysOn_app. }
  exists (evs0 ++ evs1)%list. split; [|now apply singlePull_seq].
  destruct (createUpdatePR w repo f (safeDeps dryRun outdated) (log ++ evs0)%list)
    as [log1 [[]|err]]; cbn [fst] in *; subst log1; now rewrite List.app_assoc.
Qed.

Lemma processFiles_singlePull (w : World) (dryRun : bool) (repo : repository)
    (files : list file) (day : string) :
  refusesExistingRef w ->
  forall (acc : list depInfo) (log : list event),
  staysOn w log day ->
  exists evs,
    fst (processFiles w dryRun repo acc files log) = (log ++ evs)%list
    /\ singlePull w repo day log evs.
Proof.
  intros Hhost. induction files as [|f rest IH]; intros acc log Hday; cbn [processFiles].
  - exists []. unfold ret. cbn. rewrite List.app_nil_r. split; [reflexivity|].
    apply singlePull_queries. constructor.
  - unfold ebind.
    destruct (processFile_singlePull w dryRun repo acc f day log Hhost Hday)
      as (evs1 & Hlog & Hone).
    destruct (processFile w dryRun repo acc f log) as [log1 [acc1|err]];
      cbn [fst] in *; subst log1; [|now exists evs1].
    destruct (IH acc1 (log ++ evs1)%list) as (evs2 & Hlog2 & Htwo);
      [now apply staysOn_app|].
    exists (evs1 ++ evs2)%list. split; [now rewrite List.app_assoc|].
    now apply singlePull_seq.
Qed.

(** X13.  On a host that refuses to create a branch that exists, and
    while the clock, read by every call of [createUpdatePR], stays on one
    day, processing a repository opens at most one pull request, whatever
    the number of its manifests with updates, and none when the update
    branch of that day exists already. *)
Theorem one_pull_request_per_repository (w : World) (dryRun : bool)
    (repo : repository) (day : string) (log : list event) :
  refusesExistingRef w -> staysOn w log day ->
  exists evs,
    fst (processRepository w dryRun repo log) = (log ++ evs)%list
    /\ pulls evs <= 1
    /\ (created w log (full_name repo) (updateRef day) -> pulls evs = 0).
Proof.
  intros Hhost Hday. unfold processRepository, tryCatch, ebind.
  destruct (processFiles_singlePull w dryRun repo (getPackageFiles repo) day Hhost [] log Hday)
    as (evs & Hlog & Hone & Hnone & _).
  destruct (processFiles w dryRun repo [] (getPackageFiles repo) log)
    as [log1 [all|err]]; cbn [fst] in *; subst log1.
  - destruct (nonEmpty all && negb dryRun).
    + unfold generateReport, emit. cbn [fst].
      eexists (evs ++ [_])%list. split; [now rewrite List.app_assoc|].
      unfold pulls in *. rewrite filter_app, length_app. cbn.
      split; [lia|]. intros Hc. specialize (Hnone Hc). lia.
    + unfold ret. cbn. now exists evs.
  - unfold ret. cbn. now exists evs.
Qed.

Lemma strictWorld_refuses : refusesExistingRef strictWorld.
Proof.
  intros log repo ref sha (before & sha' & after & -> & _). cbn.
  apply negb_false_iff. rewrite existsb_app. cbn.
  rewrite !String.eqb_refl. cbn. now rewrite orb_true_r.
Qed.

Lemma one_pull_request_per_repository_witness :
  exists evs,
    fst (processRepository strictWorld false bothManifests []) = evs
    /\ pulls evs <= 1
    /\ map isWrite evs = [false; true; true; true; false; true].
Proof.
  destruct (one_pull_request_per_repository strictWorld false bothManifests "2025-01-15" []
              strictWorld_refuses (fun _ => eq_refl)) as (evs & Hlog & Hone & _).
  exists evs. cbn [app] in Hlog. split; [exact Hlog|]. split; [exact Hone|].
  rewrite <- Hlog. vm_compute. reflexivity.
Defined.

Lemma midnightWorld_refuses : refusesExistingRef midnightWorld.
Proof.
  intros log repo ref sha (before & sha' & after & -> & _). cbn.
  apply negb_false_iff. rewrite existsb_app. cbn.
  rewrite !String.eqb_refl. cbn. now rewrite orb_true_r.
Qed.

(** The clock matters: when the day changes between the two manifests of
    a repository, the second call of [createUpdatePR] names another
    branch, and a second pull request is opened on the same host. *)
Lemma two_pull_requests_across_midnight :
  refusesExistingRef midnightWorld
  /\ pulls (fst (processRepository midnightWorld false bothManifests [])) = 2
  /\ map eventBranch (fst (processRepository midnightWorld false bothManifests []))
     = [None; Some "refs/heads/dependency-updates-2025-01-15";
        Some "dependency-updates-2025-01-15"; Some "dependency-updates-2025-01-15";
        None; Some "refs/heads/dependency-updates-2025-01-16";
        Some "dependency-updates-2025-01-16"; Some "dependency-updates-2025-01-16";
        None].
Proof.
  split; [exact midnightWorld_refuses|]. split; vm_compute; reflexivity.
Qed.

(** *** The repositories that are visited *)

Lemma getRepositories_archived (cfg : Config.t) (octokit : Octokit) (repos : list listing) :
  getRepositories cfg octokit = Returned repos ->
  Forall (fun r => archived r = false) repos.
Proof.
  unfold getRepositories. destruct (Config.targetRepo cfg) as [[owner repo]|].
  - destruct (repos_get octokit owner repo) as [r|err].
    + destruct (archived r) eqn:Ha; intros [= <-]; repeat constructor. exact Ha.
    + intros [= <-]. constructor.
  - destruct (listReposAccessibleToInstallation octokit) as [all|err]; [|discriminate].
    cbn [bind]. intros [= <-].
    apply Forall_forall. intros r Hr. apply filter_In in Hr as [_ H].
    apply andb_true_iff in H as [H _]. now apply negb_true_iff in H.
Qed.

(** X14.  [getRepositories] never selects an archived repository.  With
    a target repository it never throws and selects at most that one:
    exactly that one when the host returns it and it is not archived,
    none when it is archived and none when the request fails.  Without a
    target it selects, of the repositories the host lists, those that are
    neither archived nor excluded, and it throws when the listing does. *)
Theorem getRepositories_selection (cfg : Config.t) (octokit : Octokit) :
  (forall repos,
      getRepositories cfg octokit = Returned repos ->
      Forall (fun r => archived r = false) repos
      /\ (Config.targetRepo cfg = None -> Forall (fun r => excluded cfg r = false) repos)
      /\ (Config.targetRepo cfg <> None -> List.length repos <= 1))
  /\ (Config.targetRepo cfg <> None -> exists repos, getRepositories cfg octokit = Returned repos)
  /\ (forall owner repo r,
         Config.targetRepo cfg = Some (owner, repo) ->
         repos_get octokit owner repo = Returned r -> archived r = false ->
         getRepositories cfg octokit = Returned [r])
  /\ (forall owner repo r,
         Config.targetRepo cfg = Some (owner, repo) ->
         repos_get octokit owner repo = Returned r -> archived r = true ->
         getRepositories cfg octokit = Returned [])
  /\ (forall owner repo error,
         Config.targetRepo cfg = Some (owner, repo) ->
         repos_get octokit owner repo = Throws error ->
         getRepositories cfg octokit = Returned [])
  /\ (forall listed,
         Config.targetRepo cfg = None ->
         listReposAccessibleToInstallation octokit = Returned listed ->
         exists repos,
           getRepositories cfg octokit = Returned repos
           /\ forall r, In r repos
                        <-> In r listed /\ archived r = false /\ excluded cfg r = false)
  /\ (forall error,
         Config.targetRepo cfg = None ->
         listReposAccessibleToInstallation octokit = Throws error ->
         getRepositories cfg octokit = Throws error).
Proof.
  split; [|split; [|split; [|split; [|split; [|split]]]]].
  - intros repos Hrepos. split; [now apply getRepositories_archived in Hrepos|].
    revert Hrepos. unfold getRepositories.
    destruct (Config.targetRepo cfg) as [[owner repo]|].
    + destruct (repos_get octokit owner repo) as [r|err].
      * destruct (archived r); intros [= <-]; (split; [discriminate|]);
          intros _; cbn; lia.
      * intros [= <-]. split; [discriminate|]. intros _. cbn. lia.
    + destruct (listReposAccessibleToInstallation octokit) as [all|err]; [|discriminate].
      cbn [bind]. intros [= <-]. split; [|congruence].
      intros _. apply Forall_forall. intros r Hr. apply filter_In in Hr as [_ H].
      apply andb_true_iff in H as [_ H]. now apply negb_true_iff in H.
  - unfold getRepositories.
    destruct (Config.targetRepo cfg) as [[owner repo]|]; [intros _|congruence].
    destruct (repos_get octokit owner repo) as [r|err]; [|now eexists].
    destruct (archived r); now eexists.
  - unfold getRepositories. intros owner repo r -> -> ->. reflexivity.
  - unfold getRepositories. intros owner repo r -> -> ->. reflexivity.
  - unfold getRepositories. intros owner repo error -> ->. reflexivity.
  - unfold getRepositories. intros listed -> ->. cbn [bind].
    eexists. split; [reflexivity|]. intros r.
    rewrite filter_In, andb_true_iff, !negb_true_iff. tauto.
  - unfold getRepositories. intros error -> ->. reflexivity.
Qed.

Lemma getRepositories_selection_witness :
  getRepositories {| Config.targetRepo := Some ("acme", "demo");
                     Config.excludedRepos := [];
                     Config.dryRun := false |} exampleOctokit
  = Returned [demoListing]
  /\ getRepositories {| Config.targetRepo := Some ("acme", "attic");
                        Config.excludedRepos := [];
                        Config.dryRun := false |} exampleOctokit
     = Returned []
  /\ getRepositories {| Config.targetRepo := Some ("acme", "gone");
                        Config.excludedRepos := [];
                        Config.dryRun := false |} exampleOctokit
     = Returned []
  /\ getRepositories {| Config.targetRepo := None;
                        Config.excludedRepos := ["acme/vendor"];
                        Config.dryRun := false |} exampleOctokit
     = Returned [demoListing].
Proof.
  split; [|split; [|split]].
  - apply (proj1 (proj2 (proj2 (getRepositories_selection
                           {| Config.targetRepo := Some ("acme", "demo");
                              Config.excludedRepos := [];
                              Config.dryRun := false |} exampleOctokit)))
             "acme" "demo" demoListing); reflexivity.
  - apply (proj1 (proj2 (proj2 (proj2 (getRepositories_selection
                           {| Config.targetRepo := Some ("acme", "attic");
                              Config.excludedRepos := [];
                              Config.dryRun := false |} exampleOctokit))))
             "acme" "attic" atticListing); reflexivity.
  - apply (proj1 (proj2 (proj2 (proj2 (proj2 (getRepositories_selection
                           {| Config.targetRepo := Some ("acme", "gone");
                              Config.excludedRepos := [];
                              Config.dryRun := false |} exampleOctokit)))))
             "acme" "gone" (ApiError "Not Found")); reflexivity.
  - reflexivity.
Defined.

Lemma about_app (repos : list repository) (a b : list event) :
  about repos a -> about repos b -> about repos (a ++ b).
Proof. intros Ha Hb. apply Forall_app. now split. Qed.

Lemma about_queries (repos : list repository) (evs : list event) :
  Forall (fun e => isSecurityQuery e = true) evs -> about repos evs.
Proof.
  intros H. eapply Forall_impl; [|exact H]. now intros [].
Qed.

Lemma about_more (repo : repository) (repos : list repository) (evs : list event) :
  about repos evs -> about (repo :: repos) evs.
Proof.
  intros H. eapply Forall_impl; [|exact H].
  intros e. cbn beta. destruct (eventRepo e); [|auto].
  intros Hin. cbn [map]. right. exact Hin.
Qed.

Lemma about_one (repo : repository) (repos : list repository) (evs : list event) :
  about [repo] evs -> about (repo :: repos) evs.
Proof.
  intros H. eapply Forall_impl; [|exact H].
  intros e. cbn beta. destruct (eventRepo e); [|auto].
  cbn [map]. intros [H1|[]]. left. exact H1.
Qed.

Lemma createUpdatePR_about (w : World) (repo : repository) (f : file)
    (deps : list depInfo) (log : list event) :
  exists evs,
    fst (createUpdatePR w repo f deps log) = (log ++ evs)%list /\ about [repo] evs.
Proof.
  unfold createUpdatePR, currentDate, createBranch, commitFile, request, ebind, lift.
  destruct (getDefaultBranch w repo) as [baseBranch|err];
    [|exists []; split; [now rewrite List.app_nil_r|constructor]].
  destruct (getRef w repo _) as [sha|err];
    [|exists []; split; [now rewrite List.app_nil_r|constructor]].
  destruct (accepts w log _);
    [|eexists [_]; split; [reflexivity|repeat constructor; cbn; auto]].
  destruct (updateDependenciesInFile f deps) as [updatedContent|err];
    [|eexists [_]; split; [reflexivity|repeat constructor; cbn; auto]].
  match goal with
  | |- context [match (if accepts w ?l ?e then _ else _) with _ => _ end] =>
      destruct (accepts w l e)
  end.
  - eexists [_; _; _]. split; [cbn [fst]; now rewrite <- !List.app_assoc|].
    repeat constructor; cbn; auto.
  - eexists [_; _]. split; [cbn [fst]; now rewrite <- !List.app_assoc|].
    repeat constructor; cbn; auto.
Qed.

Lemma processFile_about (w : World) (dryRun : bool) (repo : repository)
    (acc : list depInfo) (f : file) (log : list event) :
  exists evs,
    fst (processFile w dryRun repo acc f log) = (log ++ evs)%list /\ about [repo] evs.
Proof.
  unfold processFile, ebind.
  rewrite (parametric_checkDependencies w dryRun f log).
  assert (Hq : about [repo] (fst (checkDependencies w dryRun f []))).
  { apply about_queries. eapply Forall_impl; [|apply checkDependencies_events].
    now intros e [He _]. }
  destruct (checkDependencies w dryRun f []) as [evs0 [outdated|err]];
    cbn [fst snd] in *; [|now exists evs0].
  destruct (nonEmpty outdated); [|now exists evs0].
  destruct (nonEmpty (safeDeps dryRun outdated)); [|now exists evs0].
  destruct (createUpdatePR_about w repo f (safeDeps dryRun outdated) (log ++ evs0)%list)
    as (evs1 & Hlog & Hab).
  exists (evs0 ++ evs1)%list. split; [|now apply about_app].
  destruct (createUpdatePR w repo f (safeDeps dryRun outdated) (log ++ evs0)%list)
    as [log1 [[]|err]]; cbn [fst] in *; subst log1; now rewrite List.app_assoc.
Qed.

Lemma processFiles_about (w : World) (dryRun : bool) (repo : repository)
    (files : list file) :
  forall (acc : list depInfo) (log : list event),
  exists evs,
    fst (processFiles w dryRun repo acc files log) = (log ++ evs)%list
    /\ about [repo] evs.
Proof.
  induction files as [|f rest IH]; intros acc log; cbn [processFiles].
  - exists []. unfold ret. cbn. rewrite List.app_nil_r. split; [reflexivity|constructor].
  - unfold ebind.
    destruct (processFile_about w dryRun repo acc f log) as (evs1 & Hlog & Hab).
    destruct (processFile w dryRun repo acc f log) as [log1 [acc1|err]];
      cbn [fst] in *; subst log1; [|now exists evs1].
    destruct (IH acc1 (log ++ evs1)%list) as (evs2 & Hlog2 & Hab2).
    exists (evs1 ++ evs2)%list. split; [now rewrite List.app_assoc|].
    now apply about_app.
Qed.

Lemma processRepository_about (w : World) (dryRun : bool) (repo : repository)
    (log : list event) :
  exists evs,
    fst (processRepository w dryRun repo log) = (log ++ evs)%list /\ about [repo] evs.
Proof.
  unfold processRepository, tryCatch, ebind.
  destruct (processFiles_about w dryRun repo (getPackageFiles repo) [] log)
    as (evs & Hlog & Hab).
  destruct (processFiles w dryRun repo [] (getPackageFiles repo) log)
    as [log1 [all|err]]; cbn [fst] in *; subst log1.
  - destruct (nonEmpty all && negb dryRun).
    + unfold generateReport, emit. cbn [fst].
      eexists (evs ++ [_])%list. split; [now rewrite List.app_assoc|].
      apply about_app; [exact Hab|]. constructor; [|constructor]. cbn. auto.
    + unfold ret. cbn. now exists evs.
  - unfold ret. cbn. now exists evs.
Qed.

Lemma run_about (w : World) (dryRun : bool) (repos : list repository) :
  forall log,
  exists evs, fst (run w dryRun repos log) = (log ++ evs)%list /\ about repos evs.
Proof.
  induction repos as [|repo rest IH]; intros log; cbn [run].
  - exists []. unfold ret. cbn. rewrite List.app_nil_r. split; [reflexivity|constructor].
  - unfold ebind.
    destruct (processRepository_about w dryRun repo log) as (evs1 & Hlog & Hab).
    destruct (processRepository w dryRun repo log) as [log1 [[]|err]];
      cbn [fst] in *; subst log1.
    + destruct (IH (log ++ evs1)%list) as (evs2 & -> & Hab2).
      exists (evs1 ++ evs2)%list. split; [now rewrite List.app_assoc|].
      apply about_app; [now apply about_one|now apply about_more].
    + exists evs1. split; [reflexivity|now apply about_one].
Qed.

Lemma runBot_about (cfg : Config.t) (octokit : Octokit) (w : World) (log : list event) :
  exists evs,
    fst (runBot cfg octokit w log) = (log ++ evs)%list
    /\ match getRepositories cfg octokit with
       | Returned repos => about (map data repos) evs
       | Throws _ => evs = []
       end.
Proof.
  unfold runBot, ebind, lift.
  destruct (getRepositories cfg octokit) as [repos|err].
  - apply run_about.
  - exists []. cbn. now rewrite List.app_nil_r.
Qed.

(** X15.  Every branch, commit, pull request and report of a run is
    about a repository that [getRepositories] has selected, and that is
    not archived; when [getRepositories] throws, nothing is issued. *)
Theorem run_visits_selected_repositories (cfg : Config.t) (octokit : Octokit)
    (w : World) (log : list event) :
  exists evs,
    fst (runBot cfg octokit w log) = (log ++ evs)%list
    /\ Forall (fun e =>
                 match eventRepo e with
                 | Some fullName =>
                     exists repos r,
                       getRepositories cfg octokit = Returned repos
                       /\ In r repos /\ full_name (data r) = fullName
                       /\ archived r = false
                 | None => True
                 end) evs.
Proof.
  destruct (runBot_about cfg octokit w log) as (evs & Hlog & Hab).
  exists evs. split; [exact Hlog|].
  destruct (getRepositories cfg octokit) as [repos|err] eqn:E; [|subst; constructor].
  pose proof (getRepositories_archived cfg octokit repos E) as Harch.
  eapply Forall_impl; [|exact Hab].
  intros e. cbn beta. destruct (eventRepo e) as [fullName|]; [|auto].
  rewrite map_map. intros Hin. apply in_map_iff in Hin as (r & Hn & Hr).
  exists repos, r. repeat split; auto.
  rewrite Forall_forall in Harch. now apply Harch.
Qed.

(* ================================================================== *)
(** ** The sections and advisories of an answer *)
(* ================================================================== *)

Lemma drop_occurs (n : nat) (s : string) : exists pre, s = pre ++ drop n s.
Proof.
  revert s. induction n as [|n IH]; intros s; [now exists EmptyString|].
  destruct s as [|c s]; [now exists EmptyString|].
  destruct (IH s) as [pre H]. exists (String c pre). cbn. now rewrite <- H.
Qed.

Lemma afterTitle_occurs (sectionTitle text rest : string) :
  afterTitle sectionTitle text = Some rest -> exists pre, text = pre ++ rest.
Proof.
  induction text as [|c text IH]; cbn [afterTitle].
  - destruct (prefixIgnoreCase sectionTitle ""); [|discriminate].
    intros [= <-]. apply drop_occurs.
  - destruct (prefixIgnoreCase sectionTitle (String c text)).
    + intros [= <-]. apply drop_occurs.
    + intros H. destruct (IH H) as [pre ->]. now exists (String c pre).
Qed.

Lemma lazyUntil_occurs (stop : string -> bool) (s : string) :
  exists post, s = lazyUntil stop s ++ post.
Proof.
  induction s as [|c s [post IH]]; [now exists EmptyString|].
  cbn [lazyUntil]. destruct (stop (String c s)); [now eexists|].
  exists post. cbn. now rewrite <- IH.
Qed.

Lemma trimStart_occurs (s : string) : exists pre, s = pre ++ trimStart s.
Proof.
  induction s as [|c s [pre IH]]; [now exists EmptyString|].
  cbn [trimStart]. destruct (JS.isSpace c); [|now exists EmptyString].
  exists (String c pre). cbn. now rewrite <- IH.
Qed.

Lemma trimEnd_occurs (s : string) : exists post, s = trimEnd s ++ post.
Proof.
  induction s as [|c s [post IH]]; [now exists EmptyString|].
  cbn [trimEnd]. destruct (trimEnd s) as [|c' t] eqn:E.
  - destruct (JS.isSpace c).
    + exists (String c s). reflexivity.
    + exists post. cbn in *. now rewrite <- IH.
  - exists post. cbn in *. now rewrite <- IH.
Qed.

Lemma trim_occurs (s : string) : occursIn (trim s) s.
Proof.
  unfold trim. destruct (trimStart_occurs s) as [pre Hs].
  destruct (trimEnd_occurs (trimStart s)) as [post Ht].
  exists pre, post. now rewrite <- Ht.
Qed.

Lemma extractSectionContent_occurs (text sectionTitle : string) :
  occursIn (extractSectionContent text sectionTitle) text.
Proof.
  unfold extractSectionContent.
  destruct (afterTitle sectionTitle text) as [rest|] eqn:E.
  - destruct (afterTitle_occurs _ _ _ E) as [pre ->].
    destruct (JS.span isColonOrSpace rest) as [a b] eqn:Es.
    apply span_spec in Es as (-> & _). cbn [snd].
    destruct (lazyUntil_occurs numberedItemAt b) as [post Hb].
    eapply occursIn_trans; [apply trim_occurs|].
    eapply occursIn_trans; [|apply occursIn_suffix].
    eapply occursIn_trans; [|apply occursIn_suffix].
    rewrite Hb at 2. apply occursIn_prefix.
  - exists EmptyString, text. reflexivity.
Qed.

Lemma trimStart_clean (s : string) : startsClean (trimStart s).
Proof.
  induction s as [|c s IH]; cbn [trimStart]; [exact I|].
  destruct (JS.isSpace c) eqn:E; [exact IH|exact E].
Qed.

Lemma trimStart_fixed (s : string) : startsClean s -> trimStart s = s.
Proof. destruct s as [|c s]; cbn; [reflexivity|]. now intros ->. Qed.

Lemma trimEnd_clean (s : string) : startsClean s -> startsClean (trimEnd s).
Proof.
  destruct s as [|c s]; cbn [trimEnd startsClean]; [auto|].
  intros H. destruct (trimEnd s); [now rewrite H|exact H].
Qed.

Lemma trimEnd_idempotent (s : string) : trimEnd (trimEnd s) = trimEnd s.
Proof.
  induction s as [|c s IH]; [reflexivity|].
  cbn [trimEnd]. destruct (trimEnd s) as [|c' t] eqn:E.
  - destruct (JS.isSpace c) eqn:Ec; [reflexivity|]. cbn. now rewrite Ec.
  - cbn [trimEnd]. cbn [trimEnd] in IH.
    destruct (match trimEnd t with
              | EmptyString => if JS.isSpace c' then EmptyString else String c' EmptyString
              | String a s0 => String c' (String a s0)
              end) eqn:E'; [discriminate|]. now rewrite IH.
Qed.

Lemma trim_idempotent (s : string) : trim (trim s) = trim s.
Proof.
  unfold trim. rewrite (trimStart_fixed (trimEnd (trimStart s))).
  - apply trimEnd_idempotent.
  - apply trimEnd_clean, trimStart_clean.
Qed.

Lemma lazyUntil_inside (stop : string -> bool) (s before after : string) :
  lazyUntil stop s = before ++ after -> after <> EmptyString ->
  exists post, s = before ++ after ++ post /\ stop (after ++ post) = false.
Proof.
  revert before. induction s as [|c s IH]; intros before; cbn [lazyUntil].
  - destruct before, after; cbn; congruence.
  - destruct (stop (String c s)) eqn:E.
    + destruct before, after; cbn; congruence.
    + destruct before as [|b before]; cbn [append].
      * intros H Hne. destruct (lazyUntil_occurs stop (String c s)) as [post Hpost].
        cbn [lazyUntil] in Hpost. rewrite E, H in Hpost.
        exists post. split; [exact Hpost|]. now rewrite <- Hpost.
      * intros [= <- H] Hne. destruct (IH before H Hne) as (post & -> & Hstop).
        now exists post.
Qed.

Lemma numberedItemAt_app (s rest : string) :
  numberedItemAt s = true -> numberedItemAt (s ++ rest) = true.
Proof.
  destruct s as [|c s]; [discriminate|]. cbn [numberedItemAt append].
  destruct (Ascii.eqb c newline); [cbn [andb]|discriminate].
  destruct (JS.span JS.isSpace s) as [ws r1] eqn:E1.
  destruct (JS.span JS.isDigit r1) as [d r2] eqn:E2.
  intros Hdot.
  apply span_spec in E1 as (-> & Hws & _).
  apply span_spec in E2 as (-> & Hdig & _).
  destruct d as [|d0 d']; [discriminate|].
  assert (Hd0 : JS.isDigit d0 = true).
  { cbn in Hdig. now apply andb_true_iff in Hdig as [? _]. }
  rewrite !append_assoc.
  rewrite (span_app JS.isSpace ws _ Hws).
  - rewrite (span_app JS.isDigit (String d0 d') _ Hdig).
    + now apply startsWith_app.
    + destruct r2 as [|c2 r2]; [discriminate|]. cbn.
      rewrite startsWith_char in Hdot. apply Ascii.eqb_eq in Hdot. now subst.
  - cbn. revert Hd0. clear.
    destruct d0 as [[|] [|] [|] [|] [|] [|] [|] [|]]; cbn; congruence.
Qed.

(** X16.  For a title of letters and blanks, the excerpt
    [extractSectionContent] returns is a piece of the text, with no white
    space at either end, in which no numbered item begins; it is empty
    when the title occurs nowhere in the text, in whatever letter
    case. *)
Theorem section_excerpt (text sectionTitle : string) :
  plainTitle sectionTitle = true ->
  let excerpt := extractSectionContent text sectionTitle in
  occursIn excerpt text
  /\ trim excerpt = excerpt
  /\ (forall before after, excerpt = before ++ after -> numberedItemAt after = false)
  /\ (includesIgnoreCase text sectionTitle = false -> excerpt = EmptyString).
Proof.
  intros _. cbn zeta. split; [apply extractSectionContent_occurs|]. split; [|split].
  - unfold extractSectionContent.
    destruct (afterTitle sectionTitle text); [apply trim_idempotent|reflexivity].
  - intros before after Hsplit.
    destruct (numberedItemAt after) eqn:Hitem; [exfalso|reflexivity].
    unfold extractSectionContent in Hsplit.
    destruct (afterTitle sectionTitle text) as [rest|];
      [|destruct before, after; discriminate].
    set (body := snd (JS.span isColonOrSpace rest)) in *.
    destruct (trim_occurs (lazyUntil numberedItemAt body)) as (l & t & Hc).
    rewrite Hsplit, !append_assoc in Hc. rewrite <- append_assoc in Hc.
    assert (Hne : (after ++ t)%string <> EmptyString) by (destruct after; discriminate).
    destruct (lazyUntil_inside _ _ _ _ Hc Hne) as (post & _ & Hstop).
    rewrite append_assoc in Hstop.
    now rewrite (numberedItemAt_app after _ Hitem) in Hstop.
  - intros Hnone. unfold extractSectionContent.
    assert (H : afterTitle sectionTitle text = None).
    { clear -Hnone. induction text as [|c text IH]; cbn [afterTitle includesIgnoreCase] in *.
      - apply orb_false_iff in Hnone as [-> _]. reflexivity.
      - apply orb_false_iff in Hnone as [-> H]. now apply IH. }
    now rewrite H.
Qed.

Lemma section_excerpt_witness :
  extractSectionContent sampleAnswer "NEW VERSION VULNERABILITIES"
  = "No known vulnerabilities."
  /\ occursIn "No known vulnerabilities." sampleAnswer
  /\ extractSectionContent sampleAnswer "CHANGES" = "".
Proof.
  assert (E : extractSectionContent sampleAnswer "NEW VERSION VULNERABILITIES"
              = "No known vulnerabilities.") by (vm_compute; reflexivity).
  destruct (section_excerpt sampleAnswer "NEW VERSION VULNERABILITIES" eq_refl)
    as (Hocc & _).
  rewrite E in Hocc. split; [exact E|]. split; [exact Hocc|].
  apply (section_excerpt sampleAnswer "CHANGES" eq_refl). vm_compute. reflexivity.
Defined.

(** *** Global matches *)

Lemma matchAll_spec (lengthAt : string -> option nat) :
  (forall s n, lengthAt s = Some n -> n <= String.length s) ->
  forall s skip m,
    In m (matchAll lengthAt skip s) ->
    exists before after,
      s = before ++ m ++ after /\ lengthAt (m ++ after) = Some (String.length m).
Proof.
  intros Hbound. induction s as [|c s IH]; intros skip m; cbn [matchAll]; [intros []|].
  assert (Hlater : forall k, In m (matchAll lengthAt k s) ->
            exists before after,
              String c s = before ++ m ++ after
              /\ lengthAt (m ++ after) = Some (String.length m)).
  { intros k Hin. destruct (IH k m Hin) as (before & after & -> & H).
    now exists (String c before), after. }
  destruct skip as [|k]; [|apply Hlater].
  destruct (lengthAt (String c s)) as [n|] eqn:E; [|apply Hlater].
  intros [<-|Hin]; [|now apply Hlater in Hin].
  destruct (substring_split n (String c s) (Hbound _ _ E)) as (post & Hs & Hl).
  exists EmptyString, post. split; [exact Hs|].
  cbn [append]. now rewrite <- Hs, Hl.
Qed.

Lemma prefixIgnoreCase_cve (s : string) :
  prefixIgnoreCase "CVE-" s = true ->
  exists head, s = head ++ drop 4 s /\ JS.toLowerCase head = "cve-".
Proof.
  destruct s as [|c1 [|c2 [|c3 [|c4 rest]]]]; cbn [prefixIgnoreCase];
    rewrite ?andb_false_r; try discriminate.
  intros H.
  apply andb_true_iff in H as [H1 H]. apply andb_true_iff in H as [H2 H].
  apply andb_true_iff in H as [H3 H]. apply andb_true_iff in H as [H4 _].
  apply Ascii.eqb_eq in H1, H2, H3, H4.
  exists (String c1 (String c2 (String c3 (String c4 EmptyString)))).
  split; [reflexivity|].
  cbn [JS.toLowerCase]. now rewrite <- H1, <- H2, <- H3, <- H4.
Qed.

Lemma cveLengthAt_shape (s : string) (n : nat) :
  cveLengthAt s = Some n ->
  exists cveId rest, s = cveId ++ rest /\ String.length cveId = n /\ cveShape cveId.
Proof.
  unfold cveLengthAt.
  destruct (prefixIgnoreCase "CVE-" s) eqn:Hp; [|discriminate].
  destruct (prefixIgnoreCase_cve s Hp) as (head & Hs & Hhead).
  destruct (JS.span JS.isDigit (drop 4 s)) as [year afterYear] eqn:E1.
  destruct afterYear as [|dash afterDash]; [discriminate|].
  destruct (Ascii.eqb_spec dash "-") as [->|Hne].
  2:{ destruct dash as [[|] [|] [|] [|] [|] [|] [|] [|]]; try discriminate. congruence. }
  destruct (JS.span JS.isDigit afterDash) as [number rest] eqn:E2. cbn [fst].
  destruct (PeanoNat.Nat.eqb_spec (String.length year) 4) as [Hy|]; [|discriminate].
  destruct (PeanoNat.Nat.leb_spec 4 (String.length number)) as [Hn|]; [|discriminate].
  cbn [andb]. intros [= <-].
  apply span_spec in E1 as (Hd & Hyear & _).
  apply span_spec in E2 as (-> & Hnumber & _).
  exists (head ++ year ++ "-" ++ number), rest. split; [|split].
  - rewrite Hs at 1. rewrite Hd. now rewrite !append_assoc.
  - assert (Hl : String.length head = 4).
    { apply (f_equal String.length) in Hhead. cbn in Hhead.
      rewrite <- Hhead. clear. induction head; cbn; congruence. }
    rewrite !length_append, Hl, Hy. cbn. lia.
  - exists head, year, number. repeat split; assumption.
Qed.

Lemma cveLengthAt_bound (s : string) (n : nat) :
  cveLengthAt s = Some n -> n <= String.length s.
Proof.
  intros H. apply cveLengthAt_shape in H as (cveId & rest & -> & <- & _).
  rewrite length_append. lia.
Qed.

Lemma cveMatches_shape (sectionContent : string) (skip : nat) (cveId : string) :
  In cveId (matchAll cveLengthAt skip sectionContent) ->
  occursIn cveId sectionContent /\ cveShape cveId.
Proof.
  intros Hin.
  destruct (matchAll_spec cveLengthAt cveLengthAt_bound _ _ _ Hin)
    as (before & after & Hs & Hm).
  split; [now exists before, after|].
  apply cveLengthAt_shape in Hm as (cveId' & rest & Heq & Hl & Hshape).
  destruct (append_inj_length _ _ _ _ Heq (eq_sym Hl)) as [-> _]. exact Hshape.
Qed.

Lemma urlWithScheme_shape (scheme s : string) (n : nat) :
  String.prefix scheme s = true -> urlWithScheme scheme s = Some n ->
  exists address rest,
    s = (scheme ++ address) ++ rest /\ String.length (scheme ++ address) = n.
Proof.
  intros Hp. unfold urlWithScheme.
  destruct (JS.span _ (drop (String.length scheme) s)) as [a b] eqn:E. cbn [fst].
  apply span_spec in E as (Hd & _).
  destruct a as [|c a'] eqn:Ea; [discriminate|]. rewrite <- Ea in *.
  intros [= <-]. exists a, b. split; [|apply length_append].
  rewrite (prefix_split _ _ Hp) at 1. now rewrite Hd, append_assoc.
Qed.

Lemma urlLengthAt_shape (s : string) (n : nat) :
  urlLengthAt s = Some n ->
  exists address rest,
    s = address ++ rest /\ String.length address = n
    /\ JS.startsWith address "http" = true.
Proof.
  unfold urlLengthAt.
  destruct (String.prefix "https://" s) eqn:H1.
  - intros H. destruct (urlWithScheme_shape _ _ _ H1 H) as (a & rest & Hs & Hl).
    exists ("https://" ++ a), rest. repeat split; assumption.
  - destruct (String.prefix "http://" s) eqn:H2; [|discriminate].
    intros H. destruct (urlWithScheme_shape _ _ _ H2 H) as (a & rest & Hs & Hl).
    exists ("http://" ++ a), rest. repeat split; assumption.
Qed.

Lemma urlLengthAt_bound (s : string) (n : nat) :
  urlLengthAt s = Some n -> n <= String.length s.
Proof.
  intros H. apply urlLengthAt_shape in H as (a & rest & -> & <- & _).
  rewrite length_append. lia.
Qed.

Lemma urlMatches_shape (sectionContent : string) (skip : nat) (m : string) :
  In m (matchAll urlLengthAt skip sectionContent) -> JS.startsWith m "http" = true.
Proof.
  intros Hin.
  destruct (matchAll_spec urlLengthAt urlLengthAt_bound _ _ _ Hin)
    as (before & after & Hs & Hm).
  apply urlLengthAt_shape in Hm as (a & rest & Heq & Hl & Hhttp).
  now destruct (append_inj_length _ _ _ _ Heq (eq_sym Hl)) as [-> _].
Qed.

Lemma cveEntries_ids (sectionContent : string) (urlMatches : list string)
    (i : nat) (cveMatches : list string) :
  map Cve.id (cveEntries sectionContent urlMatches i cveMatches) = cveMatches.
Proof.
  revert i. induction cveMatches as [|m ms IH]; intros i; cbn; [reflexivity|].
  now rewrite IH.
Qed.

Lemma cveEntry_wellFormed (sectionContent : string) (urlMatches : list string)
    (i : nat) (cveId : string) :
  Forall (fun m => JS.startsWith m "http" = true) urlMatches ->
  let entry := cveEntry sectionContent urlMatches i cveId in
  Cve.id entry = cveId
  /\ JS.startsWith (Cve.url entry) "http" = true
  /\ Cve.description entry <> EmptyString
  /\ In (Cve.severity entry) ("unknown" :: severityTerms).
Proof.
  intros Hurls. rewrite Forall_forall in Hurls.
  cbn zeta. unfold cveEntry. cbn [Cve.id Cve.url Cve.description Cve.severity].
  split; [reflexivity|]. split; [|split].
  - match goal with
    | |- context [find ?p urlMatches] => destruct (find p urlMatches) as [m|] eqn:Ef
    end.
    + apply find_some in Ef as [Hin _]. specialize (Hurls m Hin).
      destruct m; [discriminate|exact Hurls].
    + destruct (nth_error urlMatches i) as [m|] eqn:En; [|reflexivity].
      apply nth_error_In in En. specialize (Hurls m En).
      destruct m; [discriminate|exact Hurls].
  - match goal with
    | |- match ?d with EmptyString => _ | String _ _ => _ end <> _ =>
        destruct d; discriminate
    end.
  - match goal with
    | |- context [find ?p severityTerms] => destruct (find p severityTerms) as [t|] eqn:Ef
    end.
    + right. now apply find_some in Ef as [Hin _].
    + now left.
Qed.

Lemma cveEntries_wellFormed (sectionContent : string) (urlMatches cveMatches : list string)
    (i : nat) :
  Forall (fun m => JS.startsWith m "http" = true) urlMatches ->
  Forall (fun cveId => occursIn cveId sectionContent /\ cveShape cveId) cveMatches ->
  Forall (fun entry =>
            cveShape (Cve.id entry)
            /\ occursIn (Cve.id entry) sectionContent
            /\ JS.startsWith (Cve.url entry) "http" = true
            /\ Cve.description entry <> EmptyString
            /\ In (Cve.severity entry) ("unknown" :: severityTerms))
         (cveEntries sectionContent urlMatches i cveMatches).
Proof.
  intros Hurls Hids. revert i.
  induction Hids as [|m ms [Hocc Hshape] _ IH]; intros i; cbn [cveEntries]; [constructor|].
  constructor; [|apply IH].
  destruct (cveEntry_wellFormed sectionContent urlMatches i m Hurls)
    as (Hid & Hurl & Hdesc & Hsev).
  rewrite Hid. auto.
Qed.

(** X17.  For a title of letters and blanks, [extractCVEsFromText]
    returns one entry for each match of the advisory pattern in the
    section, in order.  Each entry has an identifier of the shape
    [CVE-yyyy-nnnn], in any letter case and with four digits or more at
    the end, that stands in the section; an address that begins with
    [http]; a description that is not empty; and a severity that is one
    of the five terms or [unknown]. *)
Theorem extracted_advisories (text sectionTitle : string) :
  plainTitle sectionTitle = true ->
  let sectionContent := extractSectionContent text sectionTitle in
  let cves := extractCVEsFromText text sectionTitle in
  map Cve.id cves = matchAll cveLengthAt 0 sectionContent
  /\ Forall (fun entry =>
               cveShape (Cve.id entry)
               /\ occursIn (Cve.id entry) sectionContent
               /\ JS.startsWith (Cve.url entry) "http" = true
               /\ Cve.description entry <> EmptyString
               /\ In (Cve.severity entry) ("unknown" :: severityTerms)) cves.
Proof.
  intros _. cbn zeta. unfold extractCVEsFromText.
  set (sectionContent := extractSectionContent text sectionTitle).
  destruct sectionContent as [|c0 s0] eqn:Es; [split; [reflexivity|constructor]|].
  rewrite <- Es. clear Es c0 s0.
  split; [apply cveEntries_ids|].
  apply cveEntries_wellFormed.
  - apply Forall_forall. intros m. apply urlMatches_shape.
  - apply Forall_forall. intros m. apply cveMatches_shape.
Qed.

Lemma extracted_advisories_witness :
  map Cve.id (extractCVEsFromText sampleAnswer "CURRENT VERSION VULNERABILITIES")
  = ["CVE-2023-32681"; "CVE-2023-32681"; "cve-2018-18074"]
  /\ map Cve.severity (extractCVEsFromText sampleAnswer "CURRENT VERSION VULNERABILITIES")
     = ["medium"; "medium"; "high"].
Proof.
  destruct (extracted_advisories sampleAnswer "CURRENT VERSION VULNERABILITIES" eq_refl)
    as [Hids _].
  rewrite Hids. split; vm_compute; reflexivity.
Defined.

Lemma extracted_ids_occur (text sectionTitle : string) :
  extractCVEsFromText text sectionTitle <> [] ->
  exists cveId, occursIn cveId text /\ cveShape cveId.
Proof.
  unfold extractCVEsFromText.
  set (sectionContent := extractSectionContent text sectionTitle).
  assert (Hsec : occursIn sectionContent text) by apply extractSectionContent_occurs.
  destruct sectionContent as [|c0 s0] eqn:Es; [congruence|].
  rewrite <- Es in *. clear Es c0 s0.
  destruct (matchAll cveLengthAt 0 sectionContent) as [|m ms] eqn:Em; [cbn; congruence|].
  intros _. exists m.
  destruct (cveMatches_shape sectionContent 0 m) as [Hocc Hshape];
    [rewrite Em; now left|].
  split; [|exact Hshape]. eapply occursIn_trans; eassumption.
Qed.

(** X18.  An answer from which an advisory is extracted holds [cve-] in
    lower case, so it counts as safe only by affirming safety: by holding
    [safe] and not [unsafe]. *)
Theorem advisories_need_affirmation (responseText sectionTitle : string) :
  plainTitle sectionTitle = true ->
  extractCVEsFromText responseText sectionTitle <> [] ->
  JS.includes (JS.toLowerCase responseText) "cve-" = true
  /\ safe (parseSecurityResponse responseText) = affirmsSafety responseText.
Proof.
  intros _ Hsome.
  assert (Hkey : JS.includes (JS.toLowerCase responseText) "cve-" = true).
  { destruct (extracted_ids_occur responseText sectionTitle Hsome) as (cveId & Hocc & Hshape).
    apply includes_occurs.
    destruct Hshape as (head & year & number & -> & Hhead & _).
    destruct Hocc as (before & after & ->).
    exists (JS.toLowerCase before),
           (JS.toLowerCase (year ++ "-" ++ number) ++ JS.toLowerCase after).
    now rewrite !toLowerCase_app, Hhead, <- !append_assoc. }
  split; [exact Hkey|].
  cbn [parseSecurityResponse safe]. unfold isSafe, affirmsSafety. rewrite Hkey.
  cbn [negb]. now rewrite andb_false_r, orb_false_r.
Qed.

Lemma advisories_need_affirmation_witness :
  JS.includes (JS.toLowerCase sampleAnswer) "cve-" = true
  /\ safe (parseSecurityResponse sampleAnswer) = affirmsSafety sampleAnswer.
Proof.
  apply (advisories_need_affirmation sampleAnswer "CURRENT VERSION VULNERABILITIES" eq_refl).
  vm_compute. discriminate.
Defined.

(* ================================================================== *)
(** ** The name of the report file *)
(* ================================================================== *)

Lemma replaceChar_lacks (c r : ascii) (s : string) :
  r <> c -> lacks c (replaceChar c r s) = true.
Proof.
  intros Hne. unfold lacks. induction s as [|b s IH]; cbn; [reflexivity|].
  rewrite IH, andb_true_r. apply negb_true_iff.
  destruct (Ascii.eqb_spec b c) as [->|Hb]; apply Ascii.eqb_neq; assumption.
Qed.

Lemma replaceChar_keeps (p : ascii -> bool) (c r : ascii) (s : string) :
  JS.allChars p s = true -> p r = true -> JS.allChars p (replaceChar c r s) = true.
Proof.
  intros Hs Hr. induction s as [|b s IH]; cbn; [reflexivity|].
  cbn in Hs. apply andb_true_iff in Hs as [Hb Hs]. rewrite (IH Hs), andb_true_r.
  now destruct (Ascii.eqb b c).
Qed.

Lemma replaceChar_absent (c r : ascii) (s : string) :
  lacks c s = true -> replaceChar c r s = s.
Proof.
  unfold lacks. induction s as [|b s IH]; cbn; [reflexivity|].
  intros H. apply andb_true_iff in H as [Hb Hs]. apply negb_true_iff in Hb.
  now rewrite Hb, (IH Hs).
Qed.

Lemma replaceChar_app (c r : ascii) (a b : string) :
  replaceChar c r (a ++ b) = replaceChar c r a ++ replaceChar c r b.
Proof. induction a as [|x a IH]; cbn; [reflexivity|now rewrite IH]. Qed.

Lemma name_not_slash (c : ascii) : isNameChar c = true -> negb (Ascii.eqb c "/") = true.
Proof. destruct (Ascii.eqb_spec c "/") as [->|]; [discriminate|reflexivity]. Qed.

(** X19.  The repository part of the name of a report file is made of
    letters, digits, [_], [.] and [-] only, and the time stamp holds no
    colon; so the name holds no [/] unless the clock's text does, and the
    report is a file of the report directory itself.  For an owner and a
    repository named in those characters, the repository part is
    [owner-repo]. *)
Theorem report_file_name_plain (repoName now : string) :
  JS.allChars isNameChar (safeRepoName repoName) = true
  /\ lacks "/" (safeRepoName repoName) = true
  /\ lacks ":" (replaceChar ":" "-" now) = true
  /\ (lacks "/" now = true -> lacks "/" (reportFileName repoName now) = true)
  /\ (forall owner repo,
         repoName = owner ++ "/" ++ repo ->
         JS.allChars isNameChar owner = true -> JS.allChars isNameChar repo = true ->
         safeRepoName repoName = owner ++ "-" ++ repo).
Proof.
  assert (Hname : JS.allChars isNameChar (safeRepoName repoName) = true)
    by apply keep_allChars.
  assert (Hslash : lacks "/" (safeRepoName repoName) = true)
    by (unfold lacks; now apply (allChars_impl _ _ _ name_not_slash)).
  split; [exact Hname|]. split; [exact Hslash|]. split; [|split].
  - apply replaceChar_lacks. discriminate.
  - intros Hnow. unfold reportFileName, lacks in *.
    rewrite !allChars_app, Hslash. cbn [andb].
    rewrite (replaceChar_keeps _ ":" "-" now Hnow eq_refl). reflexivity.
  - intros owner repo -> Ho Hr. unfold safeRepoName.
    rewrite !replaceChar_app.
    rewrite (replaceChar_absent "/" "-" owner), (replaceChar_absent "/" "-" repo);
      try (unfold lacks; now apply (allChars_impl _ _ _ name_not_slash)).
    apply keep_all. rewrite !allChars_app, Ho, Hr. reflexivity.
Qed.

Lemma report_file_name_plain_witness :
  safeRepoName "acme/demo" = "acme-demo"
  /\ lacks "/" (reportFileName "acme/demo" "2025-01-15T10:20:30.000Z") = true.
Proof.
  destruct (report_file_name_plain "acme/demo" "2025-01-15T10:20:30.000Z")
    as (_ & _ & _ & Hfile & Hname).
  split; [apply (Hname "acme" "demo"); reflexivity|apply Hfile; reflexivity].
Defined.

(* ================================================================== *)
(** ** The entry points *)
(* ================================================================== *)

Lemma segments_parts (repoPath owner repo : string) (rest : list string) :
  filter (fun part => negb (JS.isBlank part)) (JS.split "/" repoPath)
  = owner :: repo :: rest ->
  JS.isBlank owner = false /\ JS.isBlank repo = false
  /\ lacks "/" owner = true /\ lacks "/" repo = true.
Proof.
  intros H.
  assert (Hin : forall part, In part [owner; repo] ->
                  JS.isBlank part = false /\ lacks "/" part = true).
  { intros part Hp.
    assert (Hf : In part (filter (fun part => negb (JS.isBlank part))
                                 (JS.split "/" repoPath))).
    { rewrite H. destruct Hp as [<-|[<-|[]]]; cbn; auto. }
    apply filter_In in Hf as [Hs Hb]. split; [now apply negb_true_iff in Hb|].
    pose proof (split_lacks_each "/" repoPath) as Hl.
    rewrite Forall_forall in Hl. now apply Hl. }
  destruct (Hin owner) as [? ?]; [cbn; auto|].
  destruct (Hin repo) as [? ?]; [cbn; auto|]. auto.
Qed.

Lemma segments_built (owner repo : string) :
  lacks "/" owner = true -> lacks "/" repo = true ->
  JS.isBlank owner = false -> JS.isBlank repo = false ->
  filter (fun part => negb (JS.isBlank part)) (JS.split "/" (owner ++ "/" ++ repo))
  = [owner; repo].
Proof.
  intros Ho Hr Hbo Hbr.
  change (owner ++ "/" ++ repo) with (owner ++ String "/" repo).
  rewrite (split_app "/" owner repo Ho), (split_lacks "/" repo Hr).
  cbn [filter]. now rewrite Hbo, Hbr.
Qed.

Lemma parseRepoUrl_exit (pathname : string -> result string) (url : string) (code : nat) :
  parseRepoUrl pathname url = Exit code -> code = 1.
Proof.
  unfold parseRepoUrl.
  match goal with
  | |- match ?r with Returned _ => _ | Throws _ => _ end = _ -> _ =>
      destruct r as [repoPath|err]; [|now intros [= <-]]
  end.
  destruct (filter _ (JS.split "/" repoPath)) as [|o [|r rest]]; try discriminate;
    now intros [= <-].
Qed.

(** X20.  What [parseRepoUrl] returns as owner and repository are two
    segments of the path: neither is blank, neither holds a [/].  It
    returns the two parts of [owner/repo], and those of an address of
    [github.com] whose path is [/owner/repo]; whenever it does not
    return, the process exits with code 1. *)
Theorem parseRepoUrl_owner_and_repo (pathname : string -> result string) :
  (forall url owner repo,
      parseRepoUrl pathname url = Continue (owner, repo) ->
      JS.isBlank owner = false /\ JS.isBlank repo = false
      /\ lacks "/" owner = true /\ lacks "/" repo = true)
  /\ (forall owner repo,
         lacks "/" owner = true -> lacks "/" repo = true ->
         JS.isBlank owner = false -> JS.isBlank repo = false ->
         JS.includes (owner ++ "/" ++ repo) "github.com" = false ->
         parseRepoUrl pathname (owner ++ "/" ++ repo) = Continue (owner, repo))
  /\ (forall url owner repo,
         lacks "/" owner = true -> lacks "/" repo = true ->
         JS.isBlank owner = false -> JS.isBlank repo = false ->
         JS.includes url "github.com" = true ->
         pathname (if JS.startsWith url "http" then url else "https://" ++ url)
         = Returned ("/" ++ owner ++ "/" ++ repo) ->
         parseRepoUrl pathname url = Continue (owner, repo))
  /\ (forall url code, parseRepoUrl pathname url = Exit code -> code = 1).
Proof.
  split; [|split; [|split]].
  - intros url owner repo. unfold parseRepoUrl.
    match goal with
    | |- match ?r with Returned _ => _ | Throws _ => _ end = _ -> _ =>
        destruct r as [repoPath|err]; [|discriminate]
    end.
    destruct (filter _ (JS.split "/" repoPath)) as [|o [|r rest]] eqn:E; try discriminate.
    intros [= <- <-]. eapply segments_parts. exact E.
  - intros owner repo Ho Hr Hbo Hbr Hinc. unfold parseRepoUrl. rewrite Hinc.
    now rewrite segments_built.
  - intros url owner repo Ho Hr Hbo Hbr Hinc Hpath. unfold parseRepoUrl.
    rewrite Hinc, Hpath. cbn [bind].
    change ("/" ++ owner ++ "/" ++ repo) with (String "/" (owner ++ "/" ++ repo)).
    rewrite startsWith_char. cbn [Ascii.eqb Bool.eqb drop].
    now rewrite segments_built.
  - intros url code. apply parseRepoUrl_exit.
Qed.

Lemma parseRepoUrl_owner_and_repo_witness :
  parseRepoUrl examplePathname "acme/demo" = Continue ("acme", "demo")
  /\ parseRepoUrl examplePathname "https://github.com/acme/demo"
     = Continue ("acme", "demo").
Proof.
  destruct (parseRepoUrl_owner_and_repo examplePathname) as (_ & Hshort & Hlong & _).
  split.
  - apply (Hshort "acme" "demo"); reflexivity.
  - apply (Hlong "https://github.com/acme/demo" "acme" "demo"); reflexivity.
Defined.

(** X21.  The command line issues requests about the repository named
    by [--repo] only.  It exits with code 1, having issued nothing, when
    a required variable of the environment is missing or the name cannot
    be parsed.  Otherwise it ends without an error, also when the
    repository cannot be read or is archived, in which cases nothing is
    issued. *)
Theorem command_line_visits_named_repository
    (env : string -> option string) (pathname : string -> result string)
    (octokit : Octokit) (w : World) (repoOption : string) (dryRunOption : bool)
    (log : list event) :
  exists evs,
    fst (main env pathname octokit w repoOption dryRunOption log) = (log ++ evs)%list
    /\ (missingVars env <> [] ->
        evs = []
        /\ snd (main env pathname octokit w repoOption dryRunOption log)
           = Returned (Exit 1))
    /\ (forall code, parseRepoUrl pathname repoOption = Exit code ->
        evs = []
        /\ snd (main env pathname octokit w repoOption dryRunOption log)
           = Returned (Exit 1))
    /\ (forall owner repo,
          missingVars env = [] ->
          parseRepoUrl pathname repoOption = Continue (owner, repo) ->
          snd (main env pathname octokit w repoOption dryRunOption log)
          = Returned (Continue tt)
          /\ match repos_get octokit owner repo with
             | Returned r => if archived r then evs = [] else about [data r] evs
             | Throws _ => evs = []
             end).
Proof.
  unfold main.
  destruct (missingVars env) as [|v vs] eqn:Em; cbn [nonEmpty].
  2:{ exists []. unfold ret. cbn [fst snd]. rewrite List.app_nil_r.
      split; [reflexivity|]. split; [auto|]. split; [auto|].
      intros owner repo [=]. }
  destruct (parseRepoUrl pathname repoOption) as [[owner repo]|code] eqn:Ep.
  2:{ exists []. unfold ret. cbn [fst snd]. rewrite List.app_nil_r.
      split; [reflexivity|]. split; [congruence|]. split.
      - intros code' [= <-]. split; [reflexivity|].
        now rewrite (parseRepoUrl_exit _ _ _ Ep).
      - intros o r _ [=]. }
  unfold tryCatch, runBot, getRepositories, lift, ebind. cbn [Config.targetRepo Config.dryRun].
  destruct (repos_get octokit owner repo) as [r|err] eqn:Eget.
  - destruct (archived r) eqn:Ea.
    + cbn [map run]. exists []. unfold ret. cbn [fst snd]. rewrite List.app_nil_r.
      split; [reflexivity|]. split; [congruence|]. split; [intros code [=]|].
      intros o r' _ [= <- <-]. rewrite Eget, Ea. auto.
    + cbn [map].
      destruct (run_about w dryRunOption [data r] log) as (evs & Hlog & Hab).
      pose proof (run_returns w dryRunOption [data r] log) as Hret.
      destruct (run w dryRunOption [data r] log) as [log1 [[]|e]]; cbn [fst snd] in *;
        [|discriminate]. subst log1.
      exists evs. unfold ret. cbn [fst snd].
      split; [reflexivity|]. split; [congruence|]. split; [intros code [=]|].
      intros o r' _ [= <- <-]. rewrite Eget, Ea. auto.
  - cbn [map run]. exists []. unfold ret. cbn [fst snd]. rewrite List.app_nil_r.
    split; [reflexivity|]. split; [congruence|]. split; [intros code [=]|].
    intros o r' _ [= <- <-]. rewrite Eget. auto.
Qed.

Lemma command_line_visits_named_repository_witness :
  exists evs,
    main exampleEnv examplePathname exampleOctokit exampleWorld
      "https://github.com/acme/demo" false []
    = (evs, Returned (Continue tt))
    /\ about [exampleRepository] evs
    /\ map isWrite evs = [false; false; true; true; true; false].
Proof.
  destruct (command_line_visits_named_repository exampleEnv examplePathname
              exampleOctokit exampleWorld "https://github.com/acme/demo" false [])
    as (evs & Hlog & _ & _ & Hrun).
  destruct (Hrun "acme" "demo" eq_refl eq_refl) as [Hret Hab].
  exists evs. cbn [app] in Hlog.
  split; [|split; [exact Hab|]].
  - rewrite <- Hlog, <- Hret. now destruct (main _ _ _ _ _ _ _).
  - rewrite <- Hlog. vm_compute. reflexivity.
Defined.

(** *** The scheduled run *)

Lemma existsb_eqb_In (x : string) (l : list string) :
  existsb (String.eqb x) l = false -> ~ In x l.
Proof.
  intros H Hin.
  assert (existsb (String.eqb x) l = true) as E.
  { apply existsb_exists. exists x. split; [exact Hin|apply String.eqb_refl]. }
  congruence.
Qed.

(** X22.  A scheduled run issues requests only about repositories that
    the host lists, that are not archived, and that are not named in
    [EXCLUDED_REPOS], a list of full names separated by commas and taken
    verbatim.  It exits with code 1, having issued nothing, when a
    required variable of the environment is missing or the repositories
    cannot be listed; otherwise it ends without an error. *)
Theorem scheduled_run_visits_allowed_repositories
    (env : string -> option string) (octokit : Octokit) (w : World) (log : list event) :
  exists evs,
    fst (index_js env octokit w log) = (log ++ evs)%list
    /\ (missingVars env <> [] ->
        evs = [] /\ snd (index_js env octokit w log) = Returned (Exit 1))
    /\ (missingVars env = [] ->
        match listReposAccessibleToInstallation octokit with
        | Throws _ =>
            evs = [] /\ snd (index_js env octokit w log) = Returned (Exit 1)
        | Returned listed =>
            snd (index_js env octokit w log) = Returned (Continue tt)
            /\ Forall (fun e =>
                         match eventRepo e with
                         | Some fullName =>
                             exists r,
                               In r listed /\ full_name (data r) = fullName
                               /\ archived r = false
                               /\ forall names,
                                    env "EXCLUDED_REPOS"
                                    = Some (JS.join "," names) ->
                                    JS.join "," names <> EmptyString ->
                                    Forall (fun n => lacks "," n = true) names ->
                                    ~ In (owner_login r ++ "/" ++ repo_name r) names
                         | None => True
                         end) evs
        end).
Proof.
  unfold index_js.
  destruct (missingVars env) as [|v vs] eqn:Em; cbn [nonEmpty].
  2:{ exists []. unfold ret. cbn [fst snd]. rewrite List.app_nil_r.
      split; [reflexivity|]. split; [auto|]. intros [=]. }
  remember (match env "EXCLUDED_REPOS" with
            | Some names => if JS.truthy (Some names) then JS.split "," names else []
            | None => []
            end) as excludedNames eqn:Hex.
  remember (match env "DRY_RUN" with
            | Some flag => String.eqb flag "true"
            | None => false
            end) as flag eqn:Hflag.
  unfold tryCatch, runBot, getRepositories, lift, ebind.
  cbn [Config.targetRepo Config.dryRun].
  destruct (listReposAccessibleToInstallation octokit) as [listed|err] eqn:El;
    cbn [bind].
  2:{ exists []. unfold ret. cbn [fst snd]. rewrite List.app_nil_r.
      split; [reflexivity|]. split; [congruence|]. intros _. auto. }
  set (repos := filter _ listed).
  destruct (run_about w flag (map data repos) log) as (evs & Hlog & Hab).
  pose proof (run_returns w flag (map data repos) log) as Hret.
  destruct (run w flag (map data repos) log) as [log1 [[]|e]];
    cbn [fst snd] in *; [|discriminate]. subst log1.
  exists evs. unfold ret. cbn [fst snd].
  split; [reflexivity|]. split; [congruence|]. intros _. split; [reflexivity|].
  eapply Forall_impl; [|exact Hab].
  intros e. cbn beta. destruct (eventRepo e) as [fullName|]; [|auto].
  rewrite map_map. intros Hin. apply in_map_iff in Hin as (r & Hn & Hr).
  apply filter_In in Hr as [Hr Hkeep]. apply andb_true_iff in Hkeep as [Ha Hx].
  apply negb_true_iff in Ha, Hx.
  exists r. repeat split; auto.
  intros names Henv Hne Hnames.
  unfold excluded in Hx. cbn [Config.excludedRepos] in Hx.
  rewrite Henv in Hex.
  destruct (JS.join "," names) as [|c s] eqn:Ej; [congruence|]. cbn [JS.truthy] in Hex.
  rewrite <- Ej in Hex. rewrite split_join in Hex; [|intros ->; discriminate|exact Hnames].
  subst excludedNames. now apply existsb_eqb_In.
Qed.

Lemma scheduled_run_visits_allowed_repositories_witness :
  exists evs,
    index_js scheduledEnv exampleOctokit exampleWorld []
    = (evs, Returned (Continue tt))
    /\ map eventRepo evs
       = [None; None; Some "acme/demo"; Some "acme/demo"; Some "acme/demo";
          Some "acme/demo"].
Proof.
  destruct (scheduled_run_visits_allowed_repositories scheduledEnv exampleOctokit
              exampleWorld []) as (evs & Hlog & _ & Hrun).
  destruct (Hrun eq_refl) as [Hret _].
  exists evs. cbn [app] in Hlog. split.
  - rewrite <- Hlog, <- Hret. now destruct (index_js _ _ _ _).
  - rewrite <- Hlog. vm_compute. reflexivity.
Defined.
